(** * Quota metering and policy enforcement: a shallow embedding

    The development follows the Go sources of the quota core:

    - [internal/config/api_key_config.go]  per-key policies and their predicates;
    - the pricing catalog and the quota data types of package [quota];
    - [internal/quota/manager.go]          the manager (policy store, ledger,
                                           decision engine);
    - the persistence controller of package [quota] (autosave lifecycle,
      snapshot file, startup and shutdown);
    - the two gin handlers of package [quota] that check a request and
      record its usage.

    Conventions.  Go's [int64] is a [Z] kept in range by an explicit
    wrap-around; [float64] is an interface with the IEEE-754 binary64
    instance (Rocq's primitive floats) and an exact instance over the
    rationals; maps are [gmap]s over strings; [time.Time] is an instant in
    nanoseconds together with the offset of its location.  Methods of the
    manager run under its lock and are state transformers of a small state
    monad; the wall clock is an explicit argument. *)

From Stdlib Require Import ZArith QArith Floats Uint63 Lia Bool List Ascii String.
From stdpp Require Import gmap strings.

Local Open Scope Z_scope.

(** ** Machine integers *)

Module Int64.

Definition min : Z := - 2 ^ 63.
Definition max : Z := 2 ^ 63 - 1.

Definition in_range (z : Z) : Prop := min <= z <= max.

(** Two's complement wrap-around of a mathematical integer. *)
Definition wrap (z : Z) : Z := (z - min) mod 2 ^ 64 + min.

Definition add (a b : Z) : Z := wrap (a + b).
Definition sub (a b : Z) : Z := wrap (a - b).

End Int64.

(** ** Floating point numbers

    The operations the quota code applies to [float64] values.  The
    constant [f64_of_int64] is the conversion [float64(n)] of an [int64];
    untyped integer constants of the source ([0], [1_000_000], [100]) are
    converted by it as well. *)

Class Float64 (F : Type) := {
  f64_of_int64 : Z -> F;
  f64_add : F -> F -> F;
  f64_sub : F -> F -> F;
  f64_mul : F -> F -> F;
  f64_div : F -> F -> F;
  f64_eqb : F -> F -> bool;
  f64_ltb : F -> F -> bool;
  f64_leb : F -> F -> bool
}.

Declare Scope f64_scope.
Delimit Scope f64_scope with f64.
Infix "+" := f64_add : f64_scope.
Infix "-" := f64_sub : f64_scope.
Infix "*" := f64_mul : f64_scope.
Infix "/" := f64_div : f64_scope.
Infix "=?" := f64_eqb : f64_scope.
Infix "<?" := f64_ltb : f64_scope.
Infix "<=?" := f64_leb : f64_scope.

(** The usual order properties of [float64] values that are finite: sums,
    products and quotients of non-negative finite numbers are non-negative
    (possibly the positive infinity, which is not finite), and adding a
    non-negative number to a finite one does not make it smaller. *)
Class Float64Laws (F : Type) `{Float64 F} := {
  f64_finite : F -> bool;
  f64_of_int64_nonneg : forall n,
    0 <= n <= Int64.max -> f64_leb (f64_of_int64 0) (f64_of_int64 n) = true;
  f64_of_int64_finite : forall n,
    0 <= n <= Int64.max -> f64_finite (f64_of_int64 n) = true;
  f64_mul_nonneg : forall a b,
    f64_finite a = true -> f64_finite b = true ->
    f64_leb (f64_of_int64 0) a = true -> f64_leb (f64_of_int64 0) b = true ->
    f64_leb (f64_of_int64 0) (f64_mul a b) = true;
  f64_div_nonneg : forall a n,
    0 < n <= Int64.max ->
    f64_leb (f64_of_int64 0) a = true ->
    f64_leb (f64_of_int64 0) (f64_div a (f64_of_int64 n)) = true;
  f64_add_nonneg : forall a b,
    f64_leb (f64_of_int64 0) a = true -> f64_leb (f64_of_int64 0) b = true ->
    f64_leb (f64_of_int64 0) (f64_add a b) = true;
  f64_add_mono : forall x c,
    f64_finite x = true -> f64_leb (f64_of_int64 0) c = true ->
    f64_leb x (f64_add x c) = true;
  f64_leb_refl : forall x, f64_finite x = true -> f64_leb x x = true
}.

(** IEEE-754 binary64, as the hardware computes it. *)
Module IEEE.

(** [float64(n)] for an [int64] [n]: the nearest binary64 value.  The
    primitive conversion takes an unsigned 63-bit integer, which leaves
    the sign and [-2^63] to be handled here. *)
Definition of_int64 (n : Z) : float :=
  if n =? Int64.min then PrimFloat.opp (Z.ldexp PrimFloat.one 63)
  else if n <? 0 then PrimFloat.opp (PrimFloat.of_uint63 (Uint63.of_Z (- n)))
  else PrimFloat.of_uint63 (Uint63.of_Z n).

#[global] Instance float64 : Float64 float := {|
  f64_of_int64 := of_int64;
  f64_add := PrimFloat.add;
  f64_sub := PrimFloat.sub;
  f64_mul := PrimFloat.mul;
  f64_div := PrimFloat.div;
  f64_eqb := PrimFloat.eqb;
  f64_ltb := PrimFloat.ltb;
  f64_leb := PrimFloat.leb
|}.

(** A float that is neither an infinity nor NaN. *)
Definition finiteb (x : float) : bool :=
  match Prim2SF x with
  | S754_zero _ | S754_finite _ _ _ => true
  | _ => false
  end.

End IEEE.

(** Exact arithmetic over the rationals: [float64] without rounding,
    infinities or NaN. *)
Module Exact.

#[global] Instance float64 : Float64 Q := {|
  f64_of_int64 := inject_Z;
  f64_add := Qplus;
  f64_sub := Qminus;
  f64_mul := Qmult;
  f64_div := Qdiv;
  f64_eqb := Qeq_bool;
  f64_ltb := fun a b => negb (Qle_bool b a);
  f64_leb := Qle_bool
|}.

End Exact.

(** ** Time

    The part of Go's [time] package that the policy code calls.  An instant
    is counted in nanoseconds from the Unix epoch; the location of a
    [time.Time] value is kept as its offset in seconds east of UTC, which is
    all that formatting needs.  [time.Now()] is an argument of the functions
    that read the clock: an instant in the local zone of the process. *)

Module GoTime.

Record Time := mkTime { unixNano : Z; zoneOffset : Z }.

Definition Second : Z := 1000000000.
Definition Hour : Z := 3600 * Second.
Definition secondsPerDay : Z := 86400.

(** The zero [Time]: January 1, year 1, 00:00:00 UTC. *)
Definition zeroNano : Z := -62135596800 * Second.
Definition zeroTime : Time := mkTime zeroNano 0.

Definition IsZero (t : Time) : bool := unixNano t =? zeroNano.
Definition After (t u : Time) : bool := unixNano u <? unixNano t.
Definition Add (t : Time) (d : Z) : Time := mkTime (unixNano t + d) (zoneOffset t).

(** *** The proleptic Gregorian calendar *)

Definition isLeap (y : Z) : bool :=
  (y mod 4 =? 0) && (negb (y mod 100 =? 0) || (y mod 400 =? 0)).

Definition daysIn (m y : Z) : Z :=
  match m with
  | 2 => if isLeap y then 29 else 28
  | 4 | 6 | 9 | 11 => 30
  | _ => 31
  end.

(** Days of a common year that precede month [m] (1 to 12; 13 gives 365). *)
Definition daysBefore (m : Z) : Z :=
  match m with
  | 1 => 0 | 2 => 31 | 3 => 59 | 4 => 90 | 5 => 120 | 6 => 151
  | 7 => 181 | 8 => 212 | 9 => 243 | 10 => 273 | 11 => 304 | 12 => 334
  | _ => 365
  end.

(** Days from January 1 of year 1 to January 1 of year [y]. *)
Definition daysBeforeYear (y : Z) : Z :=
  365 * (y - 1) + (y - 1) / 4 - (y - 1) / 100 + (y - 1) / 400.

Definition unixEpochDay : Z := 719162.

(** [Date(y, m, d, 0, 0, 0, 0, UTC)] as a day number from the Unix epoch.
    The month is within 1..12; a day beyond the end of the month runs
    into the next month, as Go normalises it. *)
Definition dayNumber (y m d : Z) : Z :=
  daysBeforeYear y + daysBefore m
  + (if isLeap y && (3 <=? m) then 1 else 0) + (d - 1) - unixEpochDay.

(** The civil date of a day number. *)
Definition civil (n : Z) : Z * Z * Z :=
  let z := n + 719468 in
  let era := z / 146097 in
  let doe := z - era * 146097 in
  let yoe := (doe - doe / 1460 + doe / 36524 - doe / 146096) / 365 in
  let doy := doe - (365 * yoe + yoe / 4 - yoe / 100) in
  let mp := (5 * doy + 2) / 153 in
  let d := doy - (153 * mp + 2) / 5 + 1 in
  let m := if mp <? 10 then mp + 3 else mp - 9 in
  let y := yoe + era * 400 + (if m <=? 2 then 1 else 0) in
  (y, m, d).

(** Seconds from the Unix epoch, on the wall clock of the value's location. *)
Definition wallSeconds (t : Time) : Z := unixNano t / Second + zoneOffset t.

(** [t.Date()]: year, month and day in the location of [t]. *)
Definition Date (t : Time) : Z * Z * Z := civil (wallSeconds t / secondsPerDay).

(** [t.AddDate(years, 0, 0)]: the same wall clock reading [years] later,
    normalised by [Date]. *)
Definition AddYears (t : Time) (years : Z) : Time :=
  let '(y, m, d) := Date t in
  let days := dayNumber (y + years) m d - wallSeconds t / secondsPerDay in
  Add t (days * secondsPerDay * Second).

(** *** Formatting with the layout ["2006-01-02"] *)

Definition digitChar (d : Z) : ascii := ascii_of_nat (48 + Z.to_nat d).

Fixpoint decimal (fuel : nat) (n : Z) (acc : string) : string :=
  match fuel with
  | O => acc
  | S fuel' =>
      let acc' := String (digitChar (n mod 10)) acc in
      if n / 10 =? 0 then acc' else decimal fuel' (n / 10) acc'
  end.

Fixpoint zeros (k : nat) (s : string) : string :=
  match k with O => s | S k' => String "0" (zeros k' s) end.

(** [appendInt]: decimal digits, zero-padded to [width], with a minus sign
    for negative numbers. *)
Definition appendInt (n : Z) (width : nat) : string :=
  let ds := decimal 20 (Z.abs n) EmptyString in
  let padded := zeros (width - String.length ds) ds in
  if n <? 0 then String "-" padded else padded.

Definition FormatDate (t : Time) : string :=
  let '(y, m, d) := Date t in
  (appendInt y 4 ++ "-" ++ appendInt m 2 ++ "-" ++ appendInt d 2)%string.

(** *** Parsing *)

Definition isDigit (c : ascii) : bool :=
  (48 <=? Z.of_nat (nat_of_ascii c)) && (Z.of_nat (nat_of_ascii c) <=? 57).

Definition digitVal (c : ascii) : Z := Z.of_nat (nat_of_ascii c) - 48.

(** An unsigned decimal number: every character a digit. *)
Fixpoint parseDigits (cs : list ascii) (acc : Z) : option Z :=
  match cs with
  | [] => Some acc
  | c :: cs' => if isDigit c then parseDigits cs' (acc * 10 + digitVal c) else None
  end.

Definition midnightUTC (y m d : Z) : Z := dayNumber y m d * secondsPerDay * Second.

(** [time.Parse("2006-01-02", s)]: four digits of year, two of month, two
    of day and nothing more; the month within 1..12 and the day within the
    month; the result is midnight of that day in UTC. *)
Definition ParseDate (s : string) : option Time :=
  match list_ascii_of_string s with
  | [y1; y2; y3; y4; sep1; m1; m2; sep2; d1; d2] =>
      if Ascii.eqb sep1 "-" && Ascii.eqb sep2 "-" then
        match parseDigits [y1; y2; y3; y4] 0, parseDigits [m1; m2] 0, parseDigits [d1; d2] 0 with
        | Some y, Some m, Some d =>
            if (1 <=? m) && (m <=? 12) && (1 <=? d) && (d <=? daysIn m y)
            then Some (mkTime (midnightUTC y m d) 0)
            else None
        | _, _, _ => None
        end
      else None
  | _ => None
  end.

(** [getnum(s, fixed)]: the number of one or two leading digits, and the
    rest of the string; with [fixed] there must be two digits. *)
Definition getnum (value : list ascii) (fixed : bool) : option (Z * list ascii) :=
  match value with
  | c0 :: rest =>
      if isDigit c0 then
        match rest with
        | c1 :: rest' =>
            if isDigit c1 then Some (digitVal c0 * 10 + digitVal c1, rest')
            else if fixed then None else Some (digitVal c0, rest)
        | [] => if fixed then None else Some (digitVal c0, rest)
        end
      else None
  | [] => None
  end.

(** [skip(value, prefix)] for a prefix of one character that is no space. *)
Definition skip (value : list ascii) (prefix : ascii) : option (list ascii) :=
  match value with
  | c :: rest => if Ascii.eqb c prefix then Some rest else None
  | [] => None
  end.

(** The digits of a fractional second, read as nanoseconds: at most nine
    digits count. *)
Fixpoint fractionNanos (cs : list ascii) (scale : Z) : Z :=
  match cs with
  | [] => 0
  | c :: cs' => digitVal c * scale + fractionNanos cs' (scale / 10)
  end.

Fixpoint spanDigits (cs : list ascii) : list ascii * list ascii :=
  match cs with
  | c :: cs' =>
      if isDigit c then let '(ds, rest) := spanDigits cs' in (c :: ds, rest)
      else ([], cs)
  | [] => ([], [])
  end.

(** A fractional second in the value where the layout has none: a period
    or a comma followed by digits, as [parse] accepts it after the
    seconds. *)
Definition parseFraction (value : list ascii) : Z * list ascii :=
  match value with
  | sep :: f :: more =>
      if (Ascii.eqb sep "." || Ascii.eqb sep ",") && isDigit f then
        let '(ds, rest) := spanDigits (f :: more) in
        (fractionNanos ds 100000000, rest)
      else (0, value)
  | _ => (0, value)
  end.

(** The zone, for the layout element [Z07:00]: [Z], or a sign, two digits
    of hours, a colon and two digits of minutes; the hours may run to 24 and
    the minutes to 60.  The result is the offset in seconds east of UTC. *)
Definition parseZone (value : list ascii) : option (Z * list ascii) :=
  match value with
  | z :: rest =>
      if Ascii.eqb z "Z" then Some (0, rest)
      else
        match value with
        | sign :: h1 :: h2 :: colon :: m1 :: m2 :: rest =>
            if Ascii.eqb colon ":" then
              '(hr, _) ← getnum [h1; h2] true;
              '(mm, _) ← getnum [m1; m2] true;
              if (24 <? hr) || (60 <? mm) then None
              else
                let zoneOffset := (hr * 60 + mm) * 60 in
                if Ascii.eqb sign "+" then Some (zoneOffset, rest)
                else if Ascii.eqb sign "-" then Some (- zoneOffset, rest)
                else None
            else None
        | _ => None
        end
  | [] => None
  end.

(** [time.Parse(time.RFC3339, s)]: the value is read against the layout
    [2006-01-02T15:04:05Z07:00], element by element.  The year has four
    digits; month, day, minute and second have two; the hour has one or
    two; a fraction of a second may follow the seconds; nothing may follow
    the zone.  The day is checked against the month at the end.  The result
    is the instant read, in the zone read.  (The fast path that [Parse]
    tries first for this layout accepts a part of these values, with the
    same result.) *)
Definition ParseRFC3339 (s : string) : option Time :=
  match list_ascii_of_string s with
  | y1 :: y2 :: y3 :: y4 :: value =>
      year ← parseDigits [y1; y2; y3; y4] 0;
      value ← skip value "-";
      '(month, value) ← getnum value true;
      if (month <=? 0) || (12 <? month) then None
      else
        value ← skip value "-";
        '(day, value) ← getnum value true;
        value ← skip value "T";
        '(hour, value) ← getnum value false;
        if 24 <=? hour then None
        else
          value ← skip value ":";
          '(min, value) ← getnum value true;
          if 60 <=? min then None
          else
            value ← skip value ":";
            '(sec, value) ← getnum value true;
            if 60 <=? sec then None
            else
              let '(nsec, value) := parseFraction value in
              '(zoneOffset, value) ← parseZone value;
              match value with
              | [] =>
                  if (day <? 1) || (daysIn month year <? day) then None
                  else
                    let secs :=
                      dayNumber year month day * secondsPerDay
                      + hour * 3600 + min * 60 + sec - zoneOffset in
                    Some (mkTime (secs * Second + nsec) zoneOffset)
              | _ :: _ => None
              end
  | _ => None
  end.

End GoTime.

(** ** Policies ([internal/config/api_key_config.go])

    The methods have pointer receivers and test them against [nil]; a
    receiver is an [option] here, [None] standing for the nil pointer. *)

Section Policies.

Context {F : Type} `{Float64 F}.

Record APIKeyPolicy := {
  Name : string;
  AllowedModels : list string;
  MaxTokens : Z;
  MaxCostUSD : F;
  ExpiresAt : string
}.

Definition ParsedExpiresAt (p : option APIKeyPolicy) : GoTime.Time :=
  match p with
  | None => GoTime.zeroTime
  | Some p =>
      if String.eqb (ExpiresAt p) "" then GoTime.zeroTime
      else
        match GoTime.ParseRFC3339 (ExpiresAt p) with
        | Some t => t
        | None =>
            match GoTime.ParseDate (ExpiresAt p) with
            | Some t => GoTime.Add t (24 * GoTime.Hour - GoTime.Second)
            | None => GoTime.zeroTime
            end
        end
  end.

Definition HasModelRestriction (p : option APIKeyPolicy) : bool :=
  match p with
  | None => false
  | Some p => (0 <? Z.of_nat (length (AllowedModels p)))
  end.

Definition HasTokenLimit (p : option APIKeyPolicy) : bool :=
  match p with
  | None => false
  | Some p => 0 <? MaxTokens p
  end.

Definition HasCostLimit (p : option APIKeyPolicy) : bool :=
  match p with
  | None => false
  | Some p => (f64_of_int64 0 <? MaxCostUSD p)%f64
  end.

Definition HasExpiration (p : option APIKeyPolicy) : bool :=
  match p with
  | None => false
  | Some p => negb (String.eqb (ExpiresAt p) "")
  end.

Definition IsExpired (now : GoTime.Time) (p : option APIKeyPolicy) : bool :=
  if negb (HasExpiration p) then false
  else
    let expiresAt := ParsedExpiresAt p in
    if GoTime.IsZero expiresAt then false
    else GoTime.After now expiresAt.

(** The loop of [IsModelAllowed] over the allow-list. *)
Fixpoint containsModel (allowed : list string) (model : string) : bool :=
  match allowed with
  | [] => false
  | a :: rest => if String.eqb a model then true else containsModel rest model
  end.

Definition IsModelAllowed (p : option APIKeyPolicy) (model : string) : bool :=
  if negb (HasModelRestriction p) then true
  else
    match p with
    | Some p => containsModel (AllowedModels p) model
    | None => false
    end.

Definition HasAnyRestriction (p : option APIKeyPolicy) : bool :=
  match p with
  | None => false
  | Some _ =>
      HasModelRestriction p || HasTokenLimit p || HasCostLimit p || HasExpiration p
  end.

End Policies.

Arguments APIKeyPolicy F : clear implicits.

(** ** The pricing catalog (package [quota]) *)

Section Pricing.

Context {F : Type} `{Float64 F}.

Record ModelPricing := {
  InputPricePerMillion : F;
  OutputPricePerMillion : F;
  CachedInputPricePerMillion : F
}.

Record PricingManager := {
  pricing_table : gmap string ModelPricing;
  filePath : string
}.

Definition SetPricingFilePath (path : string) (m : PricingManager) : PricingManager :=
  {| pricing_table := pricing_table m; filePath := path |}.

Definition GetPricing (m : PricingManager) (model : string) : option ModelPricing :=
  pricing_table m !! model.

Definition SetPricing (model : string) (pricing : ModelPricing) (m : PricingManager)
  : PricingManager :=
  {| pricing_table := <[model := pricing]> (pricing_table m); filePath := filePath m |}.

(** Every default whose model has no entry yet is added; entries already
    present stay: the union that prefers the table. *)
Definition SetDefaultPricing (defaults : gmap string ModelPricing) (m : PricingManager)
  : PricingManager :=
  {| pricing_table := pricing_table m ∪ defaults; filePath := filePath m |}.

Definition CalculateCost (m : PricingManager) (model : string)
    (inputTokens outputTokens cachedTokens : Z) : F :=
  match GetPricing m model with
  | None => f64_of_int64 0
  | Some pricing =>
      let inputCost :=
        (f64_of_int64 inputTokens * InputPricePerMillion pricing
         / f64_of_int64 1000000)%f64 in
      let cachedPrice := CachedInputPricePerMillion pricing in
      let cachedPrice :=
        if (cachedPrice =? f64_of_int64 0)%f64 then InputPricePerMillion pricing
        else cachedPrice in
      let cachedCost :=
        (f64_of_int64 cachedTokens * cachedPrice / f64_of_int64 1000000)%f64 in
      let outputCost :=
        (f64_of_int64 outputTokens * OutputPricePerMillion pricing
         / f64_of_int64 1000000)%f64 in
      (inputCost + cachedCost + outputCost)%f64
  end.

Definition AllPricing (m : PricingManager) : gmap string ModelPricing :=
  pricing_table m.

End Pricing.

Arguments ModelPricing F : clear implicits.
Arguments PricingManager F : clear implicits.

(** ** Quota data types (package [quota]) *)

Section Types.

Context {F : Type} `{Float64 F}.

Abbreviation Policy := (APIKeyPolicy F).

Record QuotaUsage := {
  APIKey : string;
  TotalTokens : Z;
  TotalCostUSD : F;
  TotalRequests : Z;
  LastUsedAt : GoTime.Time;
  CreatedAt : GoTime.Time
}.

Inductive QuotaErrorType :=
| QuotaErrorTypeExpired
| QuotaErrorTypeModelNotAllowed
| QuotaErrorTypeTokenLimitExceeded
| QuotaErrorTypeCostLimitExceeded.

(** The string each error type stands for. *)
Definition QuotaErrorType_string (t : QuotaErrorType) : string :=
  match t with
  | QuotaErrorTypeExpired => "api_key_expired"
  | QuotaErrorTypeModelNotAllowed => "model_not_allowed"
  | QuotaErrorTypeTokenLimitExceeded => "token_limit_exceeded"
  | QuotaErrorTypeCostLimitExceeded => "cost_limit_exceeded"
  end.

(** The [Details] map of an error, by the keys each constructor fills. *)
Inductive ErrorDetails :=
| DetailsExpired (expires_at : GoTime.Time)
| DetailsModel (requested_model : string) (allowed_models : list string)
| DetailsTokens (used_tokens max_tokens : Z)
| DetailsCost (used_cost_usd max_cost_usd : F).

(** [Message], the rendering of the same values as a sentence, is left out. *)
Record QuotaError := {
  Type_ : QuotaErrorType;
  Code : string;
  Details : ErrorDetails
}.

Definition NewExpiredError (expiresAt : GoTime.Time) : QuotaError :=
  {| Type_ := QuotaErrorTypeExpired;
     Code := "api_key_expired";
     Details := DetailsExpired expiresAt |}.

Definition NewModelNotAllowedError (model : string) (allowedModels : list string)
  : QuotaError :=
  {| Type_ := QuotaErrorTypeModelNotAllowed;
     Code := "model_not_allowed";
     Details := DetailsModel model allowedModels |}.

Definition NewTokenLimitExceededError (used limit : Z) : QuotaError :=
  {| Type_ := QuotaErrorTypeTokenLimitExceeded;
     Code := "token_limit_exceeded";
     Details := DetailsTokens used limit |}.

Definition NewCostLimitExceededError (used limit : F) : QuotaError :=
  {| Type_ := QuotaErrorTypeCostLimitExceeded;
     Code := "cost_limit_exceeded";
     Details := DetailsCost used limit |}.

Record CheckResult := {
  Allowed : bool;
  Error : option QuotaError;
  Usage : option QuotaUsage;
  Policy_ : option Policy;
  RemainingTokens : option Z;
  RemainingCostUSD : option F
}.

Definition NewAllowedResult (policy : option Policy) (usage : option QuotaUsage)
  : CheckResult :=
  let result :=
    {| Allowed := true; Error := None; Usage := usage; Policy_ := policy;
       RemainingTokens := None; RemainingCostUSD := None |} in
  match policy, usage with
  | Some p, Some u =>
      let result :=
        if HasTokenLimit policy then
          {| Allowed := Allowed result; Error := Error result;
             Usage := Usage result; Policy_ := Policy_ result;
             RemainingTokens := Some (Int64.sub (MaxTokens p) (TotalTokens u));
             RemainingCostUSD := RemainingCostUSD result |}
        else result in
      if HasCostLimit policy then
        {| Allowed := Allowed result; Error := Error result;
           Usage := Usage result; Policy_ := Policy_ result;
           RemainingTokens := RemainingTokens result;
           RemainingCostUSD := Some (MaxCostUSD p - TotalCostUSD u)%f64 |}
      else result
  | _, _ => result
  end.

Definition NewDeniedResult (err : QuotaError) (policy : option Policy)
    (usage : option QuotaUsage) : CheckResult :=
  {| Allowed := false; Error := Some err; Usage := usage; Policy_ := policy;
     RemainingTokens := None; RemainingCostUSD := None |}.

End Types.

Arguments QuotaUsage F : clear implicits.
Arguments ErrorDetails F : clear implicits.
Arguments QuotaError F : clear implicits.
Arguments CheckResult F : clear implicits.

(** ** The manager ([internal/quota/manager.go])

    The two maps hold the policies and the ledger rows; a missing key reads
    as the nil pointer, [None].  Rows are stored by value: [SetUsage] is
    given a row, not nil.  Every method takes the manager's lock for its
    whole body, so it is a state transformer; [CheckQuota] and
    [GetQuotaStatus] are written over the getters they call. *)

Section ManagerState.

Context {F : Type} `{Float64 F}.

Record Manager := {
  policies : gmap string (APIKeyPolicy F);
  usage : gmap string (QuotaUsage F);
  pricing : PricingManager F
}.

(** The part of [config.SDKConfig] that [LoadPolicies] reads. *)
Record SDKConfig := { APIKeyPolicies : gmap string (APIKeyPolicy F) }.

(** State transformers over the manager. *)
Definition M (A : Type) : Type := Manager -> A * Manager.

Definition ret {A} (a : A) : M A := fun m => (a, m).
Definition bind {A B} (c : M A) (k : A -> M B) : M B :=
  fun m => let '(a, m') := c m in k a m'.
Definition gets {A} (f : Manager -> A) : M A := fun m => (f m, m).
Definition modify (f : Manager -> Manager) : M unit := fun m => (tt, f m).

Definition set_policies (ps : gmap string (APIKeyPolicy F)) (m : Manager) : Manager :=
  {| policies := ps; usage := usage m; pricing := pricing m |}.
Definition set_usage (us : gmap string (QuotaUsage F)) (m : Manager) : Manager :=
  {| policies := policies m; usage := us; pricing := pricing m |}.

End ManagerState.

Arguments Manager F : clear implicits.
Arguments SDKConfig F : clear implicits.
Arguments M F A : clear implicits.

Notation "'let*' x := c 'in' k" := (bind c (fun x => k))
  (at level 10, x name, c at level 100, k at level 200).
Notation "'run' c 'then' k" := (bind c (fun _ => k))
  (at level 10, c at level 100, k at level 200).

Section ManagerMethods.

Context {F : Type} `{Float64 F}.

Definition NewManager (p : PricingManager F) : Manager F :=
  {| policies := ∅; usage := ∅; pricing := p |}.

Definition LoadPolicies (cfg : option (SDKConfig F)) : M F unit :=
  match cfg with
  | None => ret tt
  | Some cfg =>
      run modify (set_policies ∅) then
      modify (fun m =>
        set_policies
          (map_fold (fun apiKey policy ps => <[apiKey := policy]> ps)
                    (policies m) (APIKeyPolicies cfg)) m)
  end.

Definition GetPolicy (apiKey : string) : M F (option (APIKeyPolicy F)) :=
  gets (fun m => policies m !! apiKey).

Definition newUsage (apiKey : string) (now : GoTime.Time) : QuotaUsage F :=
  {| APIKey := apiKey; TotalTokens := 0; TotalCostUSD := f64_of_int64 0;
     TotalRequests := 0; LastUsedAt := GoTime.zeroTime; CreatedAt := now |}.

Definition GetUsage (now : GoTime.Time) (apiKey : string) : M F (QuotaUsage F) :=
  fun m =>
    match usage m !! apiKey with
    | Some u => (u, m)
    | None =>
        let u := newUsage apiKey now in
        (u, set_usage (<[apiKey := u]> (usage m)) m)
    end.

Definition GetUsageReadOnly (apiKey : string) : M F (option (QuotaUsage F)) :=
  gets (fun m => usage m !! apiKey).

Definition CheckQuota (now : GoTime.Time) (apiKey model : string)
  : M F (CheckResult F) :=
  let* policy := GetPolicy apiKey in
  let* usage := GetUsageReadOnly apiKey in
  match policy with
  | None => ret (NewAllowedResult None usage)
  | Some p =>
      let allowed := NewAllowedResult policy usage in
      let check4 :=
        match HasCostLimit policy, usage with
        | true, Some u =>
            if (MaxCostUSD p <=? TotalCostUSD u)%f64 then
              NewDeniedResult
                (NewCostLimitExceededError (TotalCostUSD u) (MaxCostUSD p))
                policy usage
            else allowed
        | _, _ => allowed
        end in
      let check3 :=
        match HasTokenLimit policy, usage with
        | true, Some u =>
            if TotalTokens u >=? MaxTokens p then
              NewDeniedResult
                (NewTokenLimitExceededError (TotalTokens u) (MaxTokens p))
                policy usage
            else check4
        | _, _ => check4
        end in
      if IsExpired now policy then
        ret (NewDeniedResult (NewExpiredError (ParsedExpiresAt policy)) policy usage)
      else if negb (IsModelAllowed policy model) then
        ret (NewDeniedResult (NewModelNotAllowedError model (AllowedModels p))
                             policy usage)
      else ret check3
  end.

(** The clock is read twice: for [CreatedAt] of a new row ([created]) and
    for [LastUsedAt] ([used]). *)
Definition UpdateUsage (created used : GoTime.Time) (apiKey model : string)
    (inputTokens outputTokens cachedTokens : Z) : M F unit :=
  fun m =>
    let '(u, m) :=
      match usage m !! apiKey with
      | Some u => (u, m)
      | None =>
          let u := newUsage apiKey created in
          (u, set_usage (<[apiKey := u]> (usage m)) m)
      end in
    let totalTokens := Int64.add inputTokens outputTokens in
    let cost := CalculateCost (pricing m) model inputTokens outputTokens cachedTokens in
    let u' :=
      {| APIKey := APIKey u;
         TotalTokens := Int64.add (TotalTokens u) totalTokens;
         TotalCostUSD := (TotalCostUSD u + cost)%f64;
         TotalRequests := Int64.add (TotalRequests u) 1;
         LastUsedAt := used;
         CreatedAt := CreatedAt u |} in
    (tt, set_usage (<[apiKey := u']> (usage m)) m).

Definition SetUsage (apiKey : string) (u : QuotaUsage F) : M F unit :=
  modify (fun m => set_usage (<[apiKey := u]> (usage m)) m).

Definition AllUsage : M F (gmap string (QuotaUsage F)) := gets usage.

Definition AllPolicies : M F (gmap string (APIKeyPolicy F)) := gets policies.

Definition ResetUsage (apiKey : string) : M F unit :=
  modify (fun m => set_usage (delete apiKey (usage m)) m).

Definition ResetAllUsage : M F unit := modify (set_usage ∅).

(** [maskAPIKey]: the first eight and the last four bytes of a long key. *)
Definition maskAPIKey (key : string) : string :=
  if (String.length key <=? 12)%nat then "***"
  else (String.substring 0 8 key ++ "..."
        ++ String.substring (String.length key - 4) 4 key)%string.

(** The entries of the status map of [GetQuotaStatus]. *)
Record PolicyStatus := {
  ps_name : string;
  ps_allowed_models : list string;
  ps_max_tokens : Z;
  ps_max_cost_usd : F;
  ps_expires_at : string;
  ps_is_expired : bool
}.

Record QuotaStatus := {
  st_api_key : string;
  st_has_policy : bool;
  st_has_usage : bool;
  st_policy : option PolicyStatus;
  st_usage : option (QuotaUsage F);
  st_remaining_tokens : option Z;
  st_token_usage_percent : option F;
  st_remaining_cost_usd : option F;
  st_cost_usage_percent : option F
}.

Definition GetQuotaStatus (now : GoTime.Time) (apiKey : string) : M F QuotaStatus :=
  let* policy := GetPolicy apiKey in
  let* usage := GetUsageReadOnly apiKey in
  let limited (has : option (APIKeyPolicy F) -> bool) {A}
      (f : APIKeyPolicy F -> QuotaUsage F -> A) : option A :=
    match usage, policy with
    | Some u, Some p => if has policy then Some (f p u) else None
    | _, _ => None
    end in
  ret {| st_api_key := maskAPIKey apiKey;
         st_has_policy := bool_decide (is_Some policy);
         st_has_usage := bool_decide (is_Some usage);
         st_policy :=
           match policy with
           | Some p =>
               Some {| ps_name := Name p;
                       ps_allowed_models := AllowedModels p;
                       ps_max_tokens := MaxTokens p;
                       ps_max_cost_usd := MaxCostUSD p;
                       ps_expires_at := ExpiresAt p;
                       ps_is_expired := IsExpired now policy |}
           | None => None
           end;
         st_usage := usage;
         st_remaining_tokens :=
           limited HasTokenLimit (fun p u => Int64.sub (MaxTokens p) (TotalTokens u));
         st_token_usage_percent :=
           limited HasTokenLimit (fun p u =>
             (f64_of_int64 (TotalTokens u) / f64_of_int64 (MaxTokens p)
              * f64_of_int64 100)%f64);
         st_remaining_cost_usd :=
           limited HasCostLimit (fun p u => (MaxCostUSD p - TotalCostUSD u)%f64);
         st_cost_usage_percent :=
           limited HasCostLimit (fun p u =>
             (TotalCostUSD u / MaxCostUSD p * f64_of_int64 100)%f64) |}.

(** The calls a client can make on the manager, for statements that range
    over all of them. *)
Inductive Call :=
| CallLoadPolicies (cfg : option (SDKConfig F))
| CallGetPolicy (apiKey : string)
| CallGetUsage (now : GoTime.Time) (apiKey : string)
| CallGetUsageReadOnly (apiKey : string)
| CallCheckQuota (now : GoTime.Time) (apiKey model : string)
| CallUpdateUsage (created used : GoTime.Time) (apiKey model : string)
                  (inputTokens outputTokens cachedTokens : Z)
| CallSetUsage (apiKey : string) (u : QuotaUsage F)
| CallAllUsage
| CallAllPolicies
| CallResetUsage (apiKey : string)
| CallResetAllUsage
| CallGetQuotaStatus (now : GoTime.Time) (apiKey : string).

(** The manager after a call. *)
Definition after (c : Call) (m : Manager F) : Manager F :=
  match c with
  | CallLoadPolicies cfg => snd (LoadPolicies cfg m)
  | CallGetPolicy k => snd (GetPolicy k m)
  | CallGetUsage now k => snd (GetUsage now k m)
  | CallGetUsageReadOnly k => snd (GetUsageReadOnly k m)
  | CallCheckQuota now k model => snd (CheckQuota now k model m)
  | CallUpdateUsage c u k model i o ca => snd (UpdateUsage c u k model i o ca m)
  | CallSetUsage k u => snd (SetUsage k u m)
  | CallAllUsage => snd (AllUsage m)
  | CallAllPolicies => snd (AllPolicies m)
  | CallResetUsage k => snd (ResetUsage k m)
  | CallResetAllUsage => snd (ResetAllUsage m)
  | CallGetQuotaStatus now k => snd (GetQuotaStatus now k m)
  end.

End ManagerMethods.

Arguments Call F : clear implicits.

(** ** The persistence controller (package [quota], persistence)

    The package-level variables ([persistencePath], [stopAutoSave],
    [autoSaveRunning]), the manager singleton and what the controller does to
    its surroundings: the files it writes, the channels it makes and closes,
    the goroutines it starts and the lines it logs.  What the operating
    system answers to a call is an argument of the function that makes it. *)

Section Persistence.

Context {F : Type} `{Float64 F}.

Definition quotaUsageFileName : string := "quota_usage.json".

(** [persistedUsageData], the content of the snapshot file. *)
Record persistedUsageData := {
  pd_Usage : gmap string (QuotaUsage F);
  pd_LastSaved : GoTime.Time;
  pd_Version : Z
}.

(** A file holds a snapshot, or bytes that do not parse as one. *)
Inductive FileData :=
| Snapshot (d : persistedUsageData)
| Malformed.

Inductive LogLevel := Debug | Info | Warn.

Record World := {
  manager : Manager F;
  persistencePath : string;
  (** [stopAutoSave]: nil, or the index of a channel in [channels]. *)
  stopAutoSave : option nat;
  autoSaveRunning : bool;
  (** The channels made so far; [true] marks a closed one. *)
  channels : list bool;
  (** The number of autosave goroutines started so far. *)
  goroutines : nat;
  files : gmap string FileData;
  logged : list (LogLevel * string)
}.

Definition set_manager (m : Manager F) (w : World) : World :=
  {| manager := m; persistencePath := persistencePath w;
     stopAutoSave := stopAutoSave w; autoSaveRunning := autoSaveRunning w;
     channels := channels w; goroutines := goroutines w;
     files := files w; logged := logged w |}.

Definition set_files (fs : gmap string FileData) (w : World) : World :=
  {| manager := manager w; persistencePath := persistencePath w;
     stopAutoSave := stopAutoSave w; autoSaveRunning := autoSaveRunning w;
     channels := channels w; goroutines := goroutines w;
     files := fs; logged := logged w |}.

Definition log (lvl : LogLevel) (msg : string) (w : World) : World :=
  {| manager := manager w; persistencePath := persistencePath w;
     stopAutoSave := stopAutoSave w; autoSaveRunning := autoSaveRunning w;
     channels := channels w; goroutines := goroutines w;
     files := files w; logged := logged w ++ [(lvl, msg)] |}.

(** The answers of the file system to one [SaveUsageToFile]. *)
Record SaveIO := { marshal_ok : bool; write_ok : bool; rename_ok : bool }.

(** [SetPersistencePath]; [absPath] is the answer of [filepath.Abs] and
    [mkdir_ok] that of [os.MkdirAll]. *)
Definition SetPersistencePath (authDir : string) (absPath : option string)
    (mkdir_ok : bool) (w : World) : option string * World :=
  if String.eqb authDir "" then (Some "auth directory is empty", w)
  else
    match absPath with
    | None => (Some "failed to resolve auth directory", w)
    | Some dir =>
        if negb mkdir_ok then (Some "failed to create auth directory", w)
        else
          (None,
           {| manager := manager w;
              persistencePath := (dir ++ "/" ++ quotaUsageFileName)%string;
              stopAutoSave := stopAutoSave w; autoSaveRunning := autoSaveRunning w;
              channels := channels w; goroutines := goroutines w;
              files := files w; logged := logged w |})
    end.

Definition GetPersistencePath (w : World) : string := persistencePath w.

(** [LoadUsageFromFile]; [read_ok] tells whether an existing file could be
    read.  The rows of the snapshot go into the ledger by [SetUsage]. *)
Definition LoadUsageFromFile (read_ok : bool) (w : World) : option string * World :=
  let path := persistencePath w in
  if String.eqb path "" then (Some "persistence path not set", w)
  else
    match files w !! path with
    | None => (None, log Debug "Quota usage file does not exist, starting fresh" w)
    | Some data =>
        if negb read_ok then (Some "failed to read quota usage file", w)
        else
          match data with
          | Malformed => (Some "failed to parse quota usage file", w)
          | Snapshot persisted =>
              let m :=
                map_fold (fun apiKey u m => snd (SetUsage apiKey u m))
                         (manager w) (pd_Usage persisted) in
              (None, log Info "Loaded quota usage" (set_manager m w))
          end
    end.

(** [SaveUsageToFile]: the snapshot goes to a temporary file that is then
    renamed over the real one. *)
Definition SaveUsageToFile (now : GoTime.Time) (io : SaveIO) (w : World)
  : option string * World :=
  let path := persistencePath w in
  if String.eqb path "" then (Some "persistence path not set", w)
  else
    let '(allUsage, m) := AllUsage (manager w) in
    let w := set_manager m w in
    let persisted :=
      {| pd_Usage := allUsage; pd_LastSaved := now; pd_Version := 1 |} in
    if negb (marshal_ok io) then (Some "failed to marshal quota usage", w)
    else
      let tmpPath := (path ++ ".tmp")%string in
      if negb (write_ok io) then (Some "failed to write quota usage temp file", w)
      else
        let w := set_files (<[tmpPath := Snapshot persisted]> (files w)) w in
        if negb (rename_ok io) then
          (Some "failed to rename quota usage file",
           set_files (delete tmpPath (files w)) w)
        else
          let w :=
            set_files (<[path := Snapshot persisted]> (delete tmpPath (files w))) w in
          (None, log Debug "Saved quota usage" w).

(** One firing of the ticker in the autosave goroutine. *)
Definition autoSaveTick (now : GoTime.Time) (io : SaveIO) (w : World) : World :=
  match SaveUsageToFile now io w with
  | (Some err, w) => log Warn ("Auto-save quota usage failed: " ++ err)%string w
  | (None, w) => w
  end.

Definition StartAutoSave (w : World) : World :=
  if autoSaveRunning w then w
  else
    let w :=
      {| manager := manager w; persistencePath := persistencePath w;
         stopAutoSave := Some (length (channels w));
         autoSaveRunning := true;
         channels := channels w ++ [false];
         goroutines := S (goroutines w);
         files := files w; logged := logged w |} in
    log Info "Quota usage auto-save started (interval: 1 minute)" w.

(** The end of a call: it returns, or the runtime panics. *)
Inductive Outcome :=
| Returned (w : World)
| Panicked (reason : string).

(** [close(ch)] panics on the nil channel and on a closed one. *)
Definition closeChannel (ch : option nat) (chans : list bool) : option (list bool) :=
  match ch with
  | None => None
  | Some i =>
      match chans !! i with
      | Some false => Some (<[i := true]> chans)
      | _ => None
      end
  end.

Definition StopAutoSave (now : GoTime.Time) (io : SaveIO) (w : World) : Outcome :=
  if negb (autoSaveRunning w) then Returned w
  else
    match closeChannel (stopAutoSave w) (channels w) with
    | None => Panicked "close of nil or closed channel"
    | Some chans =>
        let w :=
          {| manager := manager w; persistencePath := persistencePath w;
             stopAutoSave := stopAutoSave w; autoSaveRunning := false;
             channels := chans; goroutines := goroutines w;
             files := files w; logged := logged w |} in
        match SaveUsageToFile now io w with
        | (Some err, w) =>
            Returned (log Warn ("Final quota usage save failed: " ++ err)%string w)
        | (None, w) => Returned (log Info "Quota usage saved on shutdown" w)
        end
    end.

(** The state of a process that has not called the controller yet. *)
Definition initialWorld (p : PricingManager F) : World :=
  {| manager := NewManager p; persistencePath := "";
     stopAutoSave := None; autoSaveRunning := false;
     channels := []; goroutines := 0; files := ∅; logged := [] |}.

Definition Shutdown (now : GoTime.Time) (io : SaveIO) (w : World) : Outcome :=
  StopAutoSave now io w.

End Persistence.

Arguments World F : clear implicits.
Arguments Outcome F : clear implicits.
Arguments persistedUsageData F : clear implicits.
Arguments FileData F : clear implicits.

(** ** The pricing file (package [quota], pricing)

    What [LoadFromFile] finds at a path is a table of prices, or bytes that
    do not parse as one; [read_ok] tells whether an existing file could be
    read.  The lines the two loaders log are left out, as for the manager. *)

Section PricingFiles.

Context {F : Type} `{Float64 F}.

Inductive PricingFileData :=
| PricingTable (pricing : gmap string (ModelPricing F))
| PricingMalformed.

(** [filepath.Join] of the three path elements of [LoadFromGitStore]. *)
Variable Join : string -> string -> string -> string.

Definition LoadFromFile (fs : gmap string PricingFileData) (read_ok : bool)
    (m : PricingManager F) : option string * PricingManager F :=
  if String.eqb (filePath m) "" then (None, m)
  else
    match fs !! filePath m with
    | None => (None, m)
    | Some data =>
        if negb read_ok then (Some "failed to read pricing file", m)
        else
          match data with
          | PricingMalformed => (Some "failed to parse pricing file", m)
          | PricingTable pricing =>
              (None,
               {| pricing_table :=
                    map_fold (fun model price t => <[model := price]> t)
                             (pricing_table m) pricing;
                  filePath := filePath m |})
          end
    end.

Definition LoadFromGitStore (gitStoreDir : string)
    (fs : gmap string PricingFileData) (read_ok : bool) (m : PricingManager F)
  : option string * PricingManager F :=
  if String.eqb gitStoreDir "" then (None, m)
  else
    let pricingPath := Join gitStoreDir "config" "pricing.json" in
    LoadFromFile fs read_ok (SetPricingFilePath pricingPath m).

End PricingFiles.

Arguments PricingFileData F : clear implicits.

(** ** The quota middleware (package [quota], middleware)

    The two gin handlers, over the part of the gin context they touch: the
    keys of the context, the method, the [Content-Type] header and the body
    of the request, and the status of the response.  A value of the context
    is an [any]; the cases are the dynamic types the handlers test for.
    [c.Next()] is the end of the first handler and the start of the second:
    what the handlers in between do to the context and to the response is
    an argument of the second. *)

Section Middleware.

Context {F : Type} `{Float64 F}.

Definition ContextKeyAPIKey : string := "apiKey".
Definition ContextKeyQuotaResult : string := "quotaResult".
Definition ContextKeyRequestModel : string := "requestModel".

Inductive ContextValue :=
| ValNil
| ValString (s : string)
| ValInt64 (n : Z)
| ValCheckResult (r : CheckResult F)
| ValOther.


(** [req_Body] is what [io.ReadAll] gives: the bytes, or [None] for an
    error. *)
Record Request := {
  req_Method : string;
  req_ContentType : string;
  req_Body : option string
}.

(** [gjson.GetBytes(body, "model").String()]. *)
Variable gjson_model : string -> string.

Definition extractModelFromRequest (req : Request) : string :=
  if negb (String.eqb (req_Method req) "POST") then ""
  else
    let contentType := req_ContentType req in
    if negb (String.eqb contentType "application/json")
       && negb (String.eqb contentType "")
       && ((String.length contentType <? 16)%nat
           || negb (String.eqb (String.substring 0 16 contentType) "application/json"))
    then ""
    else
      match req_Body req with
      | None => ""
      | Some body => gjson_model body
      end.

Definition extractTokenUsageFromContext (c : gmap string ContextValue) : Z * Z * Z :=
  let inputTokens :=
    match c !! "inputTokens" with Some (ValInt64 tokens) => tokens | _ => 0 end in
  let outputTokens :=
    match c !! "outputTokens" with Some (ValInt64 tokens) => tokens | _ => 0 end in
  let cachedTokens :=
    match c !! "cachedTokens" with Some (ValInt64 tokens) => tokens | _ => 0 end in
  (inputTokens, outputTokens, cachedTokens).

(** The JSON body of a denial and its status; the message is left out, as
    in [QuotaError]. *)
Record ErrorResponse := {
  resp_status : Z;
  resp_type : string;
  resp_code : string;
  resp_details : option (ErrorDetails F)
}.

Definition StatusUnauthorized : Z := 401.
Definition StatusForbidden : Z := 403.

Definition respondWithQuotaError (err : option (QuotaError F)) : ErrorResponse :=
  match err with
  | None =>
      {| resp_status := StatusForbidden; resp_type := "quota_exceeded";
         resp_code := "quota_exceeded"; resp_details := None |}
  | Some err =>
      let '(statusCode, errorType) :=
        match Type_ err with
        | QuotaErrorTypeExpired => (StatusUnauthorized, "authentication_error")
        | QuotaErrorTypeModelNotAllowed => (StatusForbidden, "permission_error")
        | QuotaErrorTypeTokenLimitExceeded | QuotaErrorTypeCostLimitExceeded =>
            (StatusForbidden, "quota_exceeded")
        end in
      {| resp_status := statusCode; resp_type := errorType;
         resp_code := Code err; resp_details := Some (Details err) |}
  end.

(** How [Middleware] ends: it hands the request on, or answers it. *)
Inductive Handled :=
| Next (c : gmap string ContextValue)
| Aborted (resp : ErrorResponse) (c : gmap string ContextValue).

Definition Middleware (now : GoTime.Time) (req : Request)
    (c : gmap string ContextValue) (manager : option (Manager F))
  : Handled * option (Manager F) :=
  match manager with
  | None => (Next c, None)
  | Some m =>
      match c !! ContextKeyAPIKey with
      | Some (ValString apiKeyStr) =>
          if String.eqb apiKeyStr "" then (Next c, Some m)
          else
            let model := extractModelFromRequest req in
            let c :=
              if negb (String.eqb model "")
              then <[ContextKeyRequestModel := ValString model]> c else c in
            let '(result, m) := CheckQuota now apiKeyStr model m in
            let c := <[ContextKeyQuotaResult := ValCheckResult result]> c in
            if negb (Allowed result)
            then (Aborted (respondWithQuotaError (Error result)) c, Some m)
            else (Next c, Some m)
      | _ => (Next c, Some m)
      end
  end.

(** [PostRequestMiddleware] after [c.Next()]: [status] is
    [c.Writer.Status()] and [c] the context the handlers have left. *)
Definition PostRequestMiddleware (created used : GoTime.Time) (status : Z)
    (c : gmap string ContextValue) (manager : option (Manager F)) : option (Manager F) :=
  match manager with
  | None => None
  | Some m =>
      if 400 <=? status then Some m
      else
        match c !! ContextKeyAPIKey with
        | Some (ValString apiKeyStr) =>
            if String.eqb apiKeyStr "" then Some m
            else
              let model :=
                match c !! ContextKeyRequestModel with
                | Some (ValString s) => s
                | _ => ""
                end in
              let '(inputTokens, outputTokens, cachedTokens) :=
                extractTokenUsageFromContext c in
              if (0 <? inputTokens) || (0 <? outputTokens) then
                Some (snd (UpdateUsage created used apiKeyStr model
                             inputTokens outputTokens cachedTokens m))
              else Some m
        | _ => Some m
        end
  end.

Definition SetTokenUsage (inputTokens outputTokens cachedTokens : Z)
    (c : gmap string ContextValue) : gmap string ContextValue :=
  <["cachedTokens" := ValInt64 cachedTokens]>
    (<["outputTokens" := ValInt64 outputTokens]>
       (<["inputTokens" := ValInt64 inputTokens]> c)).

Definition GetQuotaResult (c : gmap string ContextValue) : option (CheckResult F) :=
  match c !! ContextKeyQuotaResult with
  | Some (ValCheckResult r) => Some r
  | _ => None
  end.

End Middleware.

Arguments ContextValue F : clear implicits.
Arguments ErrorResponse F : clear implicits.
Arguments Handled F : clear implicits.

(** The keys of a gin context and their values. *)
Abbreviation GinContext F := (gmap string (ContextValue F)).

(** ** Startup (package [quota], pricing and persistence)

    The default catalog is a table of [float64] constants, so it and what
    is built on it are over IEEE-754 numbers.  The pricing singleton is the
    catalog of the manager singleton. *)

Section Startup.

Import IEEE.

Set Warnings "-inexact-float".

Definition DefaultModelPricing : gmap string (ModelPricing float) :=
  let price (input output cached : float) : ModelPricing float :=
    {| InputPricePerMillion := input; OutputPricePerMillion := output;
       CachedInputPricePerMillion := cached |} in
  list_to_map
    [ ("gpt-5", price 1.25 10.0 0.125);
      ("gpt-5-codex", price 1.25 10.0 0.125);
      ("gpt-5-codex-mini", price 0.25 2.0 0.025);
      ("gpt-5.1", price 1.25 10.0 0.125);
      ("gpt-5.1-codex", price 1.25 10.0 0.125);
      ("gpt-5.1-codex-mini", price 0.25 2.0 0.025);
      ("gpt-5.1-codex-max", price 1.25 10.0 0.125);
      ("gpt-5.2", price 1.75 14.0 0.175);
      ("gpt-5.2-codex", price 1.75 14.0 0.175);
      ("gemini-2.5-pro", price 1.25 10.0 0);
      ("gemini-2.5-flash", price 0.15 0.6 0);
      ("gemini-2.5-flash-lite", price 0.075 0.3 0);
      ("gemini-3-pro-preview", price 3.0 15.0 0);
      ("gemini-3-flash-preview", price 0.5 3.0 0);
      ("kiro-claude-sonnet-4", price 3.0 15.0 0.3);
      ("kiro-claude-sonnet-4-agentic", price 3.0 15.0 0.3);
      ("kiro-claude-sonnet-4-5", price 3.0 15.0 0.3);
      ("kiro-claude-sonnet-4-5-agentic", price 3.0 15.0 0.3);
      ("kiro-claude-haiku-4-5", price 0.8 4.0 0.08);
      ("kiro-claude-haiku-4-5-agentic", price 0.8 4.0 0.08);
      ("kiro-claude-opus-4-5", price 5.0 25.0 0.5);
      ("kiro-claude-opus-4-5-agentic", price 5.0 25.0 0.5);
      ("gemini-claude-sonnet-4-5", price 3.0 15.0 0);
      ("gemini-claude-sonnet-4-5-thinking", price 3.0 15.0 0);
      ("gemini-claude-opus-4-5-thinking", price 5.0 25.0 0);
      ("gemini-3-pro-image-preview", price 3.0 15.0 0);
      ("gpt-oss-120b-medium", price 1.0 5.0 0) ]%float.

Definition set_pricing (p : PricingManager float) (m : Manager float) : Manager float :=
  {| policies := policies m; usage := usage m; pricing := p |}.

Definition InitDefaultPricing (w : World float) : World float :=
  set_manager
    (set_pricing (SetDefaultPricing DefaultModelPricing (pricing (manager w)))
                 (manager w))
    w.

(** [Initialize]; [absPath] and [mkdir_ok] are the answers to
    [SetPersistencePath], [read_ok] the one to [LoadUsageFromFile]. *)
Definition Initialize (authDir : string) (absPath : option string)
    (mkdir_ok read_ok : bool) (w : World float) : option string * World float :=
  match SetPersistencePath authDir absPath mkdir_ok w with
  | (Some err, w) => (Some ("failed to set persistence path: " ++ err)%string, w)
  | (None, w) =>
      let w := InitDefaultPricing w in
      let w :=
        match LoadUsageFromFile read_ok w with
        | (Some err, w) => log Warn ("Failed to load quota usage: " ++ err)%string w
        | (None, w) => w
        end in
      let w := StartAutoSave w in
      (None, w)
  end.

End Startup.

(** ** The vocabulary of the specification

    The notions the statements below are phrased in, written after the
    words of the specification and compared with the code in the proofs. *)

Section Vocabulary.

Context {F : Type} `{Float64 F}.

(** Check 1: the current time is past the expiry of the policy. *)
Definition failsExpiration (now : GoTime.Time) (p : APIKeyPolicy F) : bool :=
  IsExpired now (Some p).

(** Check 2: the allow-list is not empty and the model is not a member. *)
Definition failsAllowList (p : APIKeyPolicy F) (model : string) : bool :=
  negb (bool_decide (AllowedModels p = []))
  && negb (bool_decide (model ∈ AllowedModels p)).

(** Check 3: a token limit is set and the row of the ledger has reached it. *)
Definition failsTokenLimit (p : APIKeyPolicy F) (row : option (QuotaUsage F)) : bool :=
  bool_decide (0 < MaxTokens p)
  && match row with
     | Some u => bool_decide (MaxTokens p <= TotalTokens u)
     | None => false
     end.

(** Check 4: a cost limit is set and the row of the ledger has reached it. *)
Definition failsCostLimit (p : APIKeyPolicy F) (row : option (QuotaUsage F)) : bool :=
  (f64_of_int64 0 <? MaxCostUSD p)%f64
  && match row with
     | Some u => (MaxCostUSD p <=? TotalCostUSD u)%f64
     | None => false
     end.

(** The checks in the order of the contract, each with its error kind. *)
Definition checksInOrder (now : GoTime.Time) (model : string) (p : APIKeyPolicy F)
    (row : option (QuotaUsage F)) : list (QuotaErrorType * bool) :=
  [ (QuotaErrorTypeExpired, failsExpiration now p);
    (QuotaErrorTypeModelNotAllowed, failsAllowList p model);
    (QuotaErrorTypeTokenLimitExceeded, failsTokenLimit p row);
    (QuotaErrorTypeCostLimitExceeded, failsCostLimit p row) ].

Fixpoint firstFailing (checks : list (QuotaErrorType * bool)) : option QuotaErrorType :=
  match checks with
  | [] => None
  | (kind, fails) :: rest => if fails then Some kind else firstFailing rest
  end.

(** The error kind of a result, if it carries an error. *)
Definition errorKind (r : CheckResult F) : option QuotaErrorType :=
  Type_ <$> Error r.

(** The result of [CheckQuota] as a function of the policy and the row of
    the key. *)
Definition decision (now : GoTime.Time) (model : string) (policy : option (APIKeyPolicy F))
    (row : option (QuotaUsage F)) : CheckResult F :=
  match policy with
  | None => NewAllowedResult None row
  | Some p =>
      if failsExpiration now p then
        NewDeniedResult (NewExpiredError (ParsedExpiresAt policy)) policy row
      else if failsAllowList p model then
        NewDeniedResult (NewModelNotAllowedError model (AllowedModels p)) policy row
      else if failsTokenLimit p row then
        NewDeniedResult
          (NewTokenLimitExceededError (from_option TotalTokens 0 row) (MaxTokens p))
          policy row
      else if failsCostLimit p row then
        NewDeniedResult
          (NewCostLimitExceededError
             (from_option TotalCostUSD (f64_of_int64 0) row) (MaxCostUSD p))
          policy row
      else NewAllowedResult policy row
  end.

(** The price charged for cached tokens. *)
Definition effectiveCachedPrice (pricing : ModelPricing F) : F :=
  if (CachedInputPricePerMillion pricing =? f64_of_int64 0)%f64
  then InputPricePerMillion pricing
  else CachedInputPricePerMillion pricing.

(** The cost as the code computes it: each product is divided by
    1,000,000 and the three quotients are added. *)
Definition costTermByTerm (pricing : ModelPricing F) (input output cached : Z) : F :=
  (f64_of_int64 input * InputPricePerMillion pricing / f64_of_int64 1000000
   + f64_of_int64 cached * effectiveCachedPrice pricing / f64_of_int64 1000000
   + f64_of_int64 output * OutputPricePerMillion pricing / f64_of_int64 1000000)%f64.

(** The cost as the specification writes it: the three products are added
    and the sum is divided by 1,000,000 once. *)
Definition costDividedOnce (pricing : ModelPricing F) (input output cached : Z) : F :=
  ((f64_of_int64 input * InputPricePerMillion pricing
    + f64_of_int64 cached * effectiveCachedPrice pricing
    + f64_of_int64 output * OutputPricePerMillion pricing)
   / f64_of_int64 1000000)%f64.

(** The counters of the row of a key; a key without a row has used nothing. *)
Definition rowTokens (m : Manager F) (apiKey : string) : Z :=
  from_option TotalTokens 0 (usage m !! apiKey).
Definition rowRequests (m : Manager F) (apiKey : string) : Z :=
  from_option TotalRequests 0 (usage m !! apiKey).
Definition rowCost (m : Manager F) (apiKey : string) : F :=
  from_option TotalCostUSD (f64_of_int64 0) (usage m !! apiKey).

(** The row [UpdateUsage] starts from: the row of the key, or a new one. *)
Definition priorRow (m : Manager F) (created : GoTime.Time) (apiKey : string)
  : QuotaUsage F :=
  default (newUsage apiKey created) (usage m !! apiKey).

(** The calls that may give a key its first row, and those that may take
    the row of a key away. *)
Definition mayCreateRow (c : Call F) (apiKey : string) : bool :=
  match c with
  | CallUpdateUsage _ _ k _ _ _ _ | CallSetUsage k _ | CallGetUsage _ k =>
      bool_decide (k = apiKey)
  | _ => false
  end.

Definition mayRemoveRow (c : Call F) (apiKey : string) : bool :=
  match c with
  | CallResetUsage k => bool_decide (k = apiKey)
  | CallResetAllUsage => true
  | _ => false
  end.

(** The calls that leave every row of the ledger as it is. *)
Definition keepsRows (c : Call F) : bool :=
  match c with
  | CallUpdateUsage _ _ _ _ _ _ _ | CallSetUsage _ _ | CallGetUsage _ _
  | CallResetUsage _ | CallResetAllUsage => false
  | _ => true
  end.

(** A computation that leaves the manager as it found it. *)
Definition readOnly {A} (c : M F A) : Prop := forall m, snd (c m) = m.

(** While autosave runs, [stopAutoSave] is an open channel: the invariant
    that keeps [close] in [StopAutoSave] from a panic. *)
Definition channelInvariant (w : World F) : Prop :=
  autoSaveRunning w = true ->
  exists i, stopAutoSave w = Some i /\ channels w !! i = Some false.

(** The events of the life of the controller: a call of [StartAutoSave], a
    call of [StopAutoSave], a firing of the ticker. *)
Inductive Event :=
| EvStart
| EvStop (now : GoTime.Time) (io : SaveIO)
| EvTick (now : GoTime.Time) (io : SaveIO).

Definition handle (ev : Event) (w : World F) : Outcome F :=
  match ev with
  | EvStart => Returned (StartAutoSave w)
  | EvStop now io => StopAutoSave now io w
  | EvTick now io => Returned (autoSaveTick now io w)
  end.

(** The states a process reaches from its start as long as no call panics. *)
Inductive reachable (p : PricingManager F) : World F -> Prop :=
| reachable_init : reachable p (initialWorld p)
| reachable_step w ev w' :
    reachable p w -> handle ev w = Returned w' -> reachable p w'.

(** A price is a finite number that is not negative. *)
Definition priceOk `{!Float64Laws F} (x : F) : bool :=
  f64_finite x && (f64_of_int64 0 <=? x)%f64.

Definition pricingOk `{!Float64Laws F} (pricing : ModelPricing F) : bool :=
  priceOk (InputPricePerMillion pricing)
  && priceOk (OutputPricePerMillion pricing)
  && priceOk (CachedInputPricePerMillion pricing).

End Vocabulary.

(** ** Further vocabulary: rows, files and the lifecycle *)

Section MoreVocabulary.

Context {F : Type} `{Float64 F}.

(** Every row of the ledger bears the key it is stored under. *)
Definition rowKeysOk (m : Manager F) : Prop :=
  map_Forall (fun apiKey u => APIKey u = apiKey) (usage m).

(** The table a pricing file holds for the loader, if the loader gets to
    read one. *)
Definition loadedPricing (fs : gmap string (PricingFileData F)) (read_ok : bool)
    (m : PricingManager F) : option (gmap string (ModelPricing F)) :=
  if String.eqb (filePath m) "" then None
  else
    match fs !! filePath m with
    | Some (PricingTable t) => if read_ok then Some t else None
    | _ => None
    end.

(** The rows a snapshot file holds for [LoadUsageFromFile], if it gets to
    read them. *)
Definition loadedUsage (read_ok : bool) (w : World F)
  : option (gmap string (QuotaUsage F)) :=
  if String.eqb (persistencePath w) "" then None
  else
    match files w !! persistencePath w with
    | Some (Snapshot d) => if read_ok then Some (pd_Usage d) else None
    | _ => None
    end.

End MoreVocabulary.

Section Lifecycle.

Context {F : Type} `{Float64 F}.

(** The state of a process that has not called the controller yet, with
    any manager and any files on the disk. *)
Definition startWorld (m : Manager F) (fs : gmap string (FileData F)) : World F :=
  {| manager := m; persistencePath := "";
     stopAutoSave := None; autoSaveRunning := false;
     channels := []; goroutines := 0; files := fs; logged := [] |}.

(** What a process does with the controller and the manager: the calls of
    the controller, a firing of the ticker, and any work on the manager. *)
Inductive Action :=
| ActStartAutoSave
| ActStopAutoSave (now : GoTime.Time) (io : SaveIO)
| ActTick (now : GoTime.Time) (io : SaveIO)
| ActSetPersistencePath (authDir : string) (absPath : option string) (mkdir_ok : bool)
| ActLoadUsageFromFile (read_ok : bool)
| ActManager (work : Manager F -> Manager F).

Definition perform (a : Action) (w : World F) : Outcome F :=
  match a with
  | ActStartAutoSave => Returned (StartAutoSave w)
  | ActStopAutoSave now io => StopAutoSave now io w
  | ActTick now io => Returned (autoSaveTick now io w)
  | ActSetPersistencePath authDir absPath mkdir_ok =>
      Returned (snd (SetPersistencePath authDir absPath mkdir_ok w))
  | ActLoadUsageFromFile read_ok => Returned (snd (LoadUsageFromFile read_ok w))
  | ActManager work => Returned (set_manager (work (manager w)) w)
  end.

(** A run of actions, up to the first panic. *)
Fixpoint performAll (actions : list Action) (w : World F) : Outcome F :=
  match actions with
  | [] => Returned w
  | a :: rest =>
      match perform a w with
      | Returned w' => performAll rest w'
      | Panicked reason => Panicked reason
      end
  end.

(** The invariant of the controller: a goroutine was started for every
    channel made, and a channel that is still open is the one in
    [stopAutoSave], while autosave runs; while it runs, that channel is
    open. *)
Definition controllerInvariant (w : World F) : Prop :=
  goroutines w = length (channels w)
  /\ (forall i, channels w !! i = Some false ->
        autoSaveRunning w = true /\ stopAutoSave w = Some i)
  /\ channelInvariant w.

End Lifecycle.

Arguments Action F : clear implicits.

(** ** Binary64 numbers and their rounding

    The notions in which the order laws of IEEE-754 addition are proved from
    the specification of the primitive floats. *)

Abbreviation fexp64 := (SpecFloat.fexp prec emax).


(** the sign of a float that is not NaN *)
Definition hasSign (s : bool) (r : spec_float) : Prop :=
  match r with
  | S754_zero s' | S754_infinity s' | S754_finite s' _ _ => s' = s
  | S754_nan => False
  end.

Definition nonnegSF (x : spec_float) : Prop :=
  match x with
  | S754_zero _ | S754_infinity false | S754_finite false _ _ => True
  | _ => False
  end.

Definition finiteSF (x : spec_float) : Prop :=
  match x with
  | S754_zero _ | S754_finite _ _ _ => True
  | _ => False
  end.


(** a mantissa and an exponent in normal form *)
Definition normalized (m : positive) (e : Z) : Prop :=
  -1074 <= e /\ Zpos m < 2 ^ 53 /\ (-1074 < e -> 2 ^ 52 <= Zpos m).

(** the result of rounding, from the rounded mantissa [m2] at exponent [t] *)
Definition rounded (s : bool) (m2 t : Z) : spec_float :=
  if m2 <? 2 ^ 53 then
    if t <=? 971 then S754_finite s (Z.to_pos m2) t else S754_infinity s
  else
    if t + 1 <=? 971 then S754_finite s (Z.to_pos (2 ^ 52)) (t + 1)
    else S754_infinity s.

(** what rounding does to a positive integer [m] at an exponent [e] *)
Definition roundsTo (m : positive) (e : Z) (m2 t : Z) : Prop :=
  let V := Zpos m * 2 ^ (e + 1074) in
  let G := 2 ^ (t + 1074) in
  -1074 <= t
  /\ V / G <= m2 <= V / G + 1
  /\ (V mod G = 0 -> m2 = V / G)
  /\ 1 <= V / G < 2 ^ 53
  /\ (-1074 < t -> 2 ^ 52 <= V / G).


(** ** Sample data

    The managers, policies and clocks of the examples below, after the
    tests of the package, over IEEE-754 numbers. *)

Module Sample.

Import IEEE.

(** The catalog of [TestPricingManager_CalculateCost]. *)
Definition testPricing : PricingManager float :=
  {| pricing_table :=
       <["gpt-4o" := {| InputPricePerMillion := 2.5%float;
                        OutputPricePerMillion := 10%float;
                        CachedInputPricePerMillion := 0%float |}]>
         (<["claude-3-5-sonnet" :=
              {| InputPricePerMillion := 3%float;
                 OutputPricePerMillion := 15%float;
                 CachedInputPricePerMillion := 0x1.3333333333333p-2%float |}]> ∅);
     filePath := "" |}.

Definition policyOf (allowed : list string) (maxTokens : Z) (maxCost : float)
    (expiresAt : string) : APIKeyPolicy float :=
  {| Name := ""; AllowedModels := allowed; MaxTokens := maxTokens;
     MaxCostUSD := maxCost; ExpiresAt := expiresAt |}.

Definition rowOf (apiKey : string) (tokens : Z) (cost : float) : QuotaUsage float :=
  {| APIKey := apiKey; TotalTokens := tokens; TotalCostUSD := cost;
     TotalRequests := 0; LastUsedAt := GoTime.zeroTime;
     CreatedAt := GoTime.zeroTime |}.

(** 2026-11-01 20:00:00 on the clock of a process eight hours west of UTC,
    which is 2026-11-02 04:00:00 UTC. *)
Definition evening : GoTime.Time :=
  GoTime.mkTime (1793592000 * GoTime.Second) (-28800).

(** 2026-11-01 09:00:00 on the same clock. *)
Definition morning : GoTime.Time :=
  GoTime.mkTime (1793552400 * GoTime.Second) (-28800).

(** 2026-11-01 23:59:59.5 on the clock of a process in UTC. *)
Definition lastSecond : GoTime.Time :=
  GoTime.mkTime (1793577599 * GoTime.Second + 500000000) 0.

(** A key limited to 1000 tokens and to two models, with 1500 tokens used. *)
Definition overTokens : Manager float :=
  {| policies :=
       {[ "key-over-tokens" := policyOf ["gpt-4o"; "claude-3-5-sonnet"] 1000 0 "" ]};
     usage := {[ "key-over-tokens" := rowOf "key-over-tokens" 1500 0 ]};
     pricing := testPricing |}.

(** A key limited to 1000 tokens and 10 USD that has not been used yet. *)
Definition unusedKey : Manager float :=
  {| policies := {[ "key-valid" := policyOf [] 1000 10 "" ]};
     usage := ∅;
     pricing := testPricing |}.

(** A key limited to 1000 tokens and 10 USD with 400 tokens and 2.5 USD used. *)
Definition usedKey : Manager float :=
  {| policies := {[ "key-valid" := policyOf [] 1000 10 "" ]};
     usage := {[ "key-valid" := rowOf "key-valid" 400 2.5 ]};
     pricing := testPricing |}.

(** A ledger with one token short of the largest [int64]. *)
Definition nearOverflow : Manager float :=
  {| policies := ∅;
     usage := {[ "k" := rowOf "k" (Int64.max - 1) 0 ]};
     pricing := testPricing |}.

(** The manager of [TestManager_UpdateUsage]. *)
Definition fresh : Manager float := NewManager testPricing.

Definition ioOk : SaveIO := {| marshal_ok := true; write_ok := true; rename_ok := true |}.

(** A key whose policy expired on 2025-11-01. *)
Definition expiredKey : Manager float :=
  {| policies := {[ "key-expired" := Sample.policyOf [] 0 0 "2025-11-01" ]};
     usage := ∅;
     pricing := Sample.testPricing |}.

(** A key whose policy has a name and no restriction, with a large row. *)
Definition unrestrictedKey : Manager float :=
  {| policies :=
       {[ "key-free" :=
            {| Name := "free"; AllowedModels := []; MaxTokens := 0;
               MaxCostUSD := 0%float; ExpiresAt := "" |} ]};
     usage := {[ "key-free" := Sample.rowOf "key-free" 1000000000 1000 ]};
     pricing := Sample.testPricing |}.

(** A process whose autosave runs, with a snapshot path and no file yet. *)
Definition running : World float :=
  {| manager := Sample.usedKey;
     persistencePath := "/auth/quota_usage.json";
     stopAutoSave := Some 0%nat; autoSaveRunning := true;
     channels := [false]; goroutines := 1; files := ∅; logged := [] |}.

(** The context that the authentication leaves for a key, and two
    requests: a chat completion and a listing. *)
Definition contextOf (apiKey : string) : GinContext float :=
  {[ ContextKeyAPIKey := ValString apiKey ]}.

Definition chatRequest : Request :=
  {| req_Method := "POST"; req_ContentType := "application/json; charset=utf-8";
     req_Body := Some "a body whose model is gpt-4o" |}.

Definition listRequest : Request :=
  {| req_Method := "GET"; req_ContentType := ""; req_Body := Some "" |}.

(** A reader of bodies for the examples: every body asks for [gpt-4o]. *)
Definition gpt4oBody (body : string) : string := "gpt-4o".

End Sample.

Arguments readOnly F {A} c.

(** * Properties *)

(** ** Machine integers *)

Lemma Int64_wrap_in_range z : Int64.in_range z -> Int64.wrap z = z.
Proof.
  unfold Int64.in_range, Int64.wrap, Int64.min, Int64.max. intros Hz.
  rewrite Z.mod_small by lia. lia.
Qed.

Lemma Int64_wrap_range z : Int64.in_range (Int64.wrap z).
Proof.
  unfold Int64.in_range, Int64.wrap, Int64.min, Int64.max.
  pose proof (Z.mod_pos_bound (z - - 2 ^ 63) (2 ^ 64) ltac:(lia)). lia.
Qed.

Lemma Int64_add_exact a b : Int64.in_range (a + b) -> Int64.add a b = a + b.
Proof. apply Int64_wrap_in_range. Qed.

Lemma Int64_sub_exact a b : Int64.in_range (a - b) -> Int64.sub a b = a - b.
Proof. apply Int64_wrap_in_range. Qed.

(** ** The state monad: reads *)

Section Reads.

Context {F : Type} `{Float64 F}.

Lemma readOnly_ret {A} (a : A) : readOnly F (ret a).
Proof. intros m. reflexivity. Qed.

Lemma readOnly_gets {A} (f : Manager F -> A) : readOnly F (gets f).
Proof. intros m. reflexivity. Qed.

Lemma readOnly_bind {A B} (c : M F A) (k : A -> M F B) :
  readOnly F c -> (forall a, readOnly F (k a)) -> readOnly F (bind c k).
Proof.
  intros Hc Hk m. unfold bind.
  specialize (Hc m). destruct (c m) as [a m'] eqn:E. simpl in Hc. subst m'.
  apply Hk.
Qed.

Lemma GetPolicy_readOnly k : readOnly F (GetPolicy k).
Proof. apply readOnly_gets. Qed.

Lemma GetUsageReadOnly_readOnly k : readOnly F (GetUsageReadOnly k).
Proof. apply readOnly_gets. Qed.

Lemma CheckQuota_readOnly now k model : readOnly F (CheckQuota now k model).
Proof.
  unfold CheckQuota.
  apply readOnly_bind; [apply GetPolicy_readOnly | intros policy].
  apply readOnly_bind; [apply GetUsageReadOnly_readOnly | intros row].
  destruct policy as [p|]; [| apply readOnly_ret].
  destruct (IsExpired now (Some p)); [apply readOnly_ret |].
  destruct (negb (IsModelAllowed (Some p) model)); apply readOnly_ret.
Qed.

Lemma GetQuotaStatus_readOnly now k : readOnly F (GetQuotaStatus now k).
Proof.
  unfold GetQuotaStatus.
  apply readOnly_bind; [apply GetPolicy_readOnly | intros policy].
  apply readOnly_bind; [apply GetUsageReadOnly_readOnly | intros row].
  apply readOnly_ret.
Qed.

End Reads.

(** ** The decision engine *)

Section Decision.

Context {F : Type} `{Float64 F}.

Implicit Types (m : Manager F) (p : APIKeyPolicy F) (u : QuotaUsage F).

(** C10.  [CheckQuota] only reads: for every key and model the manager
    after the call is the manager before it, so the policy map and the
    ledger are unchanged and the row of the key, present or absent, is as
    it was. *)
Theorem CheckQuota_is_pure_read now apiKey model m :
  let m' := snd (CheckQuota now apiKey model m) in
  m' = m
  /\ policies m' = policies m
  /\ usage m' = usage m
  /\ usage m' !! apiKey = usage m !! apiKey.
Proof.
  intros m'. assert (E : m' = m) by apply CheckQuota_readOnly.
  rewrite E. auto.
Qed.

(** By contrast [GetUsage], which [CheckQuota] does not call, gives a key
    without a row its first one. *)
Lemma GetUsage_creates_row now apiKey m :
  usage m !! apiKey = None ->
  usage (snd (GetUsage now apiKey m)) !! apiKey = Some (newUsage apiKey now).
Proof.
  intros E. unfold GetUsage. rewrite E. simpl. apply lookup_insert_eq.
Qed.

(** The fields of an allowed result. *)
Lemma NewAllowedResult_Allowed policy row :
  Allowed (NewAllowedResult (F := F) policy row) = true.
Proof.
  unfold NewAllowedResult. destruct policy, row; try reflexivity.
  destruct (HasTokenLimit _), (HasCostLimit _); reflexivity.
Qed.

Lemma NewAllowedResult_Error policy row :
  Error (NewAllowedResult (F := F) policy row) = None.
Proof.
  unfold NewAllowedResult. destruct policy, row; try reflexivity.
  destruct (HasTokenLimit _), (HasCostLimit _); reflexivity.
Qed.

Lemma NewAllowedResult_RemainingTokens policy row :
  RemainingTokens (NewAllowedResult (F := F) policy row)
  = match policy, row with
    | Some p, Some u =>
        if HasTokenLimit policy
        then Some (Int64.sub (MaxTokens p) (TotalTokens u)) else None
    | _, _ => None
    end.
Proof.
  unfold NewAllowedResult. destruct policy, row; try reflexivity.
  destruct (HasTokenLimit _), (HasCostLimit _); reflexivity.
Qed.

Lemma NewAllowedResult_RemainingCostUSD policy row :
  RemainingCostUSD (NewAllowedResult (F := F) policy row)
  = match policy, row with
    | Some p, Some u =>
        if HasCostLimit policy
        then Some (MaxCostUSD p - TotalCostUSD u)%f64 else None
    | _, _ => None
    end.
Proof.
  unfold NewAllowedResult. destruct policy, row; try reflexivity.
  destruct (HasTokenLimit _), (HasCostLimit _); reflexivity.
Qed.

(** The loop over the allow-list finds the members of the list. *)
Lemma containsModel_elem_of (l : list string) model :
  containsModel l model = bool_decide (model ∈ l).
Proof.
  induction l as [|a l IH].
  - symmetry. apply bool_decide_eq_false_2. apply not_elem_of_nil.
  - cbn [containsModel]. destruct (String.eqb_spec a model) as [->|Hne].
    + symmetry. apply bool_decide_eq_true_2. rewrite elem_of_cons. auto.
    + rewrite IH. apply bool_decide_ext. rewrite elem_of_cons. intuition congruence.
Qed.

Lemma IsModelAllowed_spec p model :
  negb (IsModelAllowed (Some p) model) = failsAllowList p model.
Proof.
  unfold IsModelAllowed, failsAllowList, HasModelRestriction.
  destruct (AllowedModels p) as [|a l] eqn:E.
  - reflexivity.
  - replace (0 <? Z.of_nat (length (a :: l))) with true
      by (symmetry; apply Z.ltb_lt; simpl; lia).
    rewrite containsModel_elem_of. reflexivity.
Qed.

Lemma token_check_spec p (row : option (QuotaUsage F)) :
  match HasTokenLimit (Some p), row with
  | true, Some u => TotalTokens u >=? MaxTokens p
  | _, _ => false
  end = failsTokenLimit p row.
Proof.
  unfold failsTokenLimit, HasTokenLimit.
  destruct (Z.ltb_spec 0 (MaxTokens p)) as [Hlt|Hge].
  - rewrite bool_decide_eq_true_2 by assumption. destruct row as [u|]; [|reflexivity].
    simpl. rewrite Z.geb_leb.
    destruct (Z.leb_spec (MaxTokens p) (TotalTokens u)).
    + rewrite bool_decide_eq_true_2; auto.
    + rewrite bool_decide_eq_false_2; auto; lia.
  - rewrite bool_decide_eq_false_2 by lia. reflexivity.
Qed.

Lemma cost_check_spec p (row : option (QuotaUsage F)) :
  match HasCostLimit (Some p), row with
  | true, Some u => (MaxCostUSD p <=? TotalCostUSD u)%f64
  | _, _ => false
  end = failsCostLimit p row.
Proof.
  unfold failsCostLimit, HasCostLimit.
  destruct (f64_of_int64 0 <? MaxCostUSD p)%f64; destruct row; reflexivity.
Qed.

Lemma CheckQuota_decision now apiKey model m :
  fst (CheckQuota now apiKey model m)
  = decision now model (policies m !! apiKey) (usage m !! apiKey).
Proof.
  unfold CheckQuota, bind, GetPolicy, GetUsageReadOnly, gets, decision.
  cbv beta iota zeta.
  destruct (policies m !! apiKey) as [p|]; [| reflexivity].
  unfold failsExpiration.
  destruct (IsExpired now (Some p)); [reflexivity |].
  rewrite <- IsModelAllowed_spec.
  destruct (negb (IsModelAllowed (Some p) model)); [reflexivity |].
  rewrite <- token_check_spec, <- cost_check_spec.
  destruct (HasTokenLimit (Some p)), (HasCostLimit (Some p)),
    (usage m !! apiKey) as [u|]; cbn [from_option fst ret];
    repeat match goal with
           | |- context [if ?b then _ else _] => destruct b
           end; reflexivity.
Qed.

(** C1.  [CheckQuota] evaluates its checks in a fixed order and stops at
    the first that fails.  Without a policy for the key the result is the
    allowed one.  With a policy, the result is the denial of the first
    failing check in the order expiration, allow-list (which fails only for
    a non-empty list), token limit, cost limit, and carries the error type
    and code of that check; when no check fails, the result is the allowed
    one. *)
Theorem CheckQuota_checks_in_order now apiKey model m :
  let r := fst (CheckQuota now apiKey model m) in
  let row := usage m !! apiKey in
  match policies m !! apiKey with
  | None =>
      r = NewAllowedResult None row /\ Allowed r = true /\ Error r = None
      /\ RemainingTokens r = None /\ RemainingCostUSD r = None
  | Some p =>
      match firstFailing (checksInOrder now model p row) with
      | Some kind =>
          Allowed r = false
          /\ errorKind r = Some kind
          /\ Code <$> Error r = Some (QuotaErrorType_string kind)
      | None =>
          r = NewAllowedResult (Some p) row /\ Allowed r = true /\ Error r = None
      end
  end.
Proof.
  intros r row. subst r row. rewrite CheckQuota_decision.
  unfold decision, checksInOrder, firstFailing, errorKind.
  destruct (policies m !! apiKey) as [p|].
  - destruct (failsExpiration now p); [cbn; auto |].
    destruct (failsAllowList p model); [cbn; auto |].
    destruct (failsTokenLimit p (usage m !! apiKey)); [cbn; auto |].
    destruct (failsCostLimit p (usage m !! apiKey)); [cbn; auto |].
    rewrite NewAllowedResult_Allowed, NewAllowedResult_Error. auto.
  - rewrite NewAllowedResult_Allowed, NewAllowedResult_Error,
      NewAllowedResult_RemainingTokens, NewAllowedResult_RemainingCostUSD.
    auto 6.
Qed.

End Decision.

(** ** Limits and margins *)

Section Limits.

Context {F : Type} `{Float64 F}.

Implicit Types (m : Manager F) (p : APIKeyPolicy F) (u : QuotaUsage F).

(** C2, as amended.  For a policy with [maxTokens = L > 0], whenever the
    row of the key holds [totalTokens >= L], [CheckQuota] denies with the
    kind [token_limit_exceeded] for every model that passes the two checks
    that come first: the policy has not expired and the model is allowed by
    the policy.  The verdict depends on the manager through the policy and
    the row only, so it stands until the row is reset or replaced. *)
Theorem token_limit_denies_once_reached now apiKey model m p u :
  policies m !! apiKey = Some p ->
  0 < MaxTokens p ->
  usage m !! apiKey = Some u ->
  MaxTokens p <= TotalTokens u ->
  IsExpired now (Some p) = false ->
  IsModelAllowed (Some p) model = true ->
  let r := fst (CheckQuota now apiKey model m) in
  Allowed r = false
  /\ errorKind r = Some QuotaErrorTypeTokenLimitExceeded
  /\ Error r = Some (NewTokenLimitExceededError (TotalTokens u) (MaxTokens p)).
Proof.
  intros Hp HL Hu Hge Hexp Hmodel r. subst r.
  rewrite CheckQuota_decision, Hp, Hu. unfold decision, failsExpiration.
  rewrite Hexp, <- IsModelAllowed_spec, Hmodel. cbn [negb].
  unfold failsTokenLimit.
  rewrite !bool_decide_eq_true_2 by assumption. cbn. auto.
Qed.

(** The first two checks win over the token limit. *)
Lemma expiry_precedes_token_limit now apiKey model m p :
  policies m !! apiKey = Some p ->
  IsExpired now (Some p) = true ->
  errorKind (fst (CheckQuota now apiKey model m)) = Some QuotaErrorTypeExpired.
Proof.
  intros Hp Hexp. rewrite CheckQuota_decision, Hp.
  unfold decision, failsExpiration. rewrite Hexp. reflexivity.
Qed.

Lemma allow_list_precedes_token_limit now apiKey model m p :
  policies m !! apiKey = Some p ->
  IsExpired now (Some p) = false ->
  IsModelAllowed (Some p) model = false ->
  errorKind (fst (CheckQuota now apiKey model m))
  = Some QuotaErrorTypeModelNotAllowed.
Proof.
  intros Hp Hexp Hmodel. rewrite CheckQuota_decision, Hp.
  unfold decision, failsExpiration.
  rewrite Hexp, <- IsModelAllowed_spec, Hmodel. reflexivity.
Qed.

(** An allowed result under a policy is the result of passing all checks. *)
Lemma allowed_decision now model p (row : option (QuotaUsage F)) :
  Allowed (decision now model (Some p) row) = true ->
  decision now model (Some p) row = NewAllowedResult (Some p) row
  /\ failsExpiration now p = false
  /\ failsAllowList p model = false
  /\ failsTokenLimit p row = false
  /\ failsCostLimit p row = false.
Proof.
  unfold decision.
  destruct (failsExpiration now p); [discriminate |].
  destruct (failsAllowList p model); [discriminate |].
  destruct (failsTokenLimit p row); [discriminate |].
  destruct (failsCostLimit p row); [discriminate |].
  auto.
Qed.

(** C3, as amended.  An allowed result under a policy carries the margins
    [limit - used] of the limits that are set when the key has a row in the
    ledger: the token margin exactly when a token limit is set, the cost
    margin exactly when a cost limit is set.  When the key has no row the
    result carries no margin, whatever the limits. *)
Theorem allowed_result_margins now apiKey model m p :
  policies m !! apiKey = Some p ->
  let r := fst (CheckQuota now apiKey model m) in
  Allowed r = true ->
  match usage m !! apiKey with
  | Some u =>
      RemainingTokens r
      = (if 0 <? MaxTokens p
         then Some (Int64.sub (MaxTokens p) (TotalTokens u)) else None)
      /\ RemainingCostUSD r
         = (if (f64_of_int64 0 <? MaxCostUSD p)%f64
            then Some (MaxCostUSD p - TotalCostUSD u)%f64 else None)
  | None => RemainingTokens r = None /\ RemainingCostUSD r = None
  end.
Proof.
  intros Hp r. subst r. rewrite CheckQuota_decision, Hp.
  intros Hallowed. apply allowed_decision in Hallowed as [-> _].
  rewrite NewAllowedResult_RemainingTokens, NewAllowedResult_RemainingCostUSD.
  destruct (usage m !! apiKey) as [u|]; auto.
Qed.

(** In an allowed result the token margin is the difference of the
    mathematical integers, and positive, when the row has not used a
    negative number of tokens. *)
Lemma token_margin_exact now apiKey model m p u :
  policies m !! apiKey = Some p ->
  usage m !! apiKey = Some u ->
  0 < MaxTokens p <= Int64.max ->
  0 <= TotalTokens u ->
  Allowed (fst (CheckQuota now apiKey model m)) = true ->
  RemainingTokens (fst (CheckQuota now apiKey model m))
  = Some (MaxTokens p - TotalTokens u)
  /\ 0 < MaxTokens p - TotalTokens u.
Proof.
  intros Hp Hu HL Hused. rewrite CheckQuota_decision, Hp, Hu.
  intros Hallowed. apply allowed_decision in Hallowed as (-> & _ & _ & Htok & _).
  rewrite NewAllowedResult_RemainingTokens. unfold HasTokenLimit.
  unfold failsTokenLimit in Htok.
  rewrite bool_decide_eq_true_2 in Htok by lia. cbn [andb] in Htok.
  apply bool_decide_eq_false_1 in Htok.
  replace (0 <? MaxTokens p) with true by (symmetry; apply Z.ltb_lt; lia).
  rewrite Int64_sub_exact; [split; [reflexivity | lia] |].
  unfold Int64.in_range, Int64.min, Int64.max in *. lia.
Qed.

End Limits.

(** ** The pricing catalog *)

Section Cost.

Context {F : Type} `{Float64 F}.

Lemma CalculateCost_known (pm : PricingManager F) model input output cached pricing :
  GetPricing pm model = Some pricing ->
  CalculateCost pm model input output cached
  = (f64_of_int64 input * InputPricePerMillion pricing / f64_of_int64 1000000
     + f64_of_int64 cached * effectiveCachedPrice pricing / f64_of_int64 1000000
     + f64_of_int64 output * OutputPricePerMillion pricing / f64_of_int64 1000000)%f64.
Proof.
  intros E. unfold CalculateCost, effectiveCachedPrice. rewrite E. reflexivity.
Qed.

Lemma CalculateCost_unknown (pm : PricingManager F) model input output cached :
  GetPricing pm model = None ->
  CalculateCost pm model input output cached = f64_of_int64 0.
Proof. intros E. unfold CalculateCost. rewrite E. reflexivity. Qed.

Lemma effectiveCachedPrice_fallback (pricing : ModelPricing F) :
  (CachedInputPricePerMillion pricing =? f64_of_int64 0)%f64 = true ->
  effectiveCachedPrice pricing = InputPricePerMillion pricing.
Proof. unfold effectiveCachedPrice. intros ->. reflexivity. Qed.

Lemma effectiveCachedPrice_explicit (pricing : ModelPricing F) :
  (CachedInputPricePerMillion pricing =? f64_of_int64 0)%f64 = false ->
  effectiveCachedPrice pricing = CachedInputPricePerMillion pricing.
Proof. unfold effectiveCachedPrice. intros ->. reflexivity. Qed.

End Cost.

(** ** The ledger *)

Section Ledger.

Context {F : Type} `{Float64 F}.

Implicit Types (m : Manager F) (u : QuotaUsage F).

Lemma UpdateUsage_row m created used apiKey model i o c :
  usage (snd (UpdateUsage created used apiKey model i o c m)) !! apiKey
  = Some {| APIKey := APIKey (priorRow m created apiKey);
            TotalTokens :=
              Int64.add (TotalTokens (priorRow m created apiKey)) (Int64.add i o);
            TotalCostUSD :=
              (TotalCostUSD (priorRow m created apiKey)
               + CalculateCost (pricing m) model i o c)%f64;
            TotalRequests := Int64.add (TotalRequests (priorRow m created apiKey)) 1;
            LastUsedAt := used;
            CreatedAt := CreatedAt (priorRow m created apiKey) |}.
Proof.
  unfold UpdateUsage, priorRow.
  destruct (usage m !! apiKey) as [u|]; cbn; rewrite lookup_insert_eq; reflexivity.
Qed.

Lemma UpdateUsage_other m created used apiKey model i o c k :
  k <> apiKey ->
  usage (snd (UpdateUsage created used apiKey model i o c m)) !! k = usage m !! k.
Proof.
  intros Hne. unfold UpdateUsage.
  destruct (usage m !! apiKey) as [u|]; cbn;
    rewrite !lookup_insert_ne by congruence; reflexivity.
Qed.

Lemma UpdateUsage_frame m created used apiKey model i o c :
  policies (snd (UpdateUsage created used apiKey model i o c m)) = policies m
  /\ pricing (snd (UpdateUsage created used apiKey model i o c m)) = pricing m.
Proof.
  unfold UpdateUsage. destruct (usage m !! apiKey) as [u|]; cbn; auto.
Qed.

(** The counters after one update, in the arithmetic of [int64]. *)
Lemma UpdateUsage_counters m created used apiKey model i o c :
  let m' := snd (UpdateUsage created used apiKey model i o c m) in
  rowTokens m' apiKey = Int64.add (rowTokens m apiKey) (Int64.add i o)
  /\ rowRequests m' apiKey = Int64.add (rowRequests m apiKey) 1
  /\ rowCost m' apiKey
     = (rowCost m apiKey + CalculateCost (pricing m) model i o c)%f64.
Proof.
  intros m'. subst m'. unfold rowTokens, rowRequests, rowCost.
  rewrite UpdateUsage_row. unfold priorRow.
  destruct (usage m !! apiKey) as [u|]; cbn; auto.
Qed.

Lemma UpdateUsage_counters_exact m created used apiKey model i o c :
  Int64.in_range (i + o) ->
  Int64.in_range (rowTokens m apiKey + (i + o)) ->
  Int64.in_range (rowRequests m apiKey + 1) ->
  let m' := snd (UpdateUsage created used apiKey model i o c m) in
  rowTokens m' apiKey = rowTokens m apiKey + (i + o)
  /\ rowRequests m' apiKey = rowRequests m apiKey + 1.
Proof.
  intros Hio Ht Hr m'.
  destruct (UpdateUsage_counters m created used apiKey model i o c) as (Et & Er & _).
  fold m' in Et, Er. rewrite Et, Er.
  rewrite (Int64_add_exact i o) by assumption.
  rewrite !Int64_add_exact by assumption. auto.
Qed.

(** The token total after an update does not depend on the cached tokens. *)
Lemma UpdateUsage_tokens_ignore_cached m created used apiKey model i o c c' :
  rowTokens (snd (UpdateUsage created used apiKey model i o c m)) apiKey
  = rowTokens (snd (UpdateUsage created used apiKey model i o c' m)) apiKey.
Proof.
  destruct (UpdateUsage_counters m created used apiKey model i o c) as [-> _].
  destruct (UpdateUsage_counters m created used apiKey model i o c') as [-> _].
  reflexivity.
Qed.

(** The sequence of the specification, from any manager without a row for
    the key. *)
Lemma two_updates_from_fresh_key m created1 used1 created2 used2 apiKey model :
  usage m !! apiKey = None ->
  let m1 := snd (UpdateUsage created1 used1 apiKey model 1000 500 0 m) in
  let m2 := snd (UpdateUsage created2 used2 apiKey model 2000 1000 0 m1) in
  rowTokens m2 apiKey = 4500 /\ rowRequests m2 apiKey = 2.
Proof.
  intros Hfresh m1 m2.
  destruct (UpdateUsage_counters m created1 used1 apiKey model 1000 500 0)
    as (Et1 & Er1 & _). fold m1 in Et1, Er1.
  destruct (UpdateUsage_counters m1 created2 used2 apiKey model 2000 1000 0)
    as (Et2 & Er2 & _). fold m2 in Et2, Er2.
  rewrite Et2, Er2, Et1, Er1. unfold rowTokens, rowRequests. rewrite Hfresh.
  split; reflexivity.
Qed.

(** C6.  [UpdateUsage] adds [inputTokens + outputTokens] to the
    [totalTokens] of the key and one to its [totalRequests], in the
    arithmetic of [int64], which is the arithmetic of the integers while the
    sums stay within [int64]; the cached tokens do not enter the token total.
    A key without a row starts from zero, so the two calls
    [UpdateUsage(key, m, 1000, 500, 0)] and [UpdateUsage(key, m, 2000, 1000, 0)]
    in sequence leave [totalTokens = 4500] and [totalRequests = 2]. *)
Theorem UpdateUsage_accumulates m created used created' used' apiKey model i o c :
  let m1 := snd (UpdateUsage created used apiKey model i o c m) in
  rowTokens m1 apiKey = Int64.add (rowTokens m apiKey) (Int64.add i o)
  /\ rowRequests m1 apiKey = Int64.add (rowRequests m apiKey) 1
  /\ (forall c',
        rowTokens (snd (UpdateUsage created used apiKey model i o c' m)) apiKey
        = rowTokens m1 apiKey)
  /\ (Int64.in_range (i + o) ->
      Int64.in_range (rowTokens m apiKey + (i + o)) ->
      Int64.in_range (rowRequests m apiKey + 1) ->
      rowTokens m1 apiKey = rowTokens m apiKey + (i + o)
      /\ rowRequests m1 apiKey = rowRequests m apiKey + 1)
  /\ (usage m !! apiKey = None ->
      let m1 := snd (UpdateUsage created used apiKey model 1000 500 0 m) in
      let m2 := snd (UpdateUsage created' used' apiKey model 2000 1000 0 m1) in
      rowTokens m1 apiKey = 1500 /\ rowRequests m1 apiKey = 1
      /\ rowTokens m2 apiKey = 4500 /\ rowRequests m2 apiKey = 2).
Proof.
  intros m1.
  destruct (UpdateUsage_counters m created used apiKey model i o c) as (Et & Er & _).
  fold m1 in Et, Er.
  split; [exact Et | split; [exact Er | split; [| split]]].
  - intros c'. apply UpdateUsage_tokens_ignore_cached.
  - intros Hio Ht Hr.
    apply (UpdateUsage_counters_exact m created used apiKey model i o c Hio Ht Hr).
  - intros Hfresh n1 n2.
    destruct (two_updates_from_fresh_key m created used created' used' apiKey model
                Hfresh) as [Et2 Er2].
    destruct (UpdateUsage_counters m created used apiKey model 1000 500 0)
      as (Et1 & Er1 & _).
    fold n1 in Et1, Er1. unfold rowTokens, rowRequests in Et1, Er1.
    rewrite Hfresh in Et1, Er1. auto.
Qed.

End Ledger.

(** ** Rows of the ledger: creation, removal, monotone counters *)

Section Rows.

Context {F : Type} `{Float64 F}.

Implicit Types (m : Manager F) (u : QuotaUsage F) (c : Call F).

Lemma LoadPolicies_usage cfg m : usage (snd (LoadPolicies cfg m)) = usage m.
Proof. destruct cfg; reflexivity. Qed.

(** The calls of [keepsRows] do not touch the ledger. *)
Lemma keepsRows_usage c m : keepsRows c = true -> usage (after c m) = usage m.
Proof.
  destruct c; cbn [keepsRows after]; try discriminate; intros _;
    first [ apply LoadPolicies_usage
          | rewrite CheckQuota_readOnly; reflexivity
          | rewrite GetQuotaStatus_readOnly; reflexivity
          | reflexivity ].
Qed.

(** [GetUsage] leaves every existing row as it is. *)
Lemma GetUsage_keeps_rows now k m key u :
  usage m !! key = Some u -> usage (snd (GetUsage now k m)) !! key = Some u.
Proof.
  intros Hu. unfold GetUsage. destruct (usage m !! k) eqn:E; cbn; [assumption |].
  rewrite lookup_insert_ne; [assumption | congruence].
Qed.

(** C8, as amended.  A key without a row gets one only from [UpdateUsage],
    [SetUsage] (by which a snapshot is loaded) or [GetUsage] for that key:
    every other call leaves the key without a row.  A row is removed only by
    [ResetUsage] for its key or by [ResetAllUsage]: after every other call
    the key still has a row.  The five calls named do create, respectively
    remove, the row. *)
Theorem rows_created_and_removed_only_by c m apiKey :
  (usage m !! apiKey = None -> mayCreateRow c apiKey = false ->
   usage (after c m) !! apiKey = None)
  /\ (is_Some (usage m !! apiKey) -> mayRemoveRow c apiKey = false ->
      is_Some (usage (after c m) !! apiKey))
  /\ (forall created used model i o ca,
        is_Some (usage (after (CallUpdateUsage created used apiKey model i o ca) m)
                 !! apiKey))
  /\ (forall u, usage (after (CallSetUsage apiKey u) m) !! apiKey = Some u)
  /\ (forall now, is_Some (usage (after (CallGetUsage now apiKey) m) !! apiKey))
  /\ usage (after (CallResetUsage apiKey) m) !! apiKey = None
  /\ usage (after CallResetAllUsage m) !! apiKey = None.
Proof.
  split; [| split; [| split; [| split; [| split; [| split]]]]].
  - intros Hnone Hc.
    destruct (keepsRows c) eqn:Ek; [rewrite keepsRows_usage; assumption |].
    destruct c; cbn [keepsRows mayCreateRow] in *; try discriminate;
      cbn [after].
    + apply bool_decide_eq_false_1 in Hc.
      unfold GetUsage. destruct (usage m !! apiKey0); cbn; [assumption |].
      rewrite lookup_insert_ne; [assumption | congruence].
    + apply bool_decide_eq_false_1 in Hc.
      rewrite UpdateUsage_other by congruence. assumption.
    + apply bool_decide_eq_false_1 in Hc. cbn.
      rewrite lookup_insert_ne; [assumption | congruence].
    + cbn. rewrite lookup_delete_None. auto.
    + apply lookup_empty.
  - intros [u Hu] Hc.
    destruct (keepsRows c) eqn:Ek; [rewrite keepsRows_usage; eauto |].
    destruct c; cbn [keepsRows mayRemoveRow] in *; try discriminate;
      cbn [after].
    + exists u. apply GetUsage_keeps_rows. assumption.
    + destruct (decide (apiKey = apiKey0)) as [->|Hne].
      * rewrite UpdateUsage_row. eauto.
      * rewrite UpdateUsage_other by assumption. eauto.
    + cbn. destruct (decide (apiKey0 = apiKey)) as [->|Hne].
      * rewrite lookup_insert_eq. eauto.
      * rewrite lookup_insert_ne by assumption. eauto.
    + apply bool_decide_eq_false_1 in Hc. cbn.
      rewrite lookup_delete_ne by assumption. eauto.
  - intros. cbn [after]. rewrite UpdateUsage_row. eauto.
  - intros. cbn. apply lookup_insert_eq.
  - intros now. cbn [after]. unfold GetUsage.
    destruct (usage m !! apiKey) eqn:E; cbn; [rewrite E; eauto |].
    rewrite lookup_insert_eq. eauto.
  - cbn. apply lookup_delete_eq.
  - apply lookup_empty.
Qed.

(** A cost is not negative when the token counts and the prices are not. *)
Lemma CalculateCost_nonneg `{!Float64Laws F} (pm : PricingManager F)
    model input output cached :
  0 <= input <= Int64.max -> 0 <= output <= Int64.max -> 0 <= cached <= Int64.max ->
  from_option pricingOk true (GetPricing pm model) = true ->
  (f64_of_int64 0 <=? CalculateCost pm model input output cached)%f64 = true.
Proof.
  intros Hi Ho Hc Hp.
  destruct (GetPricing pm model) as [pricing|] eqn:E; cbn [from_option] in Hp;
    [rewrite (CalculateCost_known _ _ _ _ _ _ E)
    | rewrite (CalculateCost_unknown _ _ _ _ _ E)].
  - unfold pricingOk, priceOk in Hp.
    apply andb_prop in Hp as [Hp Hcached]. apply andb_prop in Hp as [Hin Hout].
    apply andb_prop in Hcached as [? ?]. apply andb_prop in Hin as [? ?].
    apply andb_prop in Hout as [? ?].
    assert (Hterm : forall n x, 0 <= n <= Int64.max ->
              f64_finite x = true -> (f64_of_int64 0 <=? x)%f64 = true ->
              (f64_of_int64 0 <=? f64_of_int64 n * x / f64_of_int64 1000000)%f64
              = true).
    { intros n x Hn Hfin Hpos. apply f64_div_nonneg.
      - unfold Int64.max. lia.
      - apply f64_mul_nonneg; auto.
        + apply f64_of_int64_finite. assumption.
        + apply f64_of_int64_nonneg. assumption. }
    apply f64_add_nonneg; [apply f64_add_nonneg |]; apply Hterm; auto.
    + unfold effectiveCachedPrice.
      destruct (CachedInputPricePerMillion pricing =? f64_of_int64 0)%f64; auto.
    + unfold effectiveCachedPrice.
      destruct (CachedInputPricePerMillion pricing =? f64_of_int64 0)%f64; auto.
  - apply f64_leb_refl. apply f64_of_int64_finite.
    unfold Int64.max. lia.
Qed.

(** C7, as amended.  [UpdateUsage] does not lower a counter of the row it
    updates, and leaves every other row as it is, for token counts that are
    not negative, sums that stay within [int64], prices that are finite and
    not negative, and a cost total that is a finite number.  The calls that
    only read ([keepsRows]) leave the ledger as it is, and [GetUsage] leaves
    every existing row as it is.  What remains are the calls that may lower
    a counter: the resets [ResetUsage] and [ResetAllUsage], and [SetUsage],
    which puts the row it is given in the place of the old one. *)
Theorem counters_never_lowered_by_traffic `{!Float64Laws F}
    m created used apiKey model i o ca :
  0 <= i -> 0 <= o -> 0 <= ca <= Int64.max ->
  i + o <= Int64.max ->
  Int64.min <= rowTokens m apiKey ->
  rowTokens m apiKey + (i + o) <= Int64.max ->
  Int64.min <= rowRequests m apiKey ->
  rowRequests m apiKey + 1 <= Int64.max ->
  from_option pricingOk true (GetPricing (pricing m) model) = true ->
  f64_finite (rowCost m apiKey) = true ->
  let m' := snd (UpdateUsage created used apiKey model i o ca m) in
  (rowTokens m apiKey <= rowTokens m' apiKey
   /\ (rowCost m apiKey <=? rowCost m' apiKey)%f64 = true
   /\ rowRequests m apiKey <= rowRequests m' apiKey)
  /\ (forall k, k <> apiKey -> usage m' !! k = usage m !! k)
  /\ (forall c, keepsRows c = true -> usage (after c m) = usage m)
  /\ (forall now k key u, usage m !! key = Some u ->
        usage (after (CallGetUsage now k) m) !! key = Some u).
Proof.
  intros Hi Ho Hca Hio Ht0 Ht Hr0 Hr Hprice Hfin m'.
  destruct (UpdateUsage_counters m created used apiKey model i o ca)
    as (Et & Er & Ec). fold m' in Et, Er, Ec.
  split; [split; [| split] | split; [| split]].
  - rewrite Et. rewrite (Int64_add_exact i o), Int64_add_exact;
      unfold Int64.in_range, Int64.min, Int64.max in *; lia.
  - rewrite Ec. apply f64_add_mono; [assumption |].
    apply CalculateCost_nonneg; auto; unfold Int64.max in *; lia.
  - rewrite Er, Int64_add_exact; unfold Int64.in_range in *; lia.
  - intros k Hne. apply UpdateUsage_other. assumption.
  - intros c. apply keepsRows_usage.
  - intros now k key u. apply GetUsage_keeps_rows.
Qed.

End Rows.

(** ** The autosave lifecycle *)

Section Autosave.

Context {F : Type} `{Float64 F}.

Implicit Types (w : World F).

Lemma StartAutoSave_running w : autoSaveRunning (StartAutoSave w) = true.
Proof.
  unfold StartAutoSave. destruct (autoSaveRunning w) eqn:E; [assumption | reflexivity].
Qed.

Lemma StartAutoSave_when_running w :
  autoSaveRunning w = true -> StartAutoSave w = w.
Proof. intros E. unfold StartAutoSave. rewrite E. reflexivity. Qed.

Lemma StopAutoSave_when_stopped now io w :
  autoSaveRunning w = false -> StopAutoSave now io w = Returned w.
Proof. intros E. unfold StopAutoSave. rewrite E. reflexivity. Qed.

(** C9.  The lifecycle controls are idempotent.  A second [StartAutoSave]
    changes nothing: two calls in a row leave the state (the flag, the
    channel, the goroutines started, the files and the log) that one call
    leaves.  [StopAutoSave] in a state where autosave is not running, as in
    the state of a process that never started it, returns without a panic
    and leaves the state as it is: no channel is closed, nothing is saved
    and nothing is logged. *)
Theorem autosave_controls_idempotent w now io (p : PricingManager F) :
  StartAutoSave (StartAutoSave w) = StartAutoSave w
  /\ StopAutoSave now io (initialWorld p) = Returned (initialWorld p)
  /\ (autoSaveRunning w = false -> StopAutoSave now io w = Returned w).
Proof.
  split; [| split].
  - apply StartAutoSave_when_running, StartAutoSave_running.
  - apply StopAutoSave_when_stopped. reflexivity.
  - apply StopAutoSave_when_stopped.
Qed.

(** Saving touches neither the flag nor the channels. *)
Lemma SaveUsageToFile_controls now io w :
  autoSaveRunning (snd (SaveUsageToFile now io w)) = autoSaveRunning w
  /\ stopAutoSave (snd (SaveUsageToFile now io w)) = stopAutoSave w
  /\ channels (snd (SaveUsageToFile now io w)) = channels w.
Proof.
  unfold SaveUsageToFile.
  destruct (String.eqb (persistencePath w) ""); [auto |].
  destruct (AllUsage (manager w)) as [allUsage m].
  destruct (marshal_ok io), (write_ok io), (rename_ok io); cbn; auto.
Qed.

Lemma autoSaveTick_controls now io w :
  autoSaveRunning (autoSaveTick now io w) = autoSaveRunning w
  /\ stopAutoSave (autoSaveTick now io w) = stopAutoSave w
  /\ channels (autoSaveTick now io w) = channels w.
Proof.
  unfold autoSaveTick.
  pose proof (SaveUsageToFile_controls now io w) as Hs.
  destruct (SaveUsageToFile now io w) as [[err|] w']; exact Hs.
Qed.

Lemma channelInvariant_step ev w w' :
  channelInvariant w -> handle ev w = Returned w' -> channelInvariant w'.
Proof.
  intros Hinv Hev. destruct ev as [|now io|now io]; cbn [handle] in Hev.
  - injection Hev as <-. unfold StartAutoSave.
    destruct (autoSaveRunning w) eqn:E; [exact Hinv |].
    intros _. exists (length (channels w)). cbn. split; [reflexivity |].
    rewrite lookup_app_r by lia. rewrite Nat.sub_diag. reflexivity.
  - unfold StopAutoSave in Hev. destruct (autoSaveRunning w) eqn:E; cbn [negb] in Hev.
    + destruct (closeChannel (stopAutoSave w) (channels w)) as [chans|];
        [| discriminate].
      match type of Hev with
      | context [SaveUsageToFile now io ?w0] =>
          pose proof (SaveUsageToFile_controls now io w0) as (Hr & _ & _);
          destruct (SaveUsageToFile now io w0) as [[err|] w1]
      end; injection Hev as <-; intros Hrun; cbn in Hrun, Hr;
        rewrite Hr in Hrun; discriminate.
    + injection Hev as <-. exact Hinv.
  - injection Hev as <-.
    destruct (autoSaveTick_controls now io w) as (Hr & Hs & Hc).
    unfold channelInvariant. rewrite Hr, Hs, Hc. exact Hinv.
Qed.

Lemma reachable_channelInvariant p w : reachable p w -> channelInvariant w.
Proof.
  induction 1 as [|w ev w' _ IH Hev].
  - intros Hrun. discriminate.
  - exact (channelInvariant_step ev w w' IH Hev).
Qed.

(** No call of the controller panics in a state the process can reach: the
    channel that [StopAutoSave] closes is there and open. *)
Lemma reachable_never_panics p w ev :
  reachable p w -> exists w', handle ev w = Returned w'.
Proof.
  intros Hreach. pose proof (reachable_channelInvariant p w Hreach) as Hinv.
  destruct ev as [|now io|now io]; cbn [handle]; eauto.
  unfold StopAutoSave. destruct (autoSaveRunning w) eqn:E; cbn [negb]; eauto.
  destruct (Hinv E) as (i & Hi & Hopen). rewrite Hi. cbn [closeChannel].
  rewrite Hopen.
  match goal with
  | |- context [SaveUsageToFile now io ?w0] =>
      destruct (SaveUsageToFile now io w0) as [[err|] w1]
  end; eauto.
Qed.

End Autosave.

(** ** Exact numbers satisfy the order laws *)

Section ExactLaws.

Import Exact.

Lemma Q_of_int64_nonneg n :
  0 <= n <= Int64.max -> Qle_bool (inject_Z 0) (inject_Z n) = true.
Proof. intros [Hn _]. apply Qle_bool_iff. rewrite <- Zle_Qle. exact Hn. Qed.

Lemma Q_mul_nonneg (a b : Q) :
  Qle_bool (inject_Z 0) a = true -> Qle_bool (inject_Z 0) b = true ->
  Qle_bool (inject_Z 0) (a * b) = true.
Proof. rewrite !Qle_bool_iff. apply Qmult_le_0_compat. Qed.

Lemma Q_div_nonneg (a : Q) n :
  0 < n <= Int64.max -> Qle_bool (inject_Z 0) a = true ->
  Qle_bool (inject_Z 0) (a / inject_Z n) = true.
Proof.
  rewrite !Qle_bool_iff. intros Hn Ha. unfold Qdiv.
  apply Qmult_le_0_compat; [exact Ha |].
  apply Qinv_le_0_compat. change 0%Q with (inject_Z 0). rewrite <- Zle_Qle. lia.
Qed.

Lemma Q_add_nonneg (a b : Q) :
  Qle_bool (inject_Z 0) a = true -> Qle_bool (inject_Z 0) b = true ->
  Qle_bool (inject_Z 0) (a + b) = true.
Proof.
  rewrite !Qle_bool_iff. intros Ha Hb. change (inject_Z 0) with (0 + 0)%Q.
  apply Qplus_le_compat; assumption.
Qed.

Lemma Q_add_mono (x c : Q) :
  Qle_bool (inject_Z 0) c = true -> Qle_bool x (x + c) = true.
Proof.
  rewrite !Qle_bool_iff. intros Hc. rewrite <- (Qplus_0_r x) at 1.
  apply Qplus_le_compat; [apply Qle_refl | exact Hc].
Qed.

#[global] Instance exact_laws : Float64Laws Q := {|
  f64_finite := fun _ => true;
  f64_of_int64_nonneg := Q_of_int64_nonneg;
  f64_of_int64_finite := fun _ _ => eq_refl;
  f64_mul_nonneg := fun a b _ _ => Q_mul_nonneg a b;
  f64_div_nonneg := Q_div_nonneg;
  f64_add_nonneg := Q_add_nonneg;
  f64_add_mono := fun x c _ => Q_add_mono x c;
  f64_leb_refl := fun x _ => proj2 (Qle_bool_iff x x) (Qle_refl x)
|}.

(** Over exact numbers the three terms of a cost share their divisor. *)
Lemma CalculateCost_exact_sum (pm : PricingManager Q) model input output cached pricing :
  GetPricing pm model = Some pricing ->
  (CalculateCost pm model input output cached
   == (inject_Z input * InputPricePerMillion pricing
       + inject_Z cached * effectiveCachedPrice pricing
       + inject_Z output * OutputPricePerMillion pricing) / inject_Z 1000000)%Q.
Proof.
  intros E. rewrite (CalculateCost_known _ _ _ _ _ _ E). cbn. field.
Qed.

End ExactLaws.

(** C5, as amended.  For a model with a catalog entry, [CalculateCost] is
    [input * inputPrice / 1,000,000 + cached * effectiveCachedPrice /
    1,000,000 + output * outputPrice / 1,000,000] in the operations of
    [float64]: each product is divided by 1,000,000 and the three quotients
    are added in this order.  The effective cached price is the cached price
    unless that is zero, and then the input price, so an entry without a
    cached price costs what the entry with the input price as cached price
    costs.  For a model without an entry the result is exactly [0].  In
    exact arithmetic, and there only, this is the sum of the three products
    divided by 1,000,000 once. *)
Theorem CalculateCost_divides_each_term :
  (forall (F : Type) (HF : Float64 F) (pm : PricingManager F) model input output cached,
     CalculateCost pm model input output cached
     = match GetPricing pm model with
       | Some pricing => costTermByTerm pricing input output cached
       | None => f64_of_int64 0
       end)
  /\ (forall (F : Type) (HF : Float64 F) (pricing : ModelPricing F) input output cached,
        (CachedInputPricePerMillion pricing =? f64_of_int64 0)%f64 = true ->
        effectiveCachedPrice pricing = InputPricePerMillion pricing
        /\ costTermByTerm pricing input output cached
           = costTermByTerm
               {| InputPricePerMillion := InputPricePerMillion pricing;
                  OutputPricePerMillion := OutputPricePerMillion pricing;
                  CachedInputPricePerMillion := InputPricePerMillion pricing |}
               input output cached)
  /\ (forall (F : Type) (HF : Float64 F) (pricing : ModelPricing F),
        (CachedInputPricePerMillion pricing =? f64_of_int64 0)%f64 = false ->
        effectiveCachedPrice pricing = CachedInputPricePerMillion pricing)
  /\ (forall (pricing : ModelPricing Q) input output cached,
        (costTermByTerm pricing input output cached
         == costDividedOnce pricing input output cached)%Q).
Proof.
  split; [| split; [| split]].
  - intros F HF pm model input output cached.
    destruct (GetPricing pm model) as [pricing|] eqn:E.
    + apply (CalculateCost_known pm model input output cached pricing E).
    + apply CalculateCost_unknown. exact E.
  - intros F HF pricing input output cached Hzero.
    assert (Heff : effectiveCachedPrice pricing = InputPricePerMillion pricing)
      by (apply effectiveCachedPrice_fallback; exact Hzero).
    split; [exact Heff |].
    unfold costTermByTerm. rewrite Heff. f_equal. f_equal. f_equal. f_equal.
    unfold effectiveCachedPrice. cbn.
    destruct (InputPricePerMillion pricing =? f64_of_int64 0)%f64; reflexivity.
  - intros F HF pricing. apply effectiveCachedPrice_explicit.
  - intros pricing input output cached.
    unfold costTermByTerm, costDividedOnce. cbn. field.
Qed.

(** ** IEEE-754 numbers satisfy the order laws

    From the specification of the primitive floats ([SpecFloat] and the
    equations of [FloatAxioms]): how a sum is rounded, and that the rounded
    sum of a finite number and a number that is not negative is not below
    the finite number. *)


(** digits *)
Lemma digits2_pos_bounds (m : positive) :
  2 ^ (Zpos (digits2_pos m) - 1) <= Zpos m < 2 ^ Zpos (digits2_pos m).
Proof.
  induction m as [m IH|m IH|]; cbn [digits2_pos].
  - rewrite Pos2Z.inj_succ. replace (Z.succ (Zpos (digits2_pos m)) - 1) with (Zpos (digits2_pos m)) by lia.
    rewrite Z.pow_succ_r by lia.
    replace (2 ^ Zpos (digits2_pos m)) with (2 * 2 ^ (Zpos (digits2_pos m) - 1)) in *
      by (rewrite <- Z.pow_succ_r by lia; f_equal; lia).
    lia.
  - rewrite Pos2Z.inj_succ. replace (Z.succ (Zpos (digits2_pos m)) - 1) with (Zpos (digits2_pos m)) by lia.
    rewrite Z.pow_succ_r by lia.
    replace (2 ^ Zpos (digits2_pos m)) with (2 * 2 ^ (Zpos (digits2_pos m) - 1)) in *
      by (rewrite <- Z.pow_succ_r by lia; f_equal; lia).
    lia.
  - cbn. lia.
Qed.

(** a number between two powers of two has that many digits *)
Lemma digits2_pos_unique (m : positive) d :
  2 ^ (d - 1) <= Zpos m < 2 ^ d -> Zpos (digits2_pos m) = d.
Proof.
  intros [Hlo Hhi]. pose proof (digits2_pos_bounds m) as [Glo Ghi].
  assert (0 < d).
  { destruct (Z.lt_trichotomy 0 d) as [?|[<-|Hneg]]; auto.
    - cbn in Hhi. lia.
    - rewrite (Z.pow_neg_r 2 d) in Hhi by lia. lia. }
  destruct (Z.lt_trichotomy (Zpos (digits2_pos m)) d) as [Hlt|[Heq|Hgt]]; auto; exfalso.
  - assert (2 ^ Zpos (digits2_pos m) <= 2 ^ (d - 1)) by (apply Z.pow_le_mono_r; lia). lia.
  - assert (2 ^ d <= 2 ^ (Zpos (digits2_pos m) - 1)) by (apply Z.pow_le_mono_r; lia). lia.
Qed.

(** iter_pos as iteration over nat *)
Lemma iter_pos_nat {A} (f : A -> A) (n : positive) (x : A) :
  SpecFloat.iter_pos f n x = Nat.iter (Pos.to_nat n) f x.
Proof.
  revert x. induction n as [n IH|n IH|]; intros x; cbn [SpecFloat.iter_pos].
  - rewrite !IH. rewrite Pos2Nat.inj_xI, Nat.iter_succ_r.
    replace (2 * Pos.to_nat n)%nat with (Pos.to_nat n + Pos.to_nat n)%nat by lia.
    rewrite Nat.iter_add. reflexivity.
  - rewrite !IH. rewrite Pos2Nat.inj_xO.
    replace (2 * Pos.to_nat n)%nat with (Pos.to_nat n + Pos.to_nat n)%nat by lia.
    rewrite Nat.iter_add. reflexivity.
  - reflexivity.
Qed.

(** one shift of a non-negative mantissa *)
Lemma shr_1_spec (r : shr_record) :
  0 <= shr_m r ->
  shr_m (shr_1 r) = shr_m r / 2
  /\ shr_r (shr_1 r) = Z.odd (shr_m r)
  /\ shr_s (shr_1 r) = shr_r r || shr_s r.
Proof.
  destruct r as [m rb sb]. cbn [shr_m shr_r shr_s]. intros Hm.
  destruct m as [|[p|p|]|p]; cbn [shr_1 shr_m shr_r shr_s]; try lia.
  - auto.
  - repeat split. rewrite Pos2Z.inj_xI. apply Z.div_unique with 1; lia.
  - repeat split. rewrite Pos2Z.inj_xO. apply Z.div_unique with 0; lia.
  - auto.
Qed.

(** [k] shifts of the exact record of a non-negative integer *)
Lemma shr_iter_spec (M : Z) (k : nat) :
  0 <= M ->
  shr_m (Nat.iter k shr_1 (Build_shr_record M false false)) = M / 2 ^ Z.of_nat k
  /\ (M mod 2 ^ Z.of_nat k = 0 ->
      shr_r (Nat.iter k shr_1 (Build_shr_record M false false)) = false
      /\ shr_s (Nat.iter k shr_1 (Build_shr_record M false false)) = false).
Proof.
  intros HM. induction k as [|k IH].
  - cbn. rewrite Z.div_1_r. auto.
  - rewrite !Nat.iter_succ. destruct IH as [IHm IHl].
    set (r := Nat.iter k shr_1 {| shr_m := M; shr_r := false; shr_s := false |}) in *.
    assert (Hr : 0 <= shr_m r) by (rewrite IHm; apply Z.div_pos; lia).
    destruct (shr_1_spec r Hr) as (Em & Er & Es).
    rewrite Nat2Z.inj_succ, Z.pow_succ_r by lia.
    assert (H2k : 0 < 2 ^ Z.of_nat k) by (apply Z.pow_pos_nonneg; lia).
    split.
    + rewrite Em, IHm. rewrite Z.div_div by lia. f_equal. lia.
    + intros Hmod. rewrite Er, Es.
      rewrite (Z.mul_comm 2), Z.rem_mul_r in Hmod by lia.
      pose proof (Z.mod_pos_bound M (2 ^ Z.of_nat k) H2k).
      pose proof (Z.mod_pos_bound (M / 2 ^ Z.of_nat k) 2 ltac:(lia)).
      assert (Hmodk : M mod 2 ^ Z.of_nat k = 0) by nia.
      destruct (IHl Hmodk) as [-> ->]. split; [| reflexivity].
      rewrite IHm.
      assert (Hev : (M / 2 ^ Z.of_nat k) mod 2 = 0) by nia.
      rewrite <- Z.negb_even. rewrite Zeven_mod. rewrite Hev. reflexivity.
Qed.

(** non-negative mantissas stay non-negative under shifts, whatever the location *)
Lemma shr_iter_nonneg (r : shr_record) (k : nat) :
  0 <= shr_m r -> 0 <= shr_m (Nat.iter k shr_1 r).
Proof.
  intros Hr. induction k; [exact Hr | rewrite Nat.iter_succ].
  destruct (shr_1_spec _ IHk) as (-> & _). apply Z.div_pos; lia.
Qed.


Lemma fexp64_eq e : fexp64 e = Z.max (e - 53) (-1074).
Proof. reflexivity. Qed.

Lemma nonnegSF_leb x : SFleb (S754_zero false) x = true <-> nonnegSF x.
Proof. destruct x as [s|[|]| |[|] m e]; cbn; intuition discriminate. Qed.

Lemma hasSign_nonneg r : hasSign false r -> nonnegSF r.
Proof. destruct r as [s|[|]| |[|] m e]; cbn; intuition discriminate. Qed.

Lemma shr_nonneg mrs e n : 0 <= shr_m mrs -> 0 <= shr_m (fst (shr mrs e n)).
Proof.
  intros H. unfold shr. destruct n; cbn [fst]; auto.
  rewrite iter_pos_nat. apply shr_iter_nonneg. assumption.
Qed.

Lemma shr_record_of_loc_m m l : shr_m (shr_record_of_loc m l) = m.
Proof. destruct l as [|[| |]]; reflexivity. Qed.

Lemma round_nearest_even_bounds m l :
  m <= round_nearest_even m l <= m + 1
  /\ (l = loc_Exact -> round_nearest_even m l = m).
Proof.
  destruct l as [|[| |]]; cbn; try destruct (Z.even m); split; try lia; try discriminate; auto.
Qed.

Lemma binary_round_aux_sign s mx e l :
  0 <= mx -> hasSign s (binary_round_aux prec emax s mx e l).
Proof.
  intros Hmx. unfold binary_round_aux, shr_fexp.
  destruct (shr (shr_record_of_loc mx l) e _) as [mrs' e'] eqn:E1.
  assert (H1 : 0 <= shr_m mrs').
  { change mrs' with (fst (mrs', e')). rewrite <- E1. apply shr_nonneg.
    rewrite shr_record_of_loc_m. assumption. }
  pose proof (round_nearest_even_bounds (shr_m mrs') (loc_of_shr_record mrs')) as [[H2 _] _].
  destruct (shr (shr_record_of_loc (round_nearest_even _ _) loc_Exact) e' _) as [mrs'' e''] eqn:E2.
  assert (H3 : 0 <= shr_m mrs'').
  { change mrs'' with (fst (mrs'', e'')). rewrite <- E2. apply shr_nonneg. cbn. lia. }
  destruct (shr_m mrs'') as [|q|q]; [reflexivity | | lia].
  destruct (e'' <=? emax - prec); reflexivity.
Qed.

(** powers of two *)
Lemma pow2_pos k : 0 <= k -> 0 < 2 ^ k.
Proof. intros. apply Z.pow_pos_nonneg; lia. Qed.

Lemma pow2_split a b : 0 <= a -> 0 <= b -> 2 ^ (a + b) = 2 ^ a * 2 ^ b.
Proof. intros. apply Z.pow_add_r; assumption. Qed.

Lemma pow2_ge_2 k : 0 < k -> 2 <= 2 ^ k.
Proof.
  intros. replace k with (1 + (k - 1)) by lia. rewrite pow2_split by lia.
  pose proof (pow2_pos (k - 1)). change (2 ^ 1) with 2. nia.
Qed.

(** appending zero bits *)
Lemma iter_xO_spec (m k : positive) : Zpos (Pos.iter xO m k) = Zpos m * 2 ^ Zpos k.
Proof.
  induction k as [|k IH] using Pos.peano_ind.
  - cbn. lia.
  - rewrite Pos.iter_succ. rewrite Pos2Z.inj_xO, IH, Pos2Z.inj_succ, Z.pow_succ_r by lia. lia.
Qed.

Lemma digits_shift (m k : positive) :
  Zpos (digits2_pos (Pos.iter xO m k)) = Zpos (digits2_pos m) + Zpos k.
Proof.
  apply digits2_pos_unique. rewrite iter_xO_spec.
  pose proof (digits2_pos_bounds m) as [Hlo Hhi].
  replace (Zpos (digits2_pos m) + Zpos k - 1) with ((Zpos (digits2_pos m) - 1) + Zpos k) by lia.
  rewrite !pow2_split by lia.
  pose proof (pow2_pos (Zpos k)). nia.
Qed.

Lemma bounded_normalized m e :
  bounded prec emax m e = true -> normalized m e /\ e <= 971.
Proof.
  unfold bounded, canonical_mantissa. intros H.
  apply andb_prop in H as [Hc He].
  apply Z.eqb_eq in Hc. apply Z.leb_le in He. rewrite fexp64_eq in Hc.
  change (emax - prec) with 971 in He.
  pose proof (digits2_pos_bounds m) as [Hlo Hhi].
  split; [| assumption]. unfold normalized. split; [lia |]. split.
  - assert (Zpos (digits2_pos m) <= 53) by lia.
    assert (2 ^ Zpos (digits2_pos m) <= 2 ^ 53) by (apply Z.pow_le_mono_r; lia). lia.
  - intros Hn. assert (Zpos (digits2_pos m) = 53) by lia.
    replace (Zpos (digits2_pos m) - 1) with 52 in Hlo by lia. assumption.
Qed.

(** the order of normal forms is the order of their values *)
Lemma normalized_compare m1 e1 m2 e2 :
  normalized m1 e1 -> normalized m2 e2 ->
  Zpos m1 * 2 ^ (e1 + 1074) <= Zpos m2 * 2 ^ (e2 + 1074) ->
  match e1 ?= e2 with
  | Lt => Lt
  | Gt => Gt
  | Eq => Pos.compare_cont Eq m1 m2
  end <> Gt.
Proof.
  intros (H1e & H1h & H1l) (H2e & H2h & H2l) Hle.
  destruct (Z.compare_spec e1 e2) as [->|Hlt|Hgt]; try discriminate.
  - pose proof (pow2_pos (e2 + 1074) ltac:(lia)).
    change (Pos.compare_cont Eq m1 m2) with (Pos.compare m1 m2).
    rewrite Pos.compare_gt_iff. nia.
  - exfalso. specialize (H1l ltac:(lia)).
    replace (e1 + 1074) with ((e1 - e2) + (e2 + 1074)) in Hle by lia.
    rewrite pow2_split in Hle by lia.
    pose proof (pow2_pos (e2 + 1074) ltac:(lia)).
    pose proof (pow2_ge_2 (e1 - e2) ltac:(lia)).
    change (2 ^ 53) with (2 * 2 ^ 52) in H2h.
    assert (2 ^ 52 * 2 <= Zpos m1 * 2 ^ (e1 - e2)) by nia.
    nia.
Qed.


(** the shift of an exact record *)
Lemma shr_exact (M e n : Z) :
  0 <= M -> 0 <= n ->
  shr_m (fst (shr (Build_shr_record M false false) e n)) = M / 2 ^ n
  /\ snd (shr (Build_shr_record M false false) e n) = e + n
  /\ (M mod 2 ^ n = 0 ->
      loc_of_shr_record (fst (shr (Build_shr_record M false false) e n)) = loc_Exact).
Proof.
  intros HM Hn. unfold shr. destruct n as [|k|k]; [| | lia].
  - cbn [fst snd shr_m]. rewrite Z.div_1_r. repeat split; auto. lia.
  - cbn [fst snd]. rewrite iter_pos_nat.
    destruct (shr_iter_spec M (Pos.to_nat k) HM) as [Hm Hl].
    rewrite positive_nat_Z in Hm, Hl. repeat split; auto.
    intros Hmod. destruct (Hl Hmod) as [Hr Hs].
    destruct (Nat.iter _ _ _) as [m' r' s']. cbn in Hr, Hs. subst. reflexivity.
Qed.

Lemma round_aux_aligned s (mz : positive) (ez : Z) :
  let t := fexp64 (Zpos (digits2_pos mz) + ez) in
  let V := Zpos mz * 2 ^ (ez + 1074) in
  let G := 2 ^ (t + 1074) in
  -1074 <= ez <= t ->
  exists m2,
    V / G <= m2 <= V / G + 1
    /\ (V mod G = 0 -> m2 = V / G)
    /\ 1 <= V / G < 2 ^ 53
    /\ (-1074 < t -> 2 ^ 52 <= V / G)
    /\ binary_round_aux prec emax s (Zpos mz) ez loc_Exact = rounded s m2 t.
Proof.
  intros t V G [Hez Het].
  set (n := t - ez).
  set (A := 2 ^ (ez + 1074)).
  assert (HA : 0 < A) by (apply pow2_pos; lia).
  assert (Hn : 0 <= n) by (unfold n; lia).
  assert (H2n : 0 < 2 ^ n) by (apply pow2_pos; lia).
  assert (EG : G = 2 ^ n * A).
  { unfold G, A, n. rewrite <- pow2_split by lia. f_equal. lia. }
  assert (EVG : V / G = Zpos mz / 2 ^ n).
  { unfold V. fold A. rewrite EG. apply Z.div_mul_cancel_r; lia. }
  assert (EVmod : V mod G = (Zpos mz mod 2 ^ n) * A).
  { unfold V. fold A. rewrite EG. apply Z.mul_mod_distr_r; lia. }
  pose proof (digits2_pos_bounds mz) as [Dlo Dhi].
  set (dz := Zpos (digits2_pos mz)) in *.
  assert (Et : t = Z.max (dz + ez - 53) (-1074)) by reflexivity.
  (* the digits of the shifted mantissa *)
  assert (Hm1 : 1 <= Zpos mz / 2 ^ n < 2 ^ 53
                /\ (-1074 < t -> 2 ^ 52 <= Zpos mz / 2 ^ n)).
  { destruct (Z.eq_dec n 0) as [En|En].
    - rewrite En, Z.div_1_r.
      assert (dz <= 53) by (unfold n in En; lia).
      assert (2 ^ dz <= 2 ^ 53) by (apply Z.pow_le_mono_r; lia).
      split; [lia |]. intros Ht. assert (dz = 53) by (unfold n in En; lia).
      replace (dz - 1) with 52 in Dlo by lia. assumption.
    - assert (Edz : dz = 53 + n) by (unfold n in *; lia).
      assert (2 ^ 52 * 2 ^ n <= Zpos mz < 2 ^ 53 * 2 ^ n).
      { rewrite <- !pow2_split by lia. replace (52 + n) with (dz - 1) by lia.
        replace (53 + n) with dz by lia. lia. }
      assert (2 ^ 52 <= Zpos mz / 2 ^ n) by (apply Z.div_le_lower_bound; lia).
      assert (Zpos mz / 2 ^ n < 2 ^ 53) by (apply Z.div_lt_upper_bound; lia).
      change (2 ^ 52) with 4503599627370496 in *. lia. }
  destruct (shr_exact (Zpos mz) ez n ltac:(lia) Hn) as (Es1 & Ee1 & El1).
  unfold binary_round_aux, shr_fexp.
  change (Zdigits2 (Zpos mz)) with dz.
  change (SpecFloat.fexp prec emax (dz + ez)) with t. fold n.
  change (shr_record_of_loc (Zpos mz) loc_Exact)
    with (Build_shr_record (Zpos mz) false false).
  destruct (shr (Build_shr_record (Zpos mz) false false) ez n) as [r1 e1] eqn:E1.
  cbn [fst snd] in Es1, Ee1, El1.
  set (m2 := round_nearest_even (shr_m r1) (loc_of_shr_record r1)).
  pose proof (round_nearest_even_bounds (shr_m r1) (loc_of_shr_record r1)) as [Hb Hx].
  fold m2 in Hb, Hx. rewrite Es1 in Hb.
  exists m2. rewrite EVG.
  split; [exact Hb |]. split.
  { intros Hmod. rewrite EVmod in Hmod.
    assert (Zpos mz mod 2 ^ n = 0) by nia.
    rewrite <- Es1. apply Hx. apply El1. assumption. }
  split; [apply Hm1 |]. split; [apply Hm1 |].
  destruct Hm1 as [Hm1 Hm1n].
  subst e1. replace (ez + n) with t in * by (unfold n; lia).
  change (shr_record_of_loc m2 loc_Exact) with (Build_shr_record m2 false false).
  assert (Hm2 : 1 <= m2 <= 2 ^ 53) by lia.
  destruct m2 as [|q|q] eqn:Eq2; try lia.
  cbn [Zdigits2]. unfold rounded.
  pose proof (digits2_pos_bounds q) as [Qlo Qhi].
  destruct (Z.ltb_spec (Zpos q) (2 ^ 53)) as [Hlt|Hge].
  - (* no carry *)
    assert (Zpos (digits2_pos q) <= 53).
    { destruct (Z.le_gt_cases (Zpos (digits2_pos q)) 53) as [?|Hgt]; auto.
      assert (2 ^ 53 <= 2 ^ (Zpos (digits2_pos q) - 1)) by (apply Z.pow_le_mono_r; lia).
      lia. }
    assert (Hn2 : fexp64 (Zpos (digits2_pos q) + t) - t <= 0)
      by (rewrite fexp64_eq; lia).
    unfold shr. destruct (fexp64 (Zpos (digits2_pos q) + t) - t) as [|k|k] eqn:En2;
      try lia; cbn [shr_m]; reflexivity.
  - (* carry *)
    assert (Eq53 : Zpos q = 2 ^ 53) by lia.
    assert (Eq53' : q = Z.to_pos (2 ^ 53)) by (rewrite <- Eq53; reflexivity).
    subst q.
    replace (fexp64 (Zpos (digits2_pos (Z.to_pos (2 ^ 53))) + t) - t) with 1
      by (rewrite fexp64_eq; change (Zpos (digits2_pos (Z.to_pos (2 ^ 53)))) with 54; lia).
    cbn. reflexivity.
Qed.

Lemma binary_round_decomp s (m : positive) (e : Z) :
  -1074 <= e ->
  exists m2 t, roundsTo m e m2 t /\ binary_round prec emax s m e = rounded s m2 t.
Proof.
  intros He. unfold binary_round.
  set (t := SpecFloat.fexp prec emax (Zpos (digits2_pos m) + e)).
  assert (Ht : t = Z.max (Zpos (digits2_pos m) + e - 53) (-1074)) by reflexivity.
  assert (Ht0 : 0 <= t + 1074) by (rewrite Ht; lia).
  unfold shl_align. destruct (t - e) as [|k|k] eqn:Ek.
  - destruct (round_aux_aligned s m e ltac:(fold t; lia)) as (m2 & H1 & H2 & H3 & H4 & H5).
    fold t in H1, H2, H3, H4, H5.
    exists m2, t. split; [| exact H5]. unfold roundsTo. repeat split; auto; lia.
  - destruct (round_aux_aligned s m e ltac:(fold t; lia)) as (m2 & H1 & H2 & H3 & H4 & H5).
    fold t in H1, H2, H3, H4, H5.
    exists m2, t. split; [| exact H5]. unfold roundsTo. repeat split; auto; lia.
  - assert (Ed : Zpos (digits2_pos (Pos.iter xO m k)) + t = Zpos (digits2_pos m) + e)
      by (rewrite digits_shift; lia).
    pose proof (round_aux_aligned s (Pos.iter xO m k) t) as R.
    rewrite Ed in R. fold t in R.
    destruct (R ltac:(lia)) as (m2 & H1 & H2 & H3 & H4 & H5). clear R.
    assert (EV : Zpos (Pos.iter xO m k) * 2 ^ (t + 1074) = Zpos m * 2 ^ (e + 1074)).
    { rewrite iter_xO_spec. replace (e + 1074) with (Zpos k + (t + 1074)) by lia.
      rewrite (pow2_split (Zpos k) (t + 1074)) by lia. ring. }
    rewrite EV in H1, H2, H3, H4.
    exists m2, t. split; [| exact H5]. unfold roundsTo. repeat split; auto; lia.
Qed.

Section Bounds.

Variables (m : positive) (e m2 t : Z).
Hypothesis R : roundsTo m e m2 t.

Let V := Zpos m * 2 ^ (e + 1074).
Let G := 2 ^ (t + 1074).

Lemma rounded_shape s :
  rounded s m2 t = S754_infinity s
  \/ exists m3 e3,
       rounded s m2 t = S754_finite s m3 e3
       /\ normalized m3 e3 /\ e3 <= 971
       /\ Zpos m3 * 2 ^ (e3 + 1074) = m2 * G.
Proof.
  destruct R as (Ht & Hm2 & Hex & Hq & Hn). fold V G in Hm2, Hex, Hq, Hn.
  unfold rounded.
  destruct (Z.ltb_spec m2 (2 ^ 53)) as [Hlt|Hge].
  - destruct (Z.leb_spec t 971); [right | left; reflexivity].
    exists (Z.to_pos m2), t. split; [reflexivity |].
    rewrite Z2Pos.id by lia. unfold normalized. repeat split; auto; lia.
  - destruct (Z.leb_spec (t + 1) 971); [right | left; reflexivity].
    exists (Z.to_pos (2 ^ 52)), (t + 1). split; [reflexivity |].
    unfold normalized. change (Zpos (Z.to_pos (2 ^ 52))) with (2 ^ 52).
    repeat split; try lia.
    assert (m2 = 2 ^ 53) by lia. subst m2. unfold G.
    replace (t + 1 + 1074) with (1 + (t + 1074)) by lia.
    rewrite (pow2_split 1 (t + 1074)) by lia. change (2 ^ 53) with (2 ^ 52 * 2 ^ 1). ring.
Qed.

(** a normal form below the exact value is below the rounded value *)
Lemma rounded_lower (my : positive) (ey : Z) :
  normalized my ey ->
  Zpos my * 2 ^ (ey + 1074) <= V ->
  Zpos my * 2 ^ (ey + 1074) <= m2 * G.
Proof.
  intros (Hey & Hyh & Hyl) Hle.
  destruct R as (Ht & Hm2 & Hex & Hq & Hn). fold V G in Hm2, Hex, Hq, Hn.
  assert (HG : 0 < G) by (apply pow2_pos; lia).
  pose proof (Z.div_mod V G ltac:(lia)) as Hdm.
  pose proof (Z.mod_pos_bound V G HG) as Hrem.
  set (q := V / G) in *. set (rem := V mod G) in *.
  assert (Zpos my * 2 ^ (ey + 1074) <= q * G); [| nia].
  destruct (Z.le_gt_cases t ey) as [Hge|Hlt].
  - replace (ey + 1074) with ((ey - t) + (t + 1074)) in * by lia.
    rewrite (pow2_split (ey - t) (t + 1074)) in * by lia. fold G in Hle |- *.
    pose proof (pow2_pos (ey - t) ltac:(lia)).
    set (K := 2 ^ (ey - t)) in *. clearbody K q rem V G.
    assert (Zpos my * K < q + 1) by nia. nia.
  - specialize (Hn ltac:(lia)).
    assert (EG : G = 2 ^ (t - ey) * 2 ^ (ey + 1074)).
    { unfold G. rewrite <- pow2_split by lia. f_equal. lia. }
    pose proof (pow2_ge_2 (t - ey) ltac:(lia)).
    pose proof (pow2_pos (ey + 1074) ltac:(lia)).
    rewrite EG. set (L := 2 ^ (t - ey)) in *. set (B := 2 ^ (ey + 1074)) in *.
    change (2 ^ 53) with (2 * 2 ^ 52) in Hyh.
    clearbody L B q rem V G.
    assert (2 ^ 52 * 2 <= q * L) by nia.
    assert (Zpos my * B <= (q * L) * B) by nia. lia.
Qed.

(** a normal form above the exact value is above the rounded value *)
Lemma rounded_upper (my : positive) (ey : Z) :
  normalized my ey -> ey <= 971 ->
  V <= Zpos my * 2 ^ (ey + 1074) ->
  m2 * G <= Zpos my * 2 ^ (ey + 1074)
  /\ (if m2 <? 2 ^ 53 then t <= ey else t + 1 <= ey).
Proof.
  intros (Hey & Hyh & Hyl) Hemax Hle.
  destruct R as (Ht & Hm2 & Hex & Hq & Hn). fold V G in Hm2, Hex, Hq, Hn.
  assert (HG : 0 < G) by (apply pow2_pos; lia).
  pose proof (Z.div_mod V G ltac:(lia)) as Hdm.
  pose proof (Z.mod_pos_bound V G HG) as Hrem.
  set (q := V / G) in *. set (rem := V mod G) in *.
  pose proof (pow2_pos (ey + 1074) ltac:(lia)) as HB.
  change (2 ^ 53) with (2 * 2 ^ 52) in *.
  assert (Hval : m2 * G <= Zpos my * 2 ^ (ey + 1074)).
  { destruct (Z.le_gt_cases t ey) as [Hge|Hlt].
    - replace (ey + 1074) with ((ey - t) + (t + 1074)) in * by lia.
      rewrite (pow2_split (ey - t) (t + 1074)) in * by lia. fold G in Hle, HB |- *.
      pose proof (pow2_pos (ey - t) ltac:(lia)).
      set (K := 2 ^ (ey - t)) in *. clearbody K q rem V G.
      destruct (Z.eq_dec rem 0) as [E0|N0].
      + rewrite (Hex E0). nia.
      + assert (q < Zpos my * K) by nia. nia.
    - exfalso. specialize (Hn ltac:(lia)).
      assert (EG : G = 2 ^ (t - ey) * 2 ^ (ey + 1074)).
      { unfold G. rewrite <- pow2_split by lia. f_equal. lia. }
      pose proof (pow2_ge_2 (t - ey) ltac:(lia)).
      rewrite EG in Hdm. set (L := 2 ^ (t - ey)) in *. set (B := 2 ^ (ey + 1074)) in *.
      clearbody L B q rem V G.
      assert (2 ^ 52 * 2 <= q * L) by nia.
      assert (Zpos my * B < (q * L) * B) by nia. nia. }
  split; [exact Hval |].
  destruct (Z.ltb_spec m2 (2 * 2 ^ 52)) as [Hlt2|Hge2].
  - destruct (Z.le_gt_cases t ey) as [?|Hlt]; [assumption | exfalso].
    specialize (Hn ltac:(lia)).
    assert (EG : G = 2 ^ (t - ey) * 2 ^ (ey + 1074)).
    { unfold G. rewrite <- pow2_split by lia. f_equal. lia. }
    pose proof (pow2_ge_2 (t - ey) ltac:(lia)).
    rewrite EG in Hval. set (L := 2 ^ (t - ey)) in *. set (B := 2 ^ (ey + 1074)) in *.
    clearbody L B q rem V G.
    assert (2 ^ 52 * 2 <= m2 * L) by nia.
    assert (Zpos my * B < (m2 * L) * B) by nia. nia.
  - destruct (Z.le_gt_cases (t + 1) ey) as [?|Hlt]; [assumption | exfalso].
    assert (EG : G = 2 ^ (t - ey) * 2 ^ (ey + 1074)).
    { unfold G. rewrite <- pow2_split by lia. f_equal. lia. }
    pose proof (pow2_pos (t - ey) ltac:(lia)).
    rewrite EG in Hval. set (L := 2 ^ (t - ey)) in *. set (B := 2 ^ (ey + 1074)) in *.
    clearbody L B q rem V G.
    assert (2 * 2 ^ 52 <= m2 * L) by nia.
    assert (Zpos my * B < (m2 * L) * B) by nia. nia.
Qed.

End Bounds.

Lemma binary_round_sign s m e : hasSign s (binary_round prec emax s m e).
Proof.
  unfold binary_round. destruct (shl_align m e _) as [mz ez].
  apply binary_round_aux_sign. lia.
Qed.

Lemma shl_align_fst (m : positive) (e e' : Z) :
  e' <= e -> Zpos (fst (shl_align m e e')) = Zpos m * 2 ^ (e - e').
Proof.
  intros Hle. unfold shl_align. destruct (e' - e) as [|k|k] eqn:E; cbn [fst].
  - replace (e - e') with 0 by lia. lia.
  - lia.
  - rewrite iter_xO_spec. f_equal. f_equal. lia.
Qed.

(** the value of a rounded result that is finite *)
Lemma rounded_upper_finite s (m : positive) (e m2 t : Z) (my : positive) (ey : Z) :
  roundsTo m e m2 t ->
  normalized my ey -> ey <= 971 ->
  Zpos m * 2 ^ (e + 1074) <= Zpos my * 2 ^ (ey + 1074) ->
  exists m3 e3,
    rounded s m2 t = S754_finite s m3 e3
    /\ normalized m3 e3
    /\ Zpos m3 * 2 ^ (e3 + 1074) <= Zpos my * 2 ^ (ey + 1074).
Proof.
  intros R Hy Hey Hle.
  destruct (rounded_upper m e m2 t R my ey Hy Hey Hle) as [Hval Hfin].
  destruct (rounded_shape m e m2 t R s) as [Einf | (m3 & e3 & E & Hn & _ & Ev)].
  - exfalso. unfold rounded in Einf.
    destruct (m2 <? 2 ^ 53).
    + destruct (Z.leb_spec t 971); [discriminate | lia].
    + destruct (Z.leb_spec (t + 1) 971); [discriminate | lia].
  - exists m3, e3. repeat split; try apply Hn; try assumption. rewrite Ev. assumption.
Qed.

Lemma SFleb_finite_pos (m1 : positive) e1 (m2 : positive) e2 :
  normalized m1 e1 -> normalized m2 e2 ->
  Zpos m1 * 2 ^ (e1 + 1074) <= Zpos m2 * 2 ^ (e2 + 1074) ->
  SFleb (S754_finite false m1 e1) (S754_finite false m2 e2) = true.
Proof.
  intros H1 H2 Hle. pose proof (normalized_compare m1 e1 m2 e2 H1 H2 Hle) as Hc.
  unfold SFleb, SFcompare.
  destruct (e1 ?= e2); try congruence; try reflexivity.
  destruct (Pos.compare_cont Eq m1 m2); try congruence; reflexivity.
Qed.

Lemma SFleb_finite_neg (m1 : positive) e1 (m2 : positive) e2 :
  normalized m1 e1 -> normalized m2 e2 ->
  Zpos m2 * 2 ^ (e2 + 1074) <= Zpos m1 * 2 ^ (e1 + 1074) ->
  SFleb (S754_finite true m1 e1) (S754_finite true m2 e2) = true.
Proof.
  intros H1 H2 Hle. pose proof (normalized_compare m2 e2 m1 e1 H2 H1 Hle) as Hc.
  unfold SFleb, SFcompare.
  rewrite (Z.compare_antisym e1 e2) in Hc.
  destruct (e1 ?= e2); cbn [CompOpp] in Hc; try congruence; try reflexivity.
  change (Pos.compare_cont Eq m2 m1) with (Pos.compare m2 m1) in Hc.
  change (Pos.compare_cont Eq m1 m2) with (Pos.compare m1 m2).
  rewrite (Pos.compare_antisym m1 m2) in Hc.
  destruct (m1 ?= m2)%positive; cbn [CompOpp] in *; try congruence; reflexivity.
Qed.

Lemma SFleb_refl x : finiteSF x -> SFleb x x = true.
Proof.
  destruct x as [s| | |s m e]; cbn; try tauto; intros _.
  unfold SFleb, SFcompare. rewrite Z.compare_refl.
  change (Pos.compare_cont Eq m m) with (Pos.compare m m). rewrite Pos.compare_refl.
  destruct s; reflexivity.
Qed.

Lemma SFleb_neg_nonneg m e r :
  hasSign false r -> SFleb (S754_finite true m e) r = true.
Proof. destruct r as [s|s| |s m' e']; cbn; intros H; subst; try tauto; reflexivity. Qed.

(** adding a non-negative number to a finite one does not make it smaller *)
Lemma SFadd_mono x c :
  valid_binary x = true -> valid_binary c = true ->
  finiteSF x -> nonnegSF c ->
  SFleb x (SF64add x c) = true.
Proof.
  intros Vx Vc Fx Nc. unfold SF64add.
  destruct c as [sc|[|]| |[|] mc ec]; cbn in Nc; try tauto;
    destruct x as [sx| | |sx mx ex]; cbn in Fx; try tauto;
    try (solve [ reflexivity
               | destruct sx; reflexivity
               | destruct sx, sc; reflexivity
               | cbn [SFadd]; apply SFleb_refl; exact I ]).
  - (* finite + positive finite *)
    cbn [valid_binary] in Vx, Vc.
    destruct (bounded_normalized _ _ Vx) as [Nx Hex].
    destruct (bounded_normalized _ _ Vc) as [Ny Hey].
    cbn [SFadd]. set (ez := Z.min ex ec).
    assert (Hez : -1074 <= ez) by (unfold normalized in *; lia).
    rewrite !shl_align_fst by lia.
    pose proof (pow2_pos (ex - ez) ltac:(lia)) as HX.
    pose proof (pow2_pos (ec - ez) ltac:(lia)) as HC.
    assert (EX : Zpos mx * 2 ^ (ex - ez) * 2 ^ (ez + 1074) = Zpos mx * 2 ^ (ex + 1074)).
    { replace (ex + 1074) with ((ex - ez) + (ez + 1074)) by lia.
      rewrite (pow2_split (ex - ez) (ez + 1074)) by lia. ring. }
    pose proof (pow2_pos (ez + 1074) ltac:(lia)) as HE.
    destruct sx; cbn [cond_Zopp].
    + (* negative [x] *)
      destruct (- (Zpos mx * 2 ^ (ex - ez)) + Zpos mc * 2 ^ (ec - ez)) as [|p|p] eqn:Es;
        cbn [binary_normalize].
      * reflexivity.
      * apply SFleb_neg_nonneg. apply binary_round_sign.
      * destruct (binary_round_decomp true p ez Hez) as (m2 & t & R & ->).
        destruct (rounded_upper_finite true p ez m2 t mx ex R Nx Hex)
          as (m3 & e3 & -> & N3 & Hv).
        { rewrite <- EX. assert (Zpos p <= Zpos mx * 2 ^ (ex - ez)) by nia. nia. }
        apply SFleb_finite_neg; assumption.
    + (* positive [x] *)
      destruct (Zpos mx * 2 ^ (ex - ez) + Zpos mc * 2 ^ (ec - ez)) as [|p|p] eqn:Es;
        try nia.
      cbn [binary_normalize].
      destruct (binary_round_decomp false p ez Hez) as (m2 & t & R & ->).
      assert (Hle : Zpos mx * 2 ^ (ex + 1074) <= Zpos p * 2 ^ (ez + 1074)).
      { rewrite <- EX. assert (Zpos mx * 2 ^ (ex - ez) <= Zpos p) by nia. nia. }
      pose proof (rounded_lower p ez m2 t R mx ex Nx Hle) as Hlow.
      destruct (rounded_shape p ez m2 t R false) as [-> | (m3 & e3 & -> & N3 & _ & Ev)].
      * reflexivity.
      * apply SFleb_finite_pos; try assumption. rewrite Ev. assumption.
Qed.

(** sums, products and quotients of non-negative numbers *)
Lemma SFadd_nonneg x y : nonnegSF x -> nonnegSF y -> nonnegSF (SF64add x y).
Proof.
  intros Hx Hy. unfold SF64add.
  destruct x as [sx|[|]| |[|] mx ex]; cbn in Hx; try tauto;
    destruct y as [sy|[|]| |[|] my ey]; cbn in Hy; try tauto;
    try exact I; try (destruct sx, sy; exact I).
  cbn [SFadd cond_Zopp].
  destruct (Zpos _ + Zpos _) as [|p|p] eqn:E; try lia.
  apply hasSign_nonneg, binary_round_sign.
Qed.

Lemma SFmul_nonneg x y :
  finiteSF x -> finiteSF y -> nonnegSF x -> nonnegSF y -> nonnegSF (SF64mul x y).
Proof.
  intros Fx Fy Hx Hy. unfold SF64mul.
  destruct x as [sx|[|]| |[|] mx ex]; cbn in Hx, Fx; try tauto;
    destruct y as [sy|[|]| |[|] my ey]; cbn in Hy, Fy; try tauto;
    try exact I.
  cbn [SFmul xorb]. apply hasSign_nonneg, binary_round_aux_sign. lia.
Qed.

Lemma SFdiv_nonneg x (md : positive) (ed : Z) :
  nonnegSF x -> nonnegSF (SF64div x (S754_finite false md ed)).
Proof.
  intros Hx. unfold SF64div.
  destruct x as [sx|[|]| |[|] mx ex]; cbn in Hx; try tauto; try exact I.
  cbn [SFdiv xorb].
  destruct (SFdiv_core_binary prec emax (Zpos mx) ex (Zpos md) ed) as [[mz ez] lz] eqn:E.
  apply hasSign_nonneg, binary_round_aux_sign.
  unfold SFdiv_core_binary in E.
  match type of E with
  | (let (_, _) := Z.div_eucl ?a ?b in _) = _ =>
      pose proof (Z_div_mod a b ltac:(lia)) as Hdiv;
      assert (Ha : 0 <= a) by
        (match goal with
         | |- 0 <= match ?s with _ => _ end =>
             destruct s; try lia; apply Z.shiftl_nonneg; lia
         end);
      destruct (Z.div_eucl a b) as [q r]
  end.
  injection E as <- _ _. nia.
Qed.

Lemma finiteb_SF x : IEEE.finiteb x = true <-> finiteSF (Prim2SF x).
Proof. unfold IEEE.finiteb. destruct (Prim2SF x); cbn; intuition discriminate. Qed.

Lemma Prim2SF_zero : Prim2SF (IEEE.of_int64 0) = S754_zero false.
Proof. vm_compute. reflexivity. Qed.

Lemma leb_zero_SF x :
  PrimFloat.leb (IEEE.of_int64 0) x = true <-> nonnegSF (Prim2SF x).
Proof. rewrite FloatAxioms.leb_spec, Prim2SF_zero. apply nonnegSF_leb. Qed.

Lemma of_int64_SF n :
  0 <= n <= Int64.max ->
  Prim2SF (IEEE.of_int64 n) = binary_normalize prec emax n 0 false.
Proof.
  intros [Hlo Hhi]. unfold IEEE.of_int64.
  destruct (Z.eqb_spec n Int64.min) as [E|_]; [unfold Int64.min in E; lia |].
  destruct (Z.ltb_spec n 0); [lia |].
  rewrite FloatAxioms.of_uint63_spec, Uint63.of_Z_spec.
  rewrite Z.mod_small; [reflexivity |].
  unfold Int64.max in Hhi. change Uint63.wB with (2 ^ 63). lia.
Qed.

Lemma of_int64_pos_SF n :
  0 < n <= Int64.max ->
  exists m e, Prim2SF (IEEE.of_int64 n) = S754_finite false m e.
Proof.
  intros [Hlo Hhi]. rewrite of_int64_SF by lia.
  destruct n as [|p|p]; try lia. cbn [binary_normalize].
  destruct (binary_round_decomp false p 0 ltac:(lia)) as (m2 & t & R & ->).
  destruct R as (Ht & Hm2 & _ & Hq & _).
  assert (Hlt : t < 63).
  { destruct (Z.lt_ge_cases t 63) as [?|Hge]; [assumption | exfalso].
    assert (HG : 2 ^ (63 + 1074) <= 2 ^ (t + 1074)) by (apply Z.pow_le_mono_r; lia).
    assert (HV : Zpos p * 2 ^ (0 + 1074) < 2 ^ (63 + 1074)).
    { rewrite (pow2_split 63 1074) by lia. change (0 + 1074) with 1074.
      pose proof (pow2_pos 1074 ltac:(lia)). unfold Int64.max in Hhi. nia. }
    assert (Zpos p * 2 ^ (0 + 1074) / 2 ^ (t + 1074) = 0)
      by (apply Z.div_small; split; [apply Z.mul_nonneg_nonneg; lia | lia]).
    lia. }
  unfold rounded. destruct (m2 <? 2 ^ 53).
  - destruct (Z.leb_spec t 971); [eauto | lia].
  - destruct (Z.leb_spec (t + 1) 971); [eauto | lia].
Qed.

Lemma of_int64_nonneg_SF n :
  0 <= n <= Int64.max ->
  nonnegSF (Prim2SF (IEEE.of_int64 n)) /\ finiteSF (Prim2SF (IEEE.of_int64 n)).
Proof.
  intros [Hlo Hhi]. destruct (Z.eq_dec n 0) as [->|Hn].
  - rewrite Prim2SF_zero. split; exact I.
  - destruct (of_int64_pos_SF n ltac:(lia)) as (m & e & ->). split; exact I.
Qed.

Lemma ieee_of_int64_nonneg n :
  0 <= n <= Int64.max -> PrimFloat.leb (IEEE.of_int64 0) (IEEE.of_int64 n) = true.
Proof. intros Hn. apply leb_zero_SF. apply of_int64_nonneg_SF. assumption. Qed.

Lemma ieee_of_int64_finite n :
  0 <= n <= Int64.max -> IEEE.finiteb (IEEE.of_int64 n) = true.
Proof. intros Hn. apply finiteb_SF. apply of_int64_nonneg_SF. assumption. Qed.

Lemma ieee_mul_nonneg a b :
  IEEE.finiteb a = true -> IEEE.finiteb b = true ->
  PrimFloat.leb (IEEE.of_int64 0) a = true ->
  PrimFloat.leb (IEEE.of_int64 0) b = true ->
  PrimFloat.leb (IEEE.of_int64 0) (PrimFloat.mul a b) = true.
Proof.
  intros Fa Fb Ha Hb. apply leb_zero_SF. rewrite FloatAxioms.mul_spec.
  apply finiteb_SF in Fa, Fb. apply leb_zero_SF in Ha, Hb.
  apply SFmul_nonneg; assumption.
Qed.

Lemma ieee_div_nonneg a n :
  0 < n <= Int64.max ->
  PrimFloat.leb (IEEE.of_int64 0) a = true ->
  PrimFloat.leb (IEEE.of_int64 0) (PrimFloat.div a (IEEE.of_int64 n)) = true.
Proof.
  intros Hn Ha. apply leb_zero_SF. rewrite FloatAxioms.div_spec.
  destruct (of_int64_pos_SF n Hn) as (m & e & ->).
  apply SFdiv_nonneg. apply leb_zero_SF. assumption.
Qed.

Lemma ieee_add_nonneg a b :
  PrimFloat.leb (IEEE.of_int64 0) a = true ->
  PrimFloat.leb (IEEE.of_int64 0) b = true ->
  PrimFloat.leb (IEEE.of_int64 0) (PrimFloat.add a b) = true.
Proof.
  intros Ha Hb. apply leb_zero_SF. rewrite FloatAxioms.add_spec.
  apply leb_zero_SF in Ha, Hb. apply SFadd_nonneg; assumption.
Qed.

(** In binary64, adding a number that is not negative to a finite number
    gives a number that is not smaller: rounding to nearest is monotone and
    leaves the finite number, which is representable, where it is. *)
Lemma ieee_add_mono x c :
  IEEE.finiteb x = true ->
  PrimFloat.leb (IEEE.of_int64 0) c = true ->
  PrimFloat.leb x (PrimFloat.add x c) = true.
Proof.
  intros Fx Hc. rewrite FloatAxioms.leb_spec, FloatAxioms.add_spec.
  apply finiteb_SF in Fx. apply leb_zero_SF in Hc.
  apply SFadd_mono; auto using Prim2SF_valid.
Qed.

Lemma ieee_leb_refl x : IEEE.finiteb x = true -> PrimFloat.leb x x = true.
Proof.
  intros Fx. rewrite FloatAxioms.leb_spec. apply SFleb_refl.
  apply finiteb_SF. assumption.
Qed.

#[global] Instance ieee_laws : Float64Laws float := {|
  f64_finite := IEEE.finiteb;
  f64_of_int64_nonneg := ieee_of_int64_nonneg;
  f64_of_int64_finite := ieee_of_int64_finite;
  f64_mul_nonneg := ieee_mul_nonneg;
  f64_div_nonneg := ieee_div_nonneg;
  f64_add_nonneg := ieee_add_nonneg;
  f64_add_mono := ieee_add_mono;
  f64_leb_refl := ieee_leb_refl
|}.

(** ** Examples and witnesses *)

Set Warnings "-inexact-float".

Ltac by_computation :=
  vm_compute;
  first [ reflexivity
        | intro; discriminate
        | split; intro; discriminate
        | repeat split; first [reflexivity | intro; discriminate] ].

(** The first test of [TestPricingManager_CalculateCost], to the last bit,
    and within the tolerance of the test. *)
Example CalculateCost_gpt4o_basic :
  CalculateCost Sample.testPricing "gpt-4o" 1000 500 0
  = (0x1.eb851eb851eb8p-8)%float
  /\ PrimFloat.ltb
       (PrimFloat.abs (CalculateCost Sample.testPricing "gpt-4o" 1000 500 0
                       - (0.0025 + 0.005))%float)
       0.0001%float = true.
Proof. split; vm_compute; reflexivity. Qed.

(** Cached tokens at an explicit cached price, and at the input price when
    the cached price is zero. *)
Example CalculateCost_cached :
  PrimFloat.ltb
    (PrimFloat.abs (CalculateCost Sample.testPricing "claude-3-5-sonnet" 1000 500 2000
                    - (0.003 + 0.0075 + 0.0006))%float)
    0.0001%float = true
  /\ CalculateCost Sample.testPricing "gpt-4o" 0 0 2000
     = CalculateCost Sample.testPricing "gpt-4o" 2000 0 0
  /\ CalculateCost Sample.testPricing "unknown-model" 1000 500 0 = 0%float.
Proof. repeat split; vm_compute; reflexivity. Qed.

(** C5, the claim as stated fails in [float64].  For the second case of
    [TestPricingManager_CalculateCost], 1000 input, 500 output and 2000
    cached tokens at the prices 3, 15 and 0.3 per million, the code returns
    0.011099999999999999, while the sum of the three products divided by
    1,000,000 once is 0.0111, the next [float64]. *)
Lemma cost_is_not_the_sum_divided_once :
  let pricing :=
    {| InputPricePerMillion := 3%float; OutputPricePerMillion := 15%float;
       CachedInputPricePerMillion := 0x1.3333333333333p-2%float |} in
  let cost := CalculateCost Sample.testPricing "claude-3-5-sonnet" 1000 500 2000 in
  GetPricing Sample.testPricing "claude-3-5-sonnet" = Some pricing
  /\ cost = 0x1.6bb98c7e2824p-7%float
  /\ costDividedOnce pricing 1000 500 2000 = 0x1.6bb98c7e28241p-7%float
  /\ PrimFloat.eqb cost (costDividedOnce pricing 1000 500 2000) = false
  /\ cost <> costDividedOnce pricing 1000 500 2000.
Proof.
  cbv zeta. split; [| split; [| split; [| split]]]; try (vm_compute; reflexivity).
  intros E. apply (f_equal Prim2SF) in E. vm_compute in E. discriminate.
Qed.

(** [time.Parse] reads an RFC 3339 time by the layout, which admits more
    than the grammar of RFC 3339: an hour of one digit, a comma before the
    fraction of a second, a zone of 24 hours.  A time without a zone, and a
    day that the month does not have, are refused. *)
Example ParseRFC3339_by_the_layout :
  GoTime.ParseRFC3339 "2020-01-01T09:00:00Z"
  = Some (GoTime.mkTime (1577869200 * GoTime.Second) 0)
  /\ GoTime.ParseRFC3339 "2020-01-01T9:00:00Z"
     = Some (GoTime.mkTime (1577869200 * GoTime.Second) 0)
  /\ GoTime.ParseRFC3339 "2020-01-01T09:00:00,5Z"
     = Some (GoTime.mkTime (1577869200 * GoTime.Second + 500000000) 0)
  /\ GoTime.ParseRFC3339 "2020-01-01T01:00:00-08:00"
     = Some (GoTime.mkTime (1577869200 * GoTime.Second) (-28800))
  /\ GoTime.ParseRFC3339 "2020-01-02T09:00:00+24:00"
     = Some (GoTime.mkTime (1577869200 * GoTime.Second) 86400)
  /\ GoTime.ParseRFC3339 "2020-01-01T09:00:00" = None
  /\ GoTime.ParseRFC3339 "2020-02-30T09:00:00Z" = None
  /\ IsExpired Sample.morning (Some (Sample.policyOf [] 0 0 "2020-01-01T9:00:00Z"))
     = true.
Proof. repeat split; vm_compute; reflexivity. Qed.

(** C2, the claim as stated fails: the row holds 1500 tokens against a limit
    of 1000, yet a model outside the allow-list is denied as
    [model_not_allowed], not as [token_limit_exceeded]. *)
Lemma token_limit_not_regardless_of_model :
  let m := Sample.overTokens in
  let p := Sample.policyOf ["gpt-4o"; "claude-3-5-sonnet"] 1000 0 "" in
  let u := Sample.rowOf "key-over-tokens" 1500 0 in
  let r := fst (CheckQuota Sample.morning "key-over-tokens" "gemini-2.0-flash" m) in
  policies m !! "key-over-tokens" = Some p
  /\ usage m !! "key-over-tokens" = Some u
  /\ 0 < MaxTokens p <= TotalTokens u
  /\ Allowed r = false
  /\ errorKind r = Some QuotaErrorTypeModelNotAllowed
  /\ errorKind r <> Some QuotaErrorTypeTokenLimitExceeded.
Proof.
  cbv zeta. split; [| split; [| split; [| split; [| split]]]].
  - vm_compute. reflexivity.
  - vm_compute. reflexivity.
  - cbn. lia.
  - vm_compute. reflexivity.
  - vm_compute. reflexivity.
  - vm_compute. discriminate.
Qed.

(** C2, the amended claim at the same key for an allowed model. *)
Lemma token_limit_denies_allowed_model :
  let r := fst (CheckQuota Sample.morning "key-over-tokens" "gpt-4o" Sample.overTokens) in
  Allowed r = false
  /\ errorKind r = Some QuotaErrorTypeTokenLimitExceeded
  /\ Error r = Some (NewTokenLimitExceededError 1500 1000).
Proof.
  apply (token_limit_denies_once_reached Sample.morning "key-over-tokens" "gpt-4o"
           Sample.overTokens
           (Sample.policyOf ["gpt-4o"; "claude-3-5-sonnet"] 1000 0 "")
           (Sample.rowOf "key-over-tokens" 1500 0)).
  - vm_compute. reflexivity.
  - cbn. lia.
  - vm_compute. reflexivity.
  - cbn. lia.
  - vm_compute. reflexivity.
  - vm_compute. reflexivity.
Defined.

(** C3, the claim as stated fails: the policy caps tokens at 1000 and cost
    at 10 USD and the key has no row; the result is allowed and carries
    neither margin, where zero usage would give the margins 1000 and 10. *)
Lemma no_margins_without_a_row :
  let m := Sample.unusedKey in
  let r := fst (CheckQuota Sample.morning "key-valid" "gpt-4o" m) in
  policies m !! "key-valid" = Some (Sample.policyOf [] 1000 10 "")
  /\ usage m !! "key-valid" = None
  /\ Allowed r = true
  /\ RemainingTokens r = None
  /\ RemainingTokens r <> Some 1000
  /\ RemainingCostUSD r = None.
Proof.
  cbv zeta. repeat split; vm_compute; first [reflexivity | discriminate].
Qed.

(** C3, the amended claim at a key with a row: 400 of 1000 tokens and 2.5 of
    10 USD used leave the margins 600 and 7.5. *)
Lemma margins_with_a_row :
  let r := fst (CheckQuota Sample.morning "key-valid" "gpt-4o" Sample.usedKey) in
  RemainingTokens r = Some 600 /\ RemainingCostUSD r = Some 7.5%float.
Proof.
  exact (allowed_result_margins Sample.morning "key-valid" "gpt-4o" Sample.usedKey
           (Sample.policyOf [] 1000 10 "") eq_refl eq_refl).
Defined.

(** C6 on the manager of [TestManager_UpdateUsage]: the two calls of the
    specification leave 4500 tokens and 2 requests. *)
Lemma two_updates_of_the_test :
  let m1 := snd (UpdateUsage Sample.morning Sample.morning "test-key" "gpt-4o"
                   1000 500 0 Sample.fresh) in
  let m2 := snd (UpdateUsage Sample.evening Sample.evening "test-key" "gpt-4o"
                   2000 1000 0 m1) in
  rowTokens m1 "test-key" = 1500
  /\ rowRequests m1 "test-key" = 1
  /\ rowTokens m2 "test-key" = 4500
  /\ rowRequests m2 "test-key" = 2.
Proof.
  apply (UpdateUsage_accumulates Sample.fresh Sample.morning Sample.morning
           Sample.evening Sample.evening "test-key" "gpt-4o" 1000 500 0).
  vm_compute. reflexivity.
Defined.

(** Cached tokens leave the token total alone. *)
Example cached_tokens_not_counted :
  rowTokens (snd (UpdateUsage Sample.morning Sample.morning "test-key"
                    "claude-3-5-sonnet" 1000 500 2000 Sample.fresh)) "test-key"
  = 1500.
Proof. vm_compute. reflexivity. Qed.

(** C7, the claim as stated fails twice.  Two more input tokens on a row
    that holds [2^63 - 2] tokens wrap the total around to [-2^63]; and
    [SetUsage], which is no reset, puts a row with smaller counters in the
    place of the row of the key. *)
Lemma counters_lowered_without_reset :
  (let m := Sample.nearOverflow in
   let m' := snd (UpdateUsage Sample.morning Sample.morning "k" "gpt-4o" 2 0 0 m) in
   rowTokens m "k" = Int64.max - 1
   /\ rowTokens m' "k" = Int64.min
   /\ rowTokens m' "k" < rowTokens m "k")
  /\ (let m := Sample.overTokens in
      let m' := snd (SetUsage "key-over-tokens" (Sample.rowOf "key-over-tokens" 0 0) m) in
      rowTokens m "key-over-tokens" = 1500
      /\ rowTokens m' "key-over-tokens" = 0).
Proof.
  cbv zeta. repeat split; vm_compute; reflexivity.
Qed.

(** C7, the amended claim at an update of the key that has used 400 tokens
    and 2.5 USD, in IEEE-754 arithmetic. *)
Lemma counters_grow_on_update :
  let m := Sample.usedKey in
  let m' := snd (UpdateUsage Sample.evening Sample.evening "key-valid" "gpt-4o"
                   2000 1000 300 m) in
  (rowTokens m "key-valid" <= rowTokens m' "key-valid"
   /\ (rowCost m "key-valid" <=? rowCost m' "key-valid")%f64 = true
   /\ rowRequests m "key-valid" <= rowRequests m' "key-valid")
  /\ (forall k, k <> "key-valid" -> usage m' !! k = usage m !! k)
  /\ (forall c, keepsRows c = true -> usage (after c m) = usage m)
  /\ (forall now k key u, usage m !! key = Some u ->
        usage (after (CallGetUsage now k) m) !! key = Some u).
Proof.
  apply (counters_never_lowered_by_traffic Sample.usedKey Sample.evening
           Sample.evening "key-valid" "gpt-4o" 2000 1000 300); by_computation.
Defined.

(** C8, the claim as stated fails: [GetUsage], which is neither
    [UpdateUsage] nor [SetUsage], gives a key its first row. *)
Lemma GetUsage_adds_a_row :
  let m := Sample.unusedKey in
  let m' := after (CallGetUsage Sample.morning "key-valid") m in
  usage m !! "key-valid" = None
  /\ usage m' !! "key-valid" = Some (newUsage "key-valid" Sample.morning).
Proof. cbv zeta. split; vm_compute; reflexivity. Qed.

(** C8, the amended claim at a call of [CheckQuota] on a manager with one
    row. *)
Lemma CheckQuota_creates_and_removes_no_row :
  let c := CallCheckQuota Sample.morning "key-valid" "gpt-4o" in
  let c' := CallCheckQuota Sample.morning "key-over-tokens" "gpt-4o" in
  usage (after c Sample.overTokens) !! "key-valid" = None
  /\ is_Some (usage (after c' Sample.overTokens) !! "key-over-tokens").
Proof.
  cbv zeta. split.
  - apply (rows_created_and_removed_only_by
             (CallCheckQuota Sample.morning "key-valid" "gpt-4o")
             Sample.overTokens "key-valid"); reflexivity.
  - apply (rows_created_and_removed_only_by
             (CallCheckQuota Sample.morning "key-over-tokens" "gpt-4o")
             Sample.overTokens "key-over-tokens"); [| reflexivity].
    exists (Sample.rowOf "key-over-tokens" 1500 0). vm_compute. reflexivity.
Defined.

(** C9 at a process that has just started: the first [StartAutoSave] makes
    the channel and starts the goroutine, the second changes nothing, and
    [StopAutoSave] before any start returns with the state as it was. *)
Lemma autosave_controls_at_startup :
  let w := initialWorld Sample.testPricing in
  StartAutoSave (StartAutoSave w) = StartAutoSave w
  /\ StopAutoSave Sample.morning Sample.ioOk w = Returned w
  /\ goroutines (StartAutoSave (StartAutoSave w)) = 1%nat.
Proof.
  cbv zeta.
  destruct (autosave_controls_idempotent (initialWorld Sample.testPricing)
              Sample.morning Sample.ioOk Sample.testPricing) as (Hstart & Hstop & _).
  split; [exact Hstart | split; [exact Hstop |]].
  vm_compute. reflexivity.
Defined.

(** ** Expiration *)

Section Expiration.

Context {F : Type} `{Float64 F}.

Implicit Types (p : APIKeyPolicy F).

(** A policy without [expiresAt], and the nil policy, never expire. *)
Lemma IsExpired_without_expiry now p :
  ExpiresAt p = "" -> IsExpired now (Some p) = false.
Proof. intros E. unfold IsExpired, HasExpiration. rewrite E. reflexivity. Qed.

Lemma IsExpired_nil now : IsExpired (F := F) now None = false.
Proof. reflexivity. Qed.

(** A string that parses as a date alone does not parse as an RFC 3339
    time: it ends where the layout of RFC 3339 asks for the [T]. *)
Lemma ParseDate_not_RFC3339 s t :
  GoTime.ParseDate s = Some t -> GoTime.ParseRFC3339 s = None.
Proof.
  unfold GoTime.ParseDate, GoTime.ParseRFC3339.
  destruct (list_ascii_of_string s) as [|c0 [|c1 [|c2 [|c3 [|c4 [|c5 [|c6 [|c7
    [|c8 [|c9 [|c10 l]]]]]]]]]]]; try discriminate.
  intros _.
  destruct (GoTime.parseDigits [c0; c1; c2; c3] 0) as [year|]; [| reflexivity].
  unfold GoTime.skip, GoTime.getnum.
  repeat first
    [ reflexivity
    | progress cbn [mbind option_bind]
    | match goal with
      | |- context [if ?b then _ else _] => destruct b
      end ].
Qed.

Lemma ParseDate_nonempty s t : GoTime.ParseDate s = Some t -> String.eqb s "" = false.
Proof. destruct s; [discriminate | reflexivity]. Qed.

(** The expiry of a date-only [expiresAt]: one second before the midnight
    that ends the day in UTC. *)
Lemma ParsedExpiresAt_date_only p t :
  GoTime.ParseDate (ExpiresAt p) = Some t ->
  ParsedExpiresAt (Some p) = GoTime.Add t (24 * GoTime.Hour - GoTime.Second).
Proof.
  intros E. unfold ParsedExpiresAt.
  rewrite (ParseDate_nonempty _ _ E), (ParseDate_not_RFC3339 _ _ E), E.
  reflexivity.
Qed.

Lemma IsExpired_date_only now p t :
  GoTime.ParseDate (ExpiresAt p) = Some t ->
  IsExpired now (Some p)
  = negb (GoTime.IsZero (GoTime.Add t (24 * GoTime.Hour - GoTime.Second)))
    && (GoTime.unixNano t + 86399 * GoTime.Second <? GoTime.unixNano now).
Proof.
  intros E. unfold IsExpired, HasExpiration.
  rewrite (ParseDate_nonempty _ _ E), (ParsedExpiresAt_date_only _ _ E).
  cbn [negb]. destruct (GoTime.IsZero _); reflexivity.
Qed.

End Expiration.

(** C4 in the morning: on 2026-11-01 at 09:00, eight hours west of UTC, a
    date-only [expiresAt] of today and of one year ahead have not expired,
    and one of a year ago has; this is [TestAPIKeyPolicy_IsExpired]. *)
Example IsExpired_in_the_morning :
  let now := Sample.morning in
  let today := GoTime.FormatDate now in
  let nextYear := GoTime.FormatDate (GoTime.AddYears now 1) in
  let lastYear := GoTime.FormatDate (GoTime.AddYears now (-1)) in
  (today, nextYear, lastYear) = ("2026-11-01", "2027-11-01", "2025-11-01")
  /\ IsExpired now (Some (Sample.policyOf [] 0 0 today)) = false
  /\ IsExpired now (Some (Sample.policyOf [] 0 0 nextYear)) = false
  /\ IsExpired now (Some (Sample.policyOf [] 0 0 lastYear)) = true
  /\ IsExpired now (Some (Sample.policyOf [] 0 0 "")) = false.
Proof. cbv zeta. repeat split; vm_compute; reflexivity. Qed.

(** C4 fails in the evening.  On 2026-11-01 at 20:00, eight hours west of
    UTC, today is still 2026-11-01, and a policy with the date-only
    [expiresAt] of today has expired: the expiry is 23:59:59 of that day in
    UTC, which is 15:59:59 on the clock of the process.  In UTC itself the
    policy has expired during the last second of the day. *)
Theorem date_only_today_expired_before_the_day_ends :
  (let now := Sample.evening in
   GoTime.FormatDate now = "2026-11-01"
   /\ ParsedExpiresAt (Some (Sample.policyOf [] 0 0 (GoTime.FormatDate now)))
      = GoTime.mkTime (1793577599 * GoTime.Second) 0
   /\ IsExpired now (Some (Sample.policyOf [] 0 0 (GoTime.FormatDate now))) = true)
  /\ (let now := Sample.lastSecond in
      GoTime.FormatDate now = "2026-11-01"
      /\ IsExpired now (Some (Sample.policyOf [] 0 0 (GoTime.FormatDate now))) = true).
Proof. cbv zeta. repeat split; vm_compute; reflexivity. Qed.

(** * Further properties of the code *)

(** ** Policies: allow-list and expiry *)

Section PolicyProperties.

Context {F : Type} `{Float64 F}.

Implicit Types (m : Manager F) (p : APIKeyPolicy F).

(** X1.  [IsModelAllowed] allows every model for the nil policy and for a
    policy with an empty allow-list, and otherwise exactly the members of
    the allow-list, compared byte by byte. *)
Theorem IsModelAllowed_iff (policy : option (APIKeyPolicy F)) model :
  IsModelAllowed policy model = true
  <-> match policy with
      | None => True
      | Some p => AllowedModels p = [] \/ model ∈ AllowedModels p
      end.
Proof.
  destruct policy as [p|]; [| split; reflexivity || auto].
  unfold IsModelAllowed, HasModelRestriction.
  destruct (AllowedModels p) as [|a l] eqn:E.
  - cbn. split; auto.
  - replace (0 <? Z.of_nat (length (a :: l))) with true
      by (symmetry; apply Z.ltb_lt; simpl; lia).
    cbn [negb]. rewrite containsModel_elem_of, bool_decide_eq_true.
    split; [auto | intros [?|?]; [discriminate | assumption]].
Qed.

(** The kind of a denial tells which check failed. *)
Lemma expired_kind now model policy (row : option (QuotaUsage F)) :
  errorKind (decision now model policy row) = Some QuotaErrorTypeExpired
  <-> IsExpired now policy = true.
Proof.
  unfold decision. destruct policy as [p|].
  - unfold failsExpiration. destruct (IsExpired now (Some p)).
    + cbn. split; auto.
    + destruct (failsAllowList p model); [cbn; split; discriminate |].
      destruct (failsTokenLimit p row); [cbn; split; discriminate |].
      destruct (failsCostLimit p row); [cbn; split; discriminate |].
      unfold errorKind. rewrite NewAllowedResult_Error. cbn. split; discriminate.
  - unfold errorKind. rewrite NewAllowedResult_Error. cbn. split; discriminate.
Qed.

Lemma IsExpired_later now later (policy : option (APIKeyPolicy F)) :
  GoTime.unixNano now <= GoTime.unixNano later ->
  IsExpired now policy = true -> IsExpired later policy = true.
Proof.
  intros Hle. unfold IsExpired.
  destruct (negb (HasExpiration policy)); [discriminate |].
  destruct (GoTime.IsZero (ParsedExpiresAt policy)); [discriminate |].
  unfold GoTime.After. rewrite !Z.ltb_lt. lia.
Qed.

(** X2.  Expiry is final.  Once [CheckQuota] has denied a key as expired,
    it denies the key as expired at every later instant, for every model
    and whatever has happened to the ledger and to the catalog, as long as
    the policy of the key is the same. *)
Theorem expired_key_stays_denied now later apiKey model model' m m' :
  policies m' !! apiKey = policies m !! apiKey ->
  GoTime.unixNano now <= GoTime.unixNano later ->
  errorKind (fst (CheckQuota now apiKey model m)) = Some QuotaErrorTypeExpired ->
  Allowed (fst (CheckQuota later apiKey model' m')) = false
  /\ errorKind (fst (CheckQuota later apiKey model' m')) = Some QuotaErrorTypeExpired.
Proof.
  intros Hsame Hle. rewrite !CheckQuota_decision, Hsame, expired_kind.
  intros Hexp. pose proof (IsExpired_later now later _ Hle Hexp) as Hlater.
  split; [| apply expired_kind; exact Hlater].
  unfold decision. destruct (policies m !! apiKey) as [p|]; [| discriminate].
  unfold failsExpiration. rewrite Hlater. reflexivity.
Qed.

(** X3.  An [expiresAt] that parses under neither layout is no expiry at
    all: [ParsedExpiresAt] is the zero time, the policy never expires, and
    [CheckQuota] never denies its key as expired. *)
Theorem unparsable_expiry_never_expires p :
  GoTime.ParseRFC3339 (ExpiresAt p) = None ->
  GoTime.ParseDate (ExpiresAt p) = None ->
  ParsedExpiresAt (Some p) = GoTime.zeroTime
  /\ (forall now, IsExpired now (Some p) = false)
  /\ (forall now apiKey model m,
        policies m !! apiKey = Some p ->
        errorKind (fst (CheckQuota now apiKey model m)) <> Some QuotaErrorTypeExpired).
Proof.
  intros Hrfc Hdate.
  assert (Hzero : ParsedExpiresAt (Some p) = GoTime.zeroTime).
  { unfold ParsedExpiresAt. rewrite Hrfc, Hdate.
    destruct (String.eqb (ExpiresAt p) ""); reflexivity. }
  assert (Hnever : forall now, IsExpired now (Some p) = false).
  { intros now. unfold IsExpired. rewrite Hzero.
    destruct (negb (HasExpiration (Some p))); reflexivity. }
  split; [exact Hzero | split; [exact Hnever |]].
  intros now apiKey model m Hp. rewrite CheckQuota_decision, Hp, expired_kind.
  rewrite Hnever. discriminate.
Qed.

(** A date that [ParseDate] accepts is a midnight in UTC. *)
Lemma ParseDate_midnight s t :
  GoTime.ParseDate s = Some t ->
  GoTime.zoneOffset t = 0
  /\ exists day, GoTime.unixNano t = day * GoTime.secondsPerDay * GoTime.Second.
Proof.
  unfold GoTime.ParseDate.
  destruct (list_ascii_of_string s) as [|c0 [|c1 [|c2 [|c3 [|c4 [|c5 [|c6 [|c7
    [|c8 [|c9 [|c10 l]]]]]]]]]]]; try discriminate.
  destruct (Ascii.eqb c4 "-" && Ascii.eqb c7 "-"); [| discriminate].
  destruct (GoTime.parseDigits [c0; c1; c2; c3] 0) as [y|]; [| discriminate].
  destruct (GoTime.parseDigits [c5; c6] 0) as [mo|]; [| discriminate].
  destruct (GoTime.parseDigits [c8; c9] 0) as [d|]; [| discriminate].
  destruct ((1 <=? mo) && (mo <=? 12) && (1 <=? d) && (d <=? GoTime.daysIn mo y));
    [| discriminate].
  intros [= <-]. split; [reflexivity |].
  exists (GoTime.dayNumber y mo d). reflexivity.
Qed.

(** X4.  A date-only [expiresAt] expires at 23:59:59 of that day in UTC,
    whatever the zone of the clock that is read: the policy has expired
    exactly when the instant read is more than 86399 seconds past the
    midnight in UTC that starts the day. *)
Theorem date_only_expiry_is_end_of_day_in_UTC now p t :
  GoTime.ParseDate (ExpiresAt p) = Some t ->
  GoTime.zoneOffset t = 0
  /\ GoTime.unixNano t mod (GoTime.secondsPerDay * GoTime.Second) = 0
  /\ IsExpired now (Some p)
     = (GoTime.unixNano t + 86399 * GoTime.Second <? GoTime.unixNano now)
  /\ (forall now', GoTime.unixNano now' = GoTime.unixNano now ->
        IsExpired now' (Some p) = IsExpired now (Some p)).
Proof.
  intros E. destruct (ParseDate_midnight _ _ E) as [Hzone [day Hday]].
  assert (Hexp : forall n, IsExpired n (Some p)
            = (GoTime.unixNano t + 86399 * GoTime.Second <? GoTime.unixNano n)).
  { intros n. rewrite (IsExpired_date_only n p t E).
    replace (GoTime.IsZero _) with false; [reflexivity |].
    symmetry. unfold GoTime.IsZero, GoTime.Add. cbn [GoTime.unixNano].
    apply Z.eqb_neq. rewrite Hday.
    unfold GoTime.zeroNano, GoTime.Hour, GoTime.Second, GoTime.secondsPerDay. lia. }
  split; [exact Hzone | split; [| split]].
  - rewrite Hday, <- Z.mul_assoc. apply Z.mod_mul.
    unfold GoTime.secondsPerDay, GoTime.Second. lia.
  - apply Hexp.
  - intros now' Hsame. rewrite !Hexp, Hsame. reflexivity.
Qed.

(** X5.  A policy that restricts nothing ([HasAnyRestriction] is false)
    never denies: [CheckQuota] allows its key for every model at every
    instant, whatever the ledger holds, and reports no margin. *)
Theorem unrestricted_policy_never_denies now apiKey model m p :
  policies m !! apiKey = Some p ->
  HasAnyRestriction (Some p) = false ->
  let r := fst (CheckQuota now apiKey model m) in
  Allowed r = true /\ Error r = None
  /\ RemainingTokens r = None /\ RemainingCostUSD r = None.
Proof.
  intros Hp Hnone r. subst r. rewrite CheckQuota_decision, Hp.
  unfold HasAnyRestriction in Hnone.
  apply orb_false_elim in Hnone as [Hnone Hexp].
  apply orb_false_elim in Hnone as [Hnone Hcost].
  apply orb_false_elim in Hnone as [Hmodel Htok].
  unfold decision, failsExpiration, IsExpired. rewrite Hexp. cbn [negb].
  rewrite <- IsModelAllowed_spec. unfold IsModelAllowed. rewrite Hmodel. cbn [negb].
  rewrite <- token_check_spec, <- cost_check_spec, Htok, Hcost.
  rewrite NewAllowedResult_Allowed, NewAllowedResult_Error,
    NewAllowedResult_RemainingTokens, NewAllowedResult_RemainingCostUSD.
  rewrite Htok, Hcost. destruct (usage m !! apiKey); auto.
Qed.

End PolicyProperties.

(** ** The manager: results, policies, rows *)

Section ManagerProperties.

Context {F : Type} `{Float64 F}.

Implicit Types (m : Manager F) (p : APIKeyPolicy F) (u : QuotaUsage F).

Lemma NewAllowedResult_Usage policy row :
  Usage (NewAllowedResult (F := F) policy row) = row.
Proof.
  unfold NewAllowedResult. destruct policy, row; try reflexivity.
  destruct (HasTokenLimit _), (HasCostLimit _); reflexivity.
Qed.

Lemma NewAllowedResult_Policy policy row :
  Policy_ (NewAllowedResult (F := F) policy row) = policy.
Proof.
  unfold NewAllowedResult. destruct policy, row; try reflexivity.
  destruct (HasTokenLimit _), (HasCostLimit _); reflexivity.
Qed.

(** A decision is an allowed result, or a denial with the error of one of
    the four checks, whose code is the string of its type. *)
Lemma decision_cases now model policy (row : option (QuotaUsage F)) :
  decision now model policy row = NewAllowedResult policy row
  \/ exists err,
       decision now model policy row = NewDeniedResult err policy row
       /\ Code err = QuotaErrorType_string (Type_ err).
Proof.
  unfold decision. destruct policy as [p|]; [| auto].
  destruct (failsExpiration now p); [right; eexists; split; reflexivity |].
  destruct (failsAllowList p model); [right; eexists; split; reflexivity |].
  destruct (failsTokenLimit p row); [right; eexists; split; reflexivity |].
  destruct (failsCostLimit p row); [right; eexists; split; reflexivity |].
  auto.
Qed.

(** X6.  The result of [CheckQuota] is coherent: it is allowed exactly when
    it carries no error, it carries the policy and the row of the key as
    the manager holds them, the code of its error is the string of the error
    type, and a denial carries no margin. *)
Theorem CheckQuota_result_coherent now apiKey model m :
  let r := fst (CheckQuota now apiKey model m) in
  (Allowed r = true <-> Error r = None)
  /\ Policy_ r = policies m !! apiKey
  /\ Usage r = usage m !! apiKey
  /\ (forall err, Error r = Some err -> Code err = QuotaErrorType_string (Type_ err))
  /\ (Allowed r = false -> RemainingTokens r = None /\ RemainingCostUSD r = None).
Proof.
  intros r. subst r. rewrite CheckQuota_decision.
  destruct (decision_cases now model (policies m !! apiKey) (usage m !! apiKey))
    as [-> | (err & -> & Hcode)].
  - rewrite NewAllowedResult_Allowed, NewAllowedResult_Error,
      NewAllowedResult_Policy, NewAllowedResult_Usage.
    split; [split; reflexivity |]. do 2 (split; [reflexivity |]).
    split; [intros ? [=] | discriminate].
  - cbn. split; [split; discriminate |]. do 2 (split; [reflexivity |]).
    split; [intros ? [= <-]; exact Hcode | auto].
Qed.

(** The loop that copies a map into another, entry by entry, ends with the
    union that prefers the entries copied. *)
Lemma map_fold_insert_union {A} (src base : gmap string A) :
  map_fold (fun k v acc => <[k := v]> acc) base src = src ∪ base.
Proof.
  apply (map_fold_weak_ind (fun r (s : gmap string A) => r = s ∪ base)).
  - symmetry. apply (left_id_L ∅ (∪)).
  - intros k v s r _ ->. apply insert_union_l.
Qed.

(** X7.  [LoadPolicies] with a configuration leaves exactly the policies of
    the configuration: a key the configuration does not name has no policy
    afterwards, whatever policy it had.  With the nil configuration nothing
    changes.  The ledger and the catalog are never touched. *)
Theorem LoadPolicies_replaces_policies cfg m :
  let m' := snd (LoadPolicies cfg m) in
  policies m' = match cfg with
                | Some cfg => APIKeyPolicies cfg
                | None => policies m
                end
  /\ usage m' = usage m
  /\ pricing m' = pricing m.
Proof.
  destruct cfg as [cfg|]; cbn; [| auto].
  rewrite map_fold_insert_union. rewrite (right_id_L ∅ (∪)). auto.
Qed.

(** X8.  [GetUsage] is idempotent: a second call, at any later reading of
    the clock, returns the row of the first and leaves the manager as the
    first left it; [GetUsageReadOnly] then finds that row; the row of a key
    that had none is empty, bears the key and the time of the first call. *)
Theorem GetUsage_idempotent now later apiKey m :
  let u := fst (GetUsage now apiKey m) in
  let m1 := snd (GetUsage now apiKey m) in
  GetUsage later apiKey m1 = (u, m1)
  /\ GetUsageReadOnly apiKey m1 = (Some u, m1)
  /\ (usage m !! apiKey = None -> u = newUsage apiKey now)
  /\ policies m1 = policies m /\ pricing m1 = pricing m.
Proof.
  unfold GetUsage, GetUsageReadOnly, gets.
  destruct (usage m !! apiKey) as [u0|] eqn:E; cbn.
  - rewrite E. split; [reflexivity |]. split; [reflexivity |].
    split; [discriminate | auto].
  - rewrite lookup_insert_eq. auto.
Qed.

Lemma Int64_wrap_add_l a b : Int64.wrap (Int64.wrap a + b) = Int64.wrap (a + b).
Proof.
  unfold Int64.wrap. f_equal.
  replace ((a - Int64.min) mod 2 ^ 64 + Int64.min + b - Int64.min)
    with ((a - Int64.min) mod 2 ^ 64 + b) by ring.
  replace (a + b - Int64.min) with ((a - Int64.min) + b) by ring.
  rewrite Zplus_mod_idemp_l. reflexivity.
Qed.

Lemma Int64_add_swap a b c :
  Int64.add (Int64.add a b) c = Int64.add (Int64.add a c) b.
Proof.
  unfold Int64.add. rewrite !Int64_wrap_add_l. f_equal. ring.
Qed.

Lemma UpdateUsage_usage m created used apiKey model i o c :
  usage (snd (UpdateUsage created used apiKey model i o c m))
  = <[apiKey :=
        {| APIKey := APIKey (priorRow m created apiKey);
           TotalTokens :=
             Int64.add (TotalTokens (priorRow m created apiKey)) (Int64.add i o);
           TotalCostUSD :=
             (TotalCostUSD (priorRow m created apiKey)
              + CalculateCost (pricing m) model i o c)%f64;
           TotalRequests := Int64.add (TotalRequests (priorRow m created apiKey)) 1;
           LastUsedAt := used;
           CreatedAt := CreatedAt (priorRow m created apiKey) |}]> (usage m).
Proof.
  unfold UpdateUsage, priorRow.
  destruct (usage m !! apiKey) as [u|]; cbn; [reflexivity |].
  apply insert_insert_eq.
Qed.

(** X9.  Updates compose in any order.  Two calls of [UpdateUsage] for
    different keys commute: either order leaves the same manager.  For the
    same key the token total and the request count do not depend on the
    order of the two calls, in the arithmetic of [int64]. *)
Theorem UpdateUsage_order_independent m
    created1 used1 k1 model1 i1 o1 c1 created2 used2 k2 model2 i2 o2 c2 :
  let first := UpdateUsage created1 used1 k1 model1 i1 o1 c1 in
  let second := UpdateUsage created2 used2 k2 model2 i2 o2 c2 in
  let m12 := snd (second (snd (first m))) in
  let m21 := snd (first (snd (second m))) in
  (k1 <> k2 -> m12 = m21)
  /\ (forall k, rowTokens m12 k = rowTokens m21 k)
  /\ (forall k, rowRequests m12 k = rowRequests m21 k).
Proof.
  intros first second m12 m21.
  assert (Hdiff : k1 <> k2 -> m12 = m21).
  { intros Hne. subst m12 m21 first second.
    pose proof (UpdateUsage_frame m created1 used1 k1 model1 i1 o1 c1) as [Hp1 Hc1].
    pose proof (UpdateUsage_frame m created2 used2 k2 model2 i2 o2 c2) as [Hp2 Hc2].
    pose proof (UpdateUsage_usage m created1 used1 k1 model1 i1 o1 c1) as Hu1.
    pose proof (UpdateUsage_usage m created2 used2 k2 model2 i2 o2 c2) as Hu2.
    assert (Hrow2 : priorRow (snd (UpdateUsage created1 used1 k1 model1 i1 o1 c1 m))
                      created2 k2 = priorRow m created2 k2).
    { unfold priorRow. rewrite UpdateUsage_other by congruence. reflexivity. }
    assert (Hrow1 : priorRow (snd (UpdateUsage created2 used2 k2 model2 i2 o2 c2 m))
                      created1 k1 = priorRow m created1 k1).
    { unfold priorRow. rewrite UpdateUsage_other by congruence. reflexivity. }
    revert Hp1 Hc1 Hu1 Hrow2 Hp2 Hc2 Hu2 Hrow1.
    generalize (snd (UpdateUsage created1 used1 k1 model1 i1 o1 c1 m)) as m1.
    generalize (snd (UpdateUsage created2 used2 k2 model2 i2 o2 c2 m)) as m2.
    intros m2 m1 Hp1 Hc1 Hu1 Hrow2 Hp2 Hc2 Hu2 Hrow1.
    pose proof (UpdateUsage_frame m1 created2 used2 k2 model2 i2 o2 c2) as [Hp12 Hc12].
    pose proof (UpdateUsage_frame m2 created1 used1 k1 model1 i1 o1 c1) as [Hp21 Hc21].
    pose proof (UpdateUsage_usage m1 created2 used2 k2 model2 i2 o2 c2) as Hu12.
    pose proof (UpdateUsage_usage m2 created1 used1 k1 model1 i1 o1 c1) as Hu21.
    rewrite Hrow2, Hc1, Hu1 in Hu12. rewrite Hrow1, Hc2, Hu2 in Hu21.
    rewrite insert_insert_ne in Hu21 by congruence.
    destruct (snd (UpdateUsage created2 used2 k2 model2 i2 o2 c2 m1)) as [ps12 us12 pr12].
    destruct (snd (UpdateUsage created1 used1 k1 model1 i1 o1 c1 m2)) as [ps21 us21 pr21].
    cbn in *. congruence. }
  split; [exact Hdiff |].
  assert (Hsame : k1 = k2 -> forall k,
            rowTokens m12 k = rowTokens m21 k /\ rowRequests m12 k = rowRequests m21 k).
  { intros <- k. subst m12 m21 first second.
    destruct (decide (k = k1)) as [->|Hne].
    - repeat match goal with
             | |- context [snd (UpdateUsage ?c ?u k1 ?md ?i ?o ?ca ?mm)] =>
                 let E := fresh "E" in
                 pose proof (UpdateUsage_counters mm c u k1 md i o ca) as E;
                 cbv zeta in E; destruct E as (-> & -> & _)
             end.
      split; [| apply Int64_add_swap]. apply Int64_add_swap.
    - unfold rowTokens, rowRequests. rewrite !UpdateUsage_other by assumption. auto. }
  destruct (decide (k1 = k2)) as [E|Hne].
  - split; intros k; apply (Hsame E k).
  - rewrite (Hdiff Hne). auto.
Qed.

(** X10.  After [ResetUsage] of a key, [CheckQuota] never denies that key
    for a token or a cost limit, whatever its policy: what is left are the
    denials for expiry and for the allow-list.  The verdicts for the other
    keys are as before. *)
Theorem ResetUsage_lifts_limits now apiKey model m :
  let m' := snd (ResetUsage apiKey m) in
  let r := fst (CheckQuota now apiKey model m') in
  errorKind r <> Some QuotaErrorTypeTokenLimitExceeded
  /\ errorKind r <> Some QuotaErrorTypeCostLimitExceeded
  /\ (forall k model', k <> apiKey ->
        fst (CheckQuota now k model' m') = fst (CheckQuota now k model' m)).
Proof.
  intros m' r. subst r m'.
  assert (Hu : usage (snd (ResetUsage apiKey m)) = delete apiKey (usage m))
    by reflexivity.
  assert (Hp : policies (snd (ResetUsage apiKey m)) = policies m) by reflexivity.
  rewrite CheckQuota_decision, Hu, Hp, lookup_delete_eq.
  assert (Hkind : forall kind,
            kind = QuotaErrorTypeTokenLimitExceeded
            \/ kind = QuotaErrorTypeCostLimitExceeded ->
            errorKind (decision now model (policies m !! apiKey) None) <> Some kind).
  { intros kind Hk. unfold decision.
    destruct (policies m !! apiKey) as [p|];
      [| unfold errorKind; rewrite NewAllowedResult_Error; discriminate].
    destruct (failsExpiration now p); [cbn; destruct Hk as [-> | ->]; discriminate |].
    destruct (failsAllowList p model); [cbn; destruct Hk as [-> | ->]; discriminate |].
    unfold failsTokenLimit, failsCostLimit. rewrite !andb_false_r.
    unfold errorKind. rewrite NewAllowedResult_Error. discriminate. }
  split; [apply Hkind; auto | split; [apply Hkind; auto |]].
  intros k model' Hne. rewrite !CheckQuota_decision, Hu, Hp.
  rewrite lookup_delete_ne by congruence. reflexivity.
Qed.

(** X11.  [GetQuotaStatus] and [CheckQuota] agree: the status shows the
    masked key, the row that the result carries and whether there is a
    policy, and, when the result is allowed, the margins of the result.
    Neither call changes the manager. *)
Theorem GetQuotaStatus_agrees_with_CheckQuota now apiKey model m :
  let s := fst (GetQuotaStatus now apiKey m) in
  let r := fst (CheckQuota now apiKey model m) in
  st_api_key s = maskAPIKey apiKey
  /\ st_usage s = Usage r
  /\ st_has_usage s = bool_decide (is_Some (usage m !! apiKey))
  /\ st_has_policy s = bool_decide (is_Some (Policy_ r))
  /\ (Allowed r = true ->
      st_remaining_tokens s = RemainingTokens r
      /\ st_remaining_cost_usd s = RemainingCostUSD r)
  /\ snd (GetQuotaStatus now apiKey m) = m.
Proof.
  intros s r. subst s r. rewrite CheckQuota_decision.
  split; [reflexivity |].
  destruct (decision_cases now model (policies m !! apiKey) (usage m !! apiKey))
    as [-> | (err & -> & _)].
  - rewrite NewAllowedResult_Usage, NewAllowedResult_Policy,
      NewAllowedResult_RemainingTokens, NewAllowedResult_RemainingCostUSD.
    cbn. destruct (usage m !! apiKey) as [u|], (policies m !! apiKey) as [p|];
      cbn; auto 10.
  - cbn. do 3 (split; [reflexivity |]). split; [discriminate | reflexivity].
Qed.

End ManagerProperties.

(** ** The catalog: explicit prices, defaults and the pricing file *)

Section CatalogProperties.

Context {F : Type} `{Float64 F}.

Implicit Types (pm : PricingManager F).

(** X12.  [SetPricing] reprices one model: [GetPricing] then finds the new
    price for that model and the old answer for every other, and
    [CalculateCost] charges the new price for that model and is unchanged
    for every other. *)
Theorem SetPricing_reprices_one_model pm model pricing model' input output cached :
  let pm' := SetPricing model pricing pm in
  GetPricing pm' model = Some pricing
  /\ (model' <> model -> GetPricing pm' model' = GetPricing pm model')
  /\ (model' <> model ->
      CalculateCost pm' model' input output cached
      = CalculateCost pm model' input output cached)
  /\ CalculateCost pm' model input output cached
     = costTermByTerm pricing input output cached
  /\ filePath pm' = filePath pm.
Proof.
  intros pm'. subst pm'.
  assert (Hset : GetPricing (SetPricing model pricing pm) model = Some pricing)
    by apply lookup_insert_eq.
  assert (Hother : model' <> model ->
            GetPricing (SetPricing model pricing pm) model' = GetPricing pm model').
  { intros Hne. unfold GetPricing, SetPricing. cbn.
    apply lookup_insert_ne. congruence. }
  split; [exact Hset | split; [exact Hother | split; [| split]]].
  - intros Hne. unfold CalculateCost. rewrite (Hother Hne). reflexivity.
  - apply CalculateCost_known. exact Hset.
  - reflexivity.
Qed.

(** X13.  [SetDefaultPricing] only fills gaps: a model that has a price
    keeps it, a model without one gets the default if there is one, and a
    second call with the same defaults changes nothing. *)
Theorem SetDefaultPricing_fills_gaps_only pm defaults model :
  GetPricing (SetDefaultPricing defaults pm) model
  = match GetPricing pm model with
    | Some pricing => Some pricing
    | None => defaults !! model
    end
  /\ SetDefaultPricing defaults (SetDefaultPricing defaults pm)
     = SetDefaultPricing defaults pm.
Proof.
  split.
  - unfold GetPricing, SetDefaultPricing. cbn. rewrite lookup_union.
    destruct (pricing_table pm !! model), (defaults !! model); reflexivity.
  - unfold SetDefaultPricing. cbn. f_equal.
    rewrite <- (assoc_L (∪)). f_equal. apply (idemp (∪)).
Qed.

Lemma LoadFromFile_table fs read_ok pm :
  LoadFromFile fs read_ok pm
  = match loadedPricing fs read_ok pm with
    | Some t =>
        (None, {| pricing_table := t ∪ pricing_table pm; filePath := filePath pm |})
    | None => (fst (LoadFromFile fs read_ok pm), pm)
    end.
Proof.
  unfold LoadFromFile, loadedPricing.
  destruct (String.eqb (filePath pm) ""); [reflexivity |].
  destruct (fs !! filePath pm) as [[t|]|]; destruct read_ok; cbn; try reflexivity.
  rewrite map_fold_insert_union. reflexivity.
Qed.

(** X14.  [LoadFromFile] changes the catalog only when it has read and
    parsed the file: then every model of the file has the price of the file
    and every other model the price it had.  Without a path and without a
    file it returns no error and changes nothing; when the file cannot be
    read or parsed it returns an error and changes nothing.  The path is
    kept in every case. *)
Theorem LoadFromFile_overrides_or_keeps fs read_ok pm model :
  let err := fst (LoadFromFile fs read_ok pm) in
  let pm' := snd (LoadFromFile fs read_ok pm) in
  filePath pm' = filePath pm
  /\ match loadedPricing fs read_ok pm with
     | Some t =>
         err = None
         /\ GetPricing pm' model
            = match t !! model with
              | Some pricing => Some pricing
              | None => GetPricing pm model
              end
     | None =>
         pm' = pm
         /\ (err = None <-> (filePath pm = "" \/ fs !! filePath pm = None))
     end.
Proof.
  intros err pm'. subst err pm'. rewrite LoadFromFile_table.
  destruct (loadedPricing fs read_ok pm) as [t|] eqn:E; cbn.
  - split; [reflexivity | split; [reflexivity |]].
    unfold GetPricing. cbn. rewrite lookup_union.
    destruct (t !! model), (pricing_table pm !! model); reflexivity.
  - split; [reflexivity | split; [reflexivity |]].
    unfold LoadFromFile, loadedPricing in *.
    destruct (String.eqb_spec (filePath pm) "") as [Hp|Hp]; [cbn; tauto |].
    destruct (fs !! filePath pm) as [[t|]|]; destruct read_ok; cbn in *;
      try discriminate;
      (split; [intros E0; first [discriminate E0 | tauto]
              | intros [E0|E0]; congruence]).
Qed.

(** X15.  The file wins over the defaults in either order: loading the
    file before or after [SetDefaultPricing] leaves the same catalog, with
    the same error. *)
Theorem LoadFromFile_commutes_with_defaults fs read_ok pm defaults :
  LoadFromFile fs read_ok (SetDefaultPricing defaults pm)
  = (fst (LoadFromFile fs read_ok pm),
     SetDefaultPricing defaults (snd (LoadFromFile fs read_ok pm))).
Proof.
  rewrite (LoadFromFile_table fs read_ok pm).
  rewrite (LoadFromFile_table fs read_ok (SetDefaultPricing defaults pm)).
  assert (Hl : loadedPricing fs read_ok (SetDefaultPricing defaults pm)
               = loadedPricing fs read_ok pm) by reflexivity.
  rewrite Hl. destruct (loadedPricing fs read_ok pm) as [t|]; cbn.
  - unfold SetDefaultPricing. cbn. rewrite (assoc_L (∪)). reflexivity.
  - f_equal. unfold LoadFromFile. cbn.
    destruct (String.eqb (filePath pm) ""); [reflexivity |].
    destruct (fs !! filePath pm) as [[t|]|]; destruct read_ok; reflexivity.
Qed.

(** X16.  [LoadFromGitStore] with the empty directory does nothing.  With
    a directory it is [LoadFromFile] at [<dir>/config/pricing.json], and the
    manager keeps that path afterwards, also when the load has failed. *)
Theorem LoadFromGitStore_sets_the_path Join dir fs read_ok pm :
  LoadFromGitStore Join "" fs read_ok pm = (None, pm)
  /\ (dir <> "" ->
      LoadFromGitStore Join dir fs read_ok pm
      = LoadFromFile fs read_ok
          (SetPricingFilePath (Join dir "config" "pricing.json") pm)
      /\ filePath (snd (LoadFromGitStore Join dir fs read_ok pm))
         = Join dir "config" "pricing.json").
Proof.
  split; [reflexivity |]. intros Hdir. unfold LoadFromGitStore.
  destruct (String.eqb_spec dir "") as [?|_]; [contradiction |].
  split; [reflexivity |].
  pose proof (LoadFromFile_table fs read_ok
                (SetPricingFilePath (Join dir "config" "pricing.json") pm)) as E.
  rewrite E. destruct (loadedPricing _ _ _); reflexivity.
Qed.

(** X17.  A cost is never negative: for token counts that are not negative
    and a catalog entry whose prices are finite and not negative, and for a
    model without an entry, [CalculateCost] is at least zero (and so is not
    NaN). *)
Theorem cost_never_negative `{!Float64Laws F} pm model input output cached :
  0 <= input <= Int64.max -> 0 <= output <= Int64.max -> 0 <= cached <= Int64.max ->
  match GetPricing pm model with
  | Some pricing => pricingOk pricing = true
  | None => True
  end ->
  (f64_of_int64 0 <=? CalculateCost pm model input output cached)%f64 = true.
Proof.
  intros Hi Ho Hc Hp. apply CalculateCost_nonneg; try assumption.
  destruct (GetPricing pm model); [exact Hp | reflexivity].
Qed.

End CatalogProperties.

(** ** Persistence: loading, saving, the lifecycle *)

Section PersistenceProperties.

Context {F : Type} `{Float64 F}.

Implicit Types (w : World F) (m : Manager F).

Lemma set_usage_same m : set_usage (usage m) m = m.
Proof. destruct m; reflexivity. Qed.

Lemma map_fold_SetUsage (rows : gmap string (QuotaUsage F)) m :
  map_fold (fun apiKey u m => snd (SetUsage apiKey u m)) m rows
  = set_usage (rows ∪ usage m) m.
Proof.
  apply (map_fold_weak_ind
           (fun r (s : gmap string (QuotaUsage F)) => r = set_usage (s ∪ usage m) m)).
  - rewrite (left_id_L ∅ (∪)). symmetry. apply set_usage_same.
  - intros k v s r _ ->. unfold SetUsage, modify, set_usage. cbn. f_equal.
    apply insert_union_l.
Qed.

Lemma LoadUsageFromFile_loaded read_ok w :
  match loadedUsage read_ok w with
  | Some rows =>
      LoadUsageFromFile read_ok w
      = (None, log Info "Loaded quota usage"
                 (set_manager (set_usage (rows ∪ usage (manager w)) (manager w)) w))
  | None =>
      manager (snd (LoadUsageFromFile read_ok w)) = manager w
      /\ (is_Some (fst (LoadUsageFromFile read_ok w))
          -> snd (LoadUsageFromFile read_ok w) = w)
      /\ (fst (LoadUsageFromFile read_ok w) = None
          <-> persistencePath w <> "" /\ files w !! persistencePath w = None)
  end.
Proof.
  unfold loadedUsage, LoadUsageFromFile.
  destruct (String.eqb_spec (persistencePath w) "") as [Hp|Hp].
  - cbn. split; [reflexivity | split; [reflexivity |]].
    split; [discriminate | intros [? _]; contradiction].
  - destruct (files w !! persistencePath w) as [[d|]|]; destruct read_ok; cbn.
    + rewrite map_fold_SetUsage. reflexivity.
    + split; [reflexivity | split; [reflexivity |]].
      split; [discriminate | intros [_ ?]; discriminate].
    + split; [reflexivity | split; [reflexivity |]].
      split; [discriminate | intros [_ ?]; discriminate].
    + split; [reflexivity | split; [reflexivity |]].
      split; [discriminate | intros [_ ?]; discriminate].
    + split; [reflexivity | split; [intros [? [=]] |]]. split; auto.
    + split; [reflexivity | split; [intros [? [=]] |]]. split; auto.
Qed.

Lemma LoadUsageFromFile_frame read_ok w :
  let w' := snd (LoadUsageFromFile read_ok w) in
  files w' = files w /\ persistencePath w' = persistencePath w
  /\ autoSaveRunning w' = autoSaveRunning w /\ stopAutoSave w' = stopAutoSave w
  /\ channels w' = channels w /\ goroutines w' = goroutines w
  /\ policies (manager w') = policies (manager w)
  /\ pricing (manager w') = pricing (manager w).
Proof.
  pose proof (LoadUsageFromFile_loaded read_ok w) as E.
  destruct (loadedUsage read_ok w) as [rows|].
  - rewrite E. cbn. auto 10.
  - destruct E as (Em & _ & _). cbv zeta. rewrite Em.
    unfold LoadUsageFromFile.
    destruct (String.eqb (persistencePath w) ""); [cbn; auto 10 |].
    destruct (files w !! persistencePath w) as [[d|]|]; destruct read_ok; cbn;
      auto 10.
Qed.

(** X18.  [LoadUsageFromFile] merges the snapshot into the ledger: a key of
    the snapshot gets the row of the snapshot, and every other key keeps the
    row it has, so a load does not clear the ledger.  When there is nothing
    to read (no path, no file, a file that cannot be read or parsed) the
    manager is as before: a missing file is no error, the other cases are
    errors that leave the whole state as it was.  The policies, the catalog,
    the files and the autosave controls are never touched. *)
Theorem LoadUsageFromFile_merges_or_keeps read_ok w apiKey :
  let err := fst (LoadUsageFromFile read_ok w) in
  let w' := snd (LoadUsageFromFile read_ok w) in
  (files w' = files w /\ persistencePath w' = persistencePath w
   /\ autoSaveRunning w' = autoSaveRunning w
   /\ policies (manager w') = policies (manager w)
   /\ pricing (manager w') = pricing (manager w))
  /\ match loadedUsage read_ok w with
     | Some rows =>
         err = None
         /\ usage (manager w') !! apiKey
            = match rows !! apiKey with
              | Some u => Some u
              | None => usage (manager w) !! apiKey
              end
     | None =>
         manager w' = manager w
         /\ (is_Some err -> w' = w)
         /\ (err = None
             <-> persistencePath w <> "" /\ files w !! persistencePath w = None)
     end.
Proof.
  intros err w'. subst err w'. split.
  - pose proof (LoadUsageFromFile_frame read_ok w) as Hf. cbv zeta in Hf.
    tauto.
  - pose proof (LoadUsageFromFile_loaded read_ok w) as E.
    destruct (loadedUsage read_ok w) as [rows|]; [| exact E].
    rewrite E. cbn. split; [reflexivity |]. rewrite lookup_union.
    destruct (rows !! apiKey), (usage (manager w) !! apiKey); reflexivity.
Qed.

Lemma append_tmp_ne (path : string) : (path ++ ".tmp")%string <> path.
Proof.
  induction path as [|a path IH]; [discriminate |].
  cbn. intros [= E]. exact (IH E).
Qed.

(** What [SaveUsageToFile] does, by the answers of the file system. *)
Lemma SaveUsageToFile_cases now io w :
  let path := persistencePath w in
  let tmp := (path ++ ".tmp")%string in
  let snapshot :=
    Snapshot {| pd_Usage := usage (manager w); pd_LastSaved := now;
                pd_Version := 1 |} in
  SaveUsageToFile now io w
  = if String.eqb path "" then (Some "persistence path not set", w)
    else if negb (marshal_ok io) then (Some "failed to marshal quota usage", w)
    else if negb (write_ok io)
         then (Some "failed to write quota usage temp file", w)
    else if negb (rename_ok io)
         then (Some "failed to rename quota usage file",
               set_files (delete tmp (<[tmp := snapshot]> (files w))) w)
    else (None,
          log Debug "Saved quota usage"
            (set_files (<[path := snapshot]>
                          (delete tmp (<[tmp := snapshot]> (files w)))) w)).
Proof.
  cbv zeta. unfold SaveUsageToFile, AllUsage, gets.
  destruct (String.eqb (persistencePath w) ""); [reflexivity |].
  assert (Hw : set_manager (manager w) w = w) by (destruct w; reflexivity).
  rewrite Hw.
  destruct (marshal_ok io), (write_ok io), (rename_ok io); reflexivity.
Qed.

(** X19.  [SaveUsageToFile] replaces the snapshot file in one step.  It
    succeeds exactly when a path is set and marshalling, writing and
    renaming all succeed, and then the file holds the ledger of that moment,
    the time of the save and version 1, and the temporary file is gone.
    When it fails the file is as it was.  No other file is touched, nor the
    manager, nor the autosave controls. *)
Theorem SaveUsageToFile_is_atomic now io w :
  let err := fst (SaveUsageToFile now io w) in
  let w' := snd (SaveUsageToFile now io w) in
  let path := persistencePath w in
  manager w' = manager w
  /\ persistencePath w' = path
  /\ autoSaveRunning w' = autoSaveRunning w
  /\ (err = None
      <-> path <> "" /\ marshal_ok io && write_ok io && rename_ok io = true)
  /\ match err with
     | None =>
         files w' !! path
         = Some (Snapshot {| pd_Usage := usage (manager w); pd_LastSaved := now;
                             pd_Version := 1 |})
         /\ files w' !! (path ++ ".tmp")%string = None
     | Some _ => files w' !! path = files w !! path
     end
  /\ (forall other, other <> path -> other <> (path ++ ".tmp")%string ->
        files w' !! other = files w !! other).
Proof.
  intros err w' path. subst err w' path.
  rewrite SaveUsageToFile_cases. cbv zeta.
  pose proof (append_tmp_ne (persistencePath w)) as Htmp.
  destruct (String.eqb_spec (persistencePath w) "") as [Hp|Hp].
  { cbn. do 3 (split; [reflexivity |]).
    split; [split; [discriminate | intros [? _]; contradiction] |].
    split; reflexivity. }
  destruct (marshal_ok io), (write_ok io), (rename_ok io); cbn;
    (do 3 (split; [reflexivity |]));
    (split; [split; [intros E; first [discriminate E | auto]
                    | intros [_ E]; first [discriminate E | reflexivity]] |]);
    try (split; reflexivity).
  - split; [split |].
    + apply lookup_insert_eq.
    + rewrite lookup_insert_ne by congruence. apply lookup_delete_eq.
    + intros other H1 H2. rewrite lookup_insert_ne by congruence.
      rewrite lookup_delete_ne by congruence. apply lookup_insert_ne. congruence.
  - split.
    + rewrite lookup_delete_ne by congruence. apply lookup_insert_ne. congruence.
    + intros other H1 H2. rewrite lookup_delete_ne by congruence.
      apply lookup_insert_ne. congruence.
Qed.


Lemma SaveUsageToFile_goroutines now io w :
  goroutines (snd (SaveUsageToFile now io w)) = goroutines w.
Proof.
  rewrite SaveUsageToFile_cases. cbv zeta.
  destruct (String.eqb (persistencePath w) ""); [reflexivity |].
  destruct (marshal_ok io), (write_ok io), (rename_ok io); reflexivity.
Qed.

Lemma SetPersistencePath_controls authDir absPath mkdir_ok w :
  let w' := snd (SetPersistencePath authDir absPath mkdir_ok w) in
  autoSaveRunning w' = autoSaveRunning w /\ stopAutoSave w' = stopAutoSave w
  /\ channels w' = channels w /\ goroutines w' = goroutines w
  /\ manager w' = manager w /\ files w' = files w.
Proof.
  unfold SetPersistencePath.
  destruct (String.eqb authDir ""); [cbn; auto 10 |].
  destruct absPath as [dir|]; [| cbn; auto 10].
  destruct mkdir_ok; cbn; auto 10.
Qed.

Lemma controllerInvariant_same w w' :
  autoSaveRunning w' = autoSaveRunning w -> stopAutoSave w' = stopAutoSave w ->
  channels w' = channels w -> goroutines w' = goroutines w ->
  controllerInvariant w -> controllerInvariant w'.
Proof.
  unfold controllerInvariant, channelInvariant. intros -> -> -> ->. auto.
Qed.

Lemma controllerInvariant_step a w :
  controllerInvariant w ->
  exists w', perform a w = Returned w' /\ controllerInvariant w'.
Proof.
  intros Hinv. destruct a as [|now io|now io|authDir absPath mkdir_ok|read_ok|work];
    cbn [perform].
  - eexists; split; [reflexivity |]. unfold StartAutoSave.
    destruct (autoSaveRunning w) eqn:Erun; [exact Hinv |].
    destruct Hinv as (Hg & Hopen & _).
    unfold controllerInvariant, channelInvariant. cbn.
    rewrite length_app, Hg. cbn. split; [lia |].
    assert (Hlast : (channels w ++ [false]) !! length (channels w) = Some false).
    { rewrite lookup_app_r by lia. rewrite Nat.sub_diag. reflexivity. }
    split; [| eauto].
    intros i Hi. split; [reflexivity |]. f_equal.
    destruct (decide (i < length (channels w))%nat) as [Hlt|Hge].
    + rewrite lookup_app_l in Hi by assumption.
      destruct (Hopen i Hi) as [Hrun _]. congruence.
    + apply lookup_lt_Some in Hi. rewrite length_app in Hi. cbn in Hi. lia.
  - unfold StopAutoSave. destruct (autoSaveRunning w) eqn:Erun; cbn [negb];
      [| eauto].
    destruct Hinv as (Hg & Hopen & Hchan).
    destruct (Hchan Erun) as (i & Hi & Hopen_i). rewrite Hi. cbn [closeChannel].
    rewrite Hopen_i.
    match goal with
    | |- context [SaveUsageToFile now io ?w0] =>
        pose proof (SaveUsageToFile_controls now io w0) as (Hr & Hs & Hc);
        pose proof (SaveUsageToFile_goroutines now io w0) as Hgo;
        destruct (SaveUsageToFile now io w0) as [[err|] w1]
    end; eexists; (split; [reflexivity |]);
      cbn in Hr, Hs, Hc, Hgo;
      unfold controllerInvariant, channelInvariant; cbn; rewrite Hr, Hs, Hc, Hgo;
      (split; [rewrite length_insert; exact Hg |]);
      (split; [| discriminate]);
      intros j Hj; exfalso;
      (destruct (decide (j = i)) as [->|Hne];
       [ rewrite list_lookup_insert_eq in Hj by (eapply lookup_lt_Some; eassumption);
         discriminate
       | rewrite list_lookup_insert_ne in Hj by congruence;
         destruct (Hopen j Hj) as [_ Hj']; congruence ]).
  - eexists; split; [reflexivity |].
    destruct (autoSaveTick_controls now io w) as (Hr & Hs & Hc).
    apply (controllerInvariant_same w); auto.
    unfold autoSaveTick.
    pose proof (SaveUsageToFile_goroutines now io w) as Hgo.
    destruct (SaveUsageToFile now io w) as [[err|] w1]; exact Hgo.
  - eexists; split; [reflexivity |].
    pose proof (SetPersistencePath_controls authDir absPath mkdir_ok w) as Hc.
    cbv zeta in Hc. apply (controllerInvariant_same w); tauto.
  - eexists; split; [reflexivity |].
    pose proof (LoadUsageFromFile_frame read_ok w) as Hc.
    cbv zeta in Hc. apply (controllerInvariant_same w); tauto.
  - eexists; split; [reflexivity |]. apply (controllerInvariant_same w); auto.
Qed.

Lemma performAll_invariant actions w :
  controllerInvariant w ->
  exists w', performAll actions w = Returned w' /\ controllerInvariant w'.
Proof.
  revert w. induction actions as [|a rest IH]; intros w Hinv; cbn [performAll].
  - eauto.
  - destruct (controllerInvariant_step a w Hinv) as (w1 & -> & Hinv1).
    apply IH. exact Hinv1.
Qed.



End PersistenceProperties.

(** ** Rows and their keys *)

Section RowKeys.

Context {F : Type} `{Float64 F}.

Implicit Types (m : Manager F) (c : Call F).

(** X23.  The rows that traffic makes bear their key.  If every row of the
    ledger bears the key it is stored under, then so does every row after
    any call of the manager, except for a [SetUsage] that is given a row of
    another key; [GetUsage] and [UpdateUsage] make rows that bear the key
    and never change the key of a row. *)
Theorem rows_bear_their_key c m :
  rowKeysOk m ->
  match c with
  | CallSetUsage apiKey u => APIKey u = apiKey
  | _ => True
  end ->
  rowKeysOk (after c m).
Proof.
  intros Hok Hc. unfold rowKeysOk in *.
  destruct (keepsRows c) eqn:Ek; [rewrite keepsRows_usage; assumption |].
  destruct c; cbn [keepsRows] in Ek; try (exfalso; discriminate Ek); cbn [after].
  - unfold GetUsage. destruct (usage m !! apiKey) eqn:E; cbn; [assumption |].
    apply map_Forall_insert_2; [reflexivity | assumption].
  - rewrite UpdateUsage_usage. apply map_Forall_insert_2; [| assumption].
    cbn. unfold priorRow. destruct (usage m !! apiKey) as [u|] eqn:E; cbn.
    + apply (Hok apiKey u E).
    + reflexivity.
  - cbn. apply map_Forall_insert_2; assumption.
  - cbn. apply map_Forall_delete. assumption.
  - cbn. apply map_Forall_empty.
Qed.

End RowKeys.

(** ** The middleware *)

Section MiddlewareProperties.

Context {F : Type} `{Float64 F}.

Variable gjson_model : string -> string.

Implicit Types (m : Manager F) (c : GinContext F) (req : Request).

(** The model of a request, in the proofs below. *)
Local Abbreviation modelOf := (extractModelFromRequest gjson_model).

(** X24.  [extractModelFromRequest] reads a model only from the body of a
    [POST] request whose [Content-Type] is empty or starts with
    [application/json]; for every other request, and when the body cannot
    be read, the model is the empty string. *)
Theorem extractModelFromRequest_reads_JSON_posts req :
  extractModelFromRequest gjson_model req
  = if String.eqb (req_Method req) "POST"
       && (String.eqb (req_ContentType req) ""
           || String.prefix "application/json" (req_ContentType req))
    then match req_Body req with
         | Some body => gjson_model body
         | None => ""
         end
    else "".
Proof.
  unfold extractModelFromRequest.
  destruct (String.eqb (req_Method req) "POST"); cbn [negb andb]; [| reflexivity].
  set (ct := req_ContentType req).
  destruct (String.eqb_spec ct "") as [->|Hne]; [reflexivity |].
  cbn [orb negb andb]. rewrite andb_true_r.
  destruct (String.eqb_spec ct "application/json") as [->|Hjson]; [reflexivity |].
  cbn [negb andb].
  destruct (String.prefix "application/json" ct) eqn:Epre.
  - apply prefix_correct in Epre. cbn [String.length] in Epre.
    rewrite Epre. rewrite String.eqb_refl. cbn [negb orb].
    destruct (String.length ct <? 16)%nat eqn:Elen; [| reflexivity].
    exfalso. apply Nat.ltb_lt in Elen.
    assert (Hlen : forall n s,
              (String.length (String.substring 0 n s) <= String.length s)%nat).
    { induction n as [|n IH]; intros [|a s]; cbn; try lia.
      specialize (IH s). lia. }
    specialize (Hlen 16%nat ct). rewrite Epre in Hlen. cbn in Hlen. lia.
  - destruct (String.length ct <? 16)%nat; [reflexivity |]. cbn [orb].
    destruct (String.eqb_spec (String.substring 0 16 ct) "application/json")
      as [E|_]; [| reflexivity].
    exfalso. assert (String.prefix "application/json" ct = true)
      by (apply prefix_correct; exact E). congruence.
Qed.

Lemma respond_status (err : option (QuotaError F)) :
  resp_status (respondWithQuotaError err)
  = match err with
    | Some err =>
        match Type_ err with
        | QuotaErrorTypeExpired => 401
        | _ => 403
        end
    | None => 403
    end.
Proof. destruct err as [[[] ? ?]|]; reflexivity. Qed.

(** X25.  [Middleware] enforces [CheckQuota].  For a manager and a
    non-empty key in the context, the request goes on exactly when
    [CheckQuota] allows the key for the model of the request, and is
    answered otherwise: with status 401 for an expired key and 403 for the
    three other denials, and with the code and the details of the error of
    the result.  Either way the result is left in the context for
    [GetQuotaResult], and the manager is not changed. *)
Theorem Middleware_enforces_CheckQuota now req c m apiKey :
  c !! ContextKeyAPIKey = Some (ValString apiKey) ->
  apiKey <> "" ->
  let r :=
    fst (CheckQuota now apiKey (extractModelFromRequest gjson_model req) m) in
  exists c',
    GetQuotaResult c' = Some r
    /\ c' !! ContextKeyAPIKey = Some (ValString apiKey)
    /\ if Allowed r
       then Middleware gjson_model now req c (Some m) = (Next c', Some m)
       else exists err,
              Error r = Some err
              /\ Middleware gjson_model now req c (Some m)
                 = (Aborted {| resp_status :=
                                 match Type_ err with
                                 | QuotaErrorTypeExpired => 401
                                 | _ => 403
                                 end;
                               resp_type :=
                                 match Type_ err with
                                 | QuotaErrorTypeExpired => "authentication_error"
                                 | QuotaErrorTypeModelNotAllowed => "permission_error"
                                 | _ => "quota_exceeded"
                                 end;
                               resp_code := QuotaErrorType_string (Type_ err);
                               resp_details := Some (Details err) |} c',
                    Some m).
Proof.
  intros Hkey Hne r.
  pose proof (CheckQuota_readOnly now apiKey (modelOf req) m) as Hro.
  pose proof (CheckQuota_decision now apiKey (modelOf req) m) as Hdec.
  unfold Middleware. rewrite Hkey.
  destruct (String.eqb_spec apiKey "") as [?|_]; [contradiction |].
  subst r. destruct (CheckQuota now apiKey (modelOf req) m) as [r m'] eqn:E.
  cbn [fst snd] in *. subst m'.
  exists (<[ContextKeyQuotaResult := ValCheckResult r]>
            (if negb (String.eqb (modelOf req) "")
             then <[ContextKeyRequestModel := ValString (modelOf req)]> c else c)).
  split; [| split].
  - unfold GetQuotaResult. rewrite lookup_insert_eq. reflexivity.
  - rewrite lookup_insert_ne by discriminate.
    destruct (negb (String.eqb (modelOf req) ""));
      [rewrite lookup_insert_ne by discriminate |]; exact Hkey.
  - destruct (decision_cases now (modelOf req) (policies m !! apiKey)
                (usage m !! apiKey)) as [Ed | (err & Ed & Hcode)];
      rewrite <- Hdec in Ed; rewrite Ed.
    + rewrite NewAllowedResult_Allowed. reflexivity.
    + cbn. exists err. split; [reflexivity |].
      rewrite <- Hcode. destruct err as [[] code details]; reflexivity.
Qed.

(** X26.  [Middleware] checks nothing without a usable key: with the nil
    manager, and with a context whose [apiKey] is missing, nil, not a
    string or the empty string, the request goes on with the context as it
    was, whatever the policies say. *)
Theorem Middleware_skips_without_key now req c manager :
  manager = None
  \/ (forall apiKey, c !! ContextKeyAPIKey = Some (ValString apiKey) -> apiKey = "") ->
  Middleware gjson_model now req c manager = (Next c, manager).
Proof.
  intros Hskip. unfold Middleware. destruct manager as [m|]; [| reflexivity].
  destruct Hskip as [? | Hskip]; [discriminate |].
  destruct (c !! ContextKeyAPIKey) as [[| s | | |]|]; try reflexivity.
  rewrite (Hskip s eq_refl). reflexivity.
Qed.

(** X27.  A request without a model meets the allow-list with the empty
    model.  For a key whose policy has not expired and has a non-empty
    allow-list that does not hold the empty string, every request that is
    not a [POST] is answered 403 [permission_error] with the code
    [model_not_allowed]. *)
Theorem allow_list_denies_requests_without_model now req c m apiKey p :
  c !! ContextKeyAPIKey = Some (ValString apiKey) ->
  apiKey <> "" ->
  policies m !! apiKey = Some p ->
  IsExpired now (Some p) = false ->
  AllowedModels p <> [] ->
  "" ∉ AllowedModels p ->
  req_Method req <> "POST" ->
  exists c',
    Middleware gjson_model now req c (Some m)
    = (Aborted {| resp_status := 403; resp_type := "permission_error";
                  resp_code := "model_not_allowed";
                  resp_details := Some (DetailsModel "" (AllowedModels p)) |} c',
       Some m).
Proof.
  intros Hkey Hne Hp Hexp Hlist Hmem Hmethod.
  assert (Hmodel : modelOf req = "").
  { unfold extractModelFromRequest.
    destruct (String.eqb_spec (req_Method req) "POST"); [contradiction | reflexivity]. }
  pose proof (CheckQuota_readOnly now apiKey "" m) as Hro.
  pose proof (CheckQuota_decision now apiKey "" m) as Hdec.
  unfold Middleware. rewrite Hkey, Hmodel.
  destruct (String.eqb_spec apiKey "") as [?|_]; [contradiction |].
  destruct (CheckQuota now apiKey "" m) as [r m'].
  cbn [fst snd] in *. subst m'. rewrite Hdec, Hp.
  unfold decision, failsExpiration. rewrite Hexp.
  unfold failsAllowList.
  rewrite (bool_decide_eq_false_2 _ Hlist), (bool_decide_eq_false_2 _ Hmem).
  cbn. eexists. reflexivity.
Qed.

Lemma SetTokenUsage_extract i o ca c :
  extractTokenUsageFromContext (SetTokenUsage i o ca c) = (i, o, ca).
Proof.
  unfold extractTokenUsageFromContext, SetTokenUsage.
  rewrite lookup_insert_eq.
  rewrite (lookup_insert_ne _ "cachedTokens" "outputTokens") by discriminate.
  rewrite lookup_insert_eq.
  rewrite (lookup_insert_ne _ "cachedTokens" "inputTokens") by discriminate.
  rewrite (lookup_insert_ne _ "outputTokens" "inputTokens") by discriminate.
  rewrite lookup_insert_eq. reflexivity.
Qed.

Lemma SetTokenUsage_other i o ca c key :
  key <> "inputTokens" -> key <> "outputTokens" -> key <> "cachedTokens" ->
  SetTokenUsage i o ca c !! key = c !! key.
Proof.
  intros H1 H2 H3. unfold SetTokenUsage.
  rewrite !lookup_insert_ne by congruence. reflexivity.
Qed.

(** X28.  [PostRequestMiddleware] records nothing for a response with a
    status of 400 or more, so nothing for a request that [Middleware] has
    answered with a denial; and nothing for a request whose input and
    output token counts are both zero or less, whatever its cached token
    count.  The nil manager stays nil. *)
Theorem PostRequestMiddleware_skips created used status c manager :
  (400 <= status -> PostRequestMiddleware created used status c manager = manager)
  /\ (forall err : option (QuotaError F),
        PostRequestMiddleware created used
          (resp_status (respondWithQuotaError err)) c manager = manager)
  /\ (forall i o ca, i <= 0 -> o <= 0 ->
        PostRequestMiddleware created used status (SetTokenUsage i o ca c) manager
        = manager)
  /\ PostRequestMiddleware created used status c None = None.
Proof.
  assert (Hstatus : forall s, 400 <= s ->
            PostRequestMiddleware created used s c manager = manager).
  { intros s Hs. unfold PostRequestMiddleware. destruct manager as [m|]; [| reflexivity].
    replace (400 <=? s) with true by (symmetry; apply Z.leb_le; exact Hs).
    reflexivity. }
  split; [apply Hstatus | split; [| split; [| reflexivity]]].
  - intros err. apply Hstatus. rewrite respond_status.
    destruct err as [[[] ? ?]|]; cbn; lia.
  - intros i o ca Hi Ho. unfold PostRequestMiddleware.
    destruct manager as [m|]; [| reflexivity].
    destruct (400 <=? status); [reflexivity |].
    destruct (SetTokenUsage i o ca c !! ContextKeyAPIKey) as [[| s | | |]|];
      try reflexivity.
    destruct (String.eqb s ""); [reflexivity |].
    rewrite SetTokenUsage_extract.
    replace (0 <? i) with false by (symmetry; apply Z.ltb_ge; exact Hi).
    replace (0 <? o) with false by (symmetry; apply Z.ltb_ge; exact Ho).
    reflexivity.
Qed.

(** X29.  A request that went through is charged for the model that was
    checked.  When [Middleware] has let a request on, the handler has left
    its token counts with [SetTokenUsage] and the status is below 400, then
    [PostRequestMiddleware] is exactly one [UpdateUsage] for the key, the
    model that [Middleware] read from the request and the three counts,
    provided the input or the output count is positive and the context held
    no model before. *)
Theorem request_charged_for_the_model_checked
    now created used status req c c' m m1 apiKey i o ca :
  c !! ContextKeyAPIKey = Some (ValString apiKey) ->
  apiKey <> "" ->
  c !! ContextKeyRequestModel = None ->
  Middleware gjson_model now req c (Some m) = (Next c', Some m) ->
  status < 400 ->
  0 < i \/ 0 < o ->
  PostRequestMiddleware created used status (SetTokenUsage i o ca c') (Some m1)
  = Some (snd (UpdateUsage created used apiKey
                 (extractModelFromRequest gjson_model req) i o ca m1)).
Proof.
  intros Hkey Hne Hnomodel Hmw Hstatus Htokens.
  unfold Middleware in Hmw. rewrite Hkey in Hmw.
  destruct (String.eqb_spec apiKey "") as [?|_]; [contradiction |].
  destruct (CheckQuota now apiKey (modelOf req) m) as [r m'].
  destruct (negb (Allowed r)); [discriminate |].
  injection Hmw as <- _.
  unfold PostRequestMiddleware.
  replace (400 <=? status) with false by (symmetry; apply Z.leb_gt; exact Hstatus).
  rewrite !SetTokenUsage_other by discriminate.
  rewrite (lookup_insert_ne _ ContextKeyQuotaResult ContextKeyAPIKey) by discriminate.
  rewrite (lookup_insert_ne _ ContextKeyQuotaResult ContextKeyRequestModel)
    by discriminate.
  rewrite SetTokenUsage_extract.
  assert (Hpos : (0 <? i) || (0 <? o) = true).
  { apply orb_true_iff. rewrite !Z.ltb_lt. exact Htokens. }
  destruct (String.eqb_spec (modelOf req) "") as [Hm|Hm]; cbn [negb].
  - rewrite Hkey, Hnomodel.
    destruct (String.eqb_spec apiKey "") as [?|_]; [contradiction |].
    rewrite Hpos, Hm. reflexivity.
  - rewrite (lookup_insert_ne _ ContextKeyRequestModel ContextKeyAPIKey)
      by discriminate.
    rewrite Hkey, lookup_insert_eq.
    destruct (String.eqb_spec apiKey "") as [?|_]; [contradiction |].
    rewrite Hpos. reflexivity.
Qed.

End MiddlewareProperties.

(** ** Startup *)

Section StartupProperties.

Implicit Types (w : World float).

Lemma StartAutoSave_frame w :
  manager (StartAutoSave w) = manager w
  /\ persistencePath (StartAutoSave w) = persistencePath w
  /\ files (StartAutoSave w) = files w.
Proof. unfold StartAutoSave. destruct (autoSaveRunning w); cbn; auto. Qed.

(** A property of the entries of a map, checked entry by entry. *)
Lemma map_Forall_by_forallb {A} (P : A -> bool) (m : gmap string A) :
  forallb (fun kv => P (snd kv)) (map_to_list m) = true ->
  map_Forall (fun _ x => P x = true) m.
Proof.
  intros E. apply map_Forall_to_list. apply Forall_forall. intros [k v] Hin.
  rewrite forallb_forall in E. apply (E (k, v)). apply list_elem_of_In. exact Hin.
Qed.

(** Every price of the default catalog is a finite number that is not
    negative. *)
Lemma DefaultModelPricing_prices_ok :
  map_Forall (fun _ pricing => pricingOk pricing = true) DefaultModelPricing.
Proof. apply map_Forall_by_forallb. vm_compute. reflexivity. Qed.


End StartupProperties.

(** ** Instances of the properties with hypotheses *)

(** X2 at the key that expired on 2025-11-01: denied as expired in the
    morning of 2026-11-01, so denied as expired in the evening. *)
Lemma expired_key_denied_in_the_evening :
  Allowed (fst (CheckQuota Sample.evening "key-expired" "gpt-4o" Sample.expiredKey))
  = false
  /\ errorKind (fst (CheckQuota Sample.evening "key-expired" "gpt-4o"
                       Sample.expiredKey))
     = Some QuotaErrorTypeExpired.
Proof.
  apply (expired_key_stays_denied Sample.morning Sample.evening "key-expired"
           "claude-3-5-sonnet" "gpt-4o" Sample.expiredKey Sample.expiredKey).
  - reflexivity.
  - vm_compute. discriminate.
  - vm_compute. reflexivity.
Defined.

(** X3 at a day that February does not have. *)
Lemma February_30_never_expires :
  let p := Sample.policyOf [] 0 0 "2026-02-30" in
  ParsedExpiresAt (Some p) = GoTime.zeroTime
  /\ (forall now, IsExpired now (Some p) = false)
  /\ (forall now apiKey model m,
        policies m !! apiKey = Some p ->
        errorKind (fst (CheckQuota now apiKey model m)) <> Some QuotaErrorTypeExpired).
Proof.
  apply (unparsable_expiry_never_expires (Sample.policyOf [] 0 0 "2026-02-30"));
    vm_compute; reflexivity.
Defined.

(** X4 at the date 2026-11-01, whose midnight in UTC is 1793491200 seconds
    after the epoch, on the clock of the evening. *)
Lemma expiry_of_2026_11_01 :
  let p := Sample.policyOf [] 0 0 "2026-11-01" in
  let t := GoTime.mkTime (1793491200 * GoTime.Second) 0 in
  GoTime.zoneOffset t = 0
  /\ GoTime.unixNano t mod (GoTime.secondsPerDay * GoTime.Second) = 0
  /\ IsExpired Sample.evening (Some p)
     = (GoTime.unixNano t + 86399 * GoTime.Second <? GoTime.unixNano Sample.evening)
  /\ (forall now', GoTime.unixNano now' = GoTime.unixNano Sample.evening ->
        IsExpired now' (Some p) = IsExpired Sample.evening (Some p)).
Proof.
  apply (date_only_expiry_is_end_of_day_in_UTC Sample.evening
           (Sample.policyOf [] 0 0 "2026-11-01")
           (GoTime.mkTime (1793491200 * GoTime.Second) 0)).
  vm_compute. reflexivity.
Defined.

(** X5 at a key with a name only and a billion tokens used. *)
Lemma named_policy_allows :
  let r := fst (CheckQuota Sample.evening "key-free" "any-model"
                  Sample.unrestrictedKey) in
  Allowed r = true /\ Error r = None
  /\ RemainingTokens r = None /\ RemainingCostUSD r = None.
Proof.
  apply (unrestricted_policy_never_denies Sample.evening "key-free" "any-model"
           Sample.unrestrictedKey
           {| Name := "free"; AllowedModels := []; MaxTokens := 0;
              MaxCostUSD := 0%float; ExpiresAt := "" |});
    vm_compute; reflexivity.
Defined.

(** X17 at the second case of [TestPricingManager_CalculateCost]. *)
Lemma cost_of_the_test_not_negative :
  (f64_of_int64 0
   <=? CalculateCost Sample.testPricing "claude-3-5-sonnet" 1000 500 2000)%f64 = true.
Proof.
  apply (cost_never_negative Sample.testPricing "claude-3-5-sonnet" 1000 500 2000);
    first [ vm_compute; reflexivity | vm_compute; split; discriminate ].
Defined.



(** X23 at an update of the key that has a row. *)
Lemma update_keeps_row_keys :
  rowKeysOk (after (CallUpdateUsage Sample.evening Sample.evening "key-valid"
                      "gpt-4o" 2000 1000 300) Sample.usedKey).
Proof.
  apply (rows_bear_their_key
           (CallUpdateUsage Sample.evening Sample.evening "key-valid" "gpt-4o"
              2000 1000 300) Sample.usedKey).
  - apply map_Forall_singleton. reflexivity.
  - exact I.
Defined.

(** X25 at a chat completion of the key that has used 400 of 1000 tokens:
    the request goes on. *)
Lemma chat_request_goes_on :
  let r := fst (CheckQuota Sample.morning "key-valid"
                  (extractModelFromRequest Sample.gpt4oBody Sample.chatRequest)
                  Sample.usedKey) in
  exists c',
    GetQuotaResult c' = Some r
    /\ c' !! ContextKeyAPIKey = Some (ValString "key-valid")
    /\ if Allowed r
       then Middleware Sample.gpt4oBody Sample.morning Sample.chatRequest
              (Sample.contextOf "key-valid") (Some Sample.usedKey)
            = (Next c', Some Sample.usedKey)
       else exists err,
              Error r = Some err
              /\ Middleware Sample.gpt4oBody Sample.morning Sample.chatRequest
                   (Sample.contextOf "key-valid") (Some Sample.usedKey)
                 = (Aborted {| resp_status :=
                                 match Type_ err with
                                 | QuotaErrorTypeExpired => 401
                                 | _ => 403
                                 end;
                               resp_type :=
                                 match Type_ err with
                                 | QuotaErrorTypeExpired => "authentication_error"
                                 | QuotaErrorTypeModelNotAllowed => "permission_error"
                                 | _ => "quota_exceeded"
                                 end;
                               resp_code := QuotaErrorType_string (Type_ err);
                               resp_details := Some (Details err) |} c',
                    Some Sample.usedKey).
Proof.
  apply (Middleware_enforces_CheckQuota Sample.gpt4oBody Sample.morning
           Sample.chatRequest (Sample.contextOf "key-valid") Sample.usedKey
           "key-valid").
  - reflexivity.
  - discriminate.
Defined.

(** X26 at a request that carries no key. *)
Lemma request_without_key_goes_on :
  Middleware Sample.gpt4oBody Sample.morning Sample.chatRequest ∅
    (Some Sample.overTokens)
  = (Next ∅, Some Sample.overTokens).
Proof.
  apply (Middleware_skips_without_key Sample.gpt4oBody Sample.morning
           Sample.chatRequest ∅ (Some Sample.overTokens)).
  right. intros apiKey Hkey. rewrite lookup_empty in Hkey. discriminate.
Defined.

(** X27 at a listing by the key that is limited to two models. *)
Lemma listing_denied_by_allow_list :
  exists c',
    Middleware Sample.gpt4oBody Sample.morning Sample.listRequest
      (Sample.contextOf "key-over-tokens") (Some Sample.overTokens)
    = (Aborted {| resp_status := 403; resp_type := "permission_error";
                  resp_code := "model_not_allowed";
                  resp_details :=
                    Some (DetailsModel ""
                            (AllowedModels
                               (Sample.policyOf ["gpt-4o"; "claude-3-5-sonnet"]
                                  1000 0 ""))) |} c',
       Some Sample.overTokens).
Proof.
  apply (allow_list_denies_requests_without_model Sample.gpt4oBody Sample.morning
           Sample.listRequest (Sample.contextOf "key-over-tokens")
           Sample.overTokens "key-over-tokens"
           (Sample.policyOf ["gpt-4o"; "claude-3-5-sonnet"] 1000 0 "")).
  - reflexivity.
  - discriminate.
  - vm_compute. reflexivity.
  - vm_compute. reflexivity.
  - discriminate.
  - intros Hin. apply elem_of_cons in Hin as [Hin|Hin]; [discriminate |].
    apply elem_of_cons in Hin as [Hin|Hin]; [discriminate |].
    apply elem_of_nil in Hin. exact Hin.
  - discriminate.
Defined.

(** X29 at the chat completion: 2000 input, 1000 output and 300 cached
    tokens are recorded for [gpt-4o], the model that was checked. *)
Lemma chat_request_is_recorded :
  let c' :=
    <[ContextKeyQuotaResult :=
        ValCheckResult (fst (CheckQuota Sample.morning "key-valid" "gpt-4o"
                               Sample.usedKey))]>
      (<[ContextKeyRequestModel := ValString "gpt-4o"]>
         (Sample.contextOf "key-valid")) in
  PostRequestMiddleware Sample.evening Sample.evening 200
    (SetTokenUsage 2000 1000 300 c') (Some Sample.usedKey)
  = Some (snd (UpdateUsage Sample.evening Sample.evening "key-valid"
                 (extractModelFromRequest Sample.gpt4oBody Sample.chatRequest)
                 2000 1000 300 Sample.usedKey)).
Proof.
  apply (request_charged_for_the_model_checked Sample.gpt4oBody Sample.morning
           Sample.evening Sample.evening 200 Sample.chatRequest
           (Sample.contextOf "key-valid") _ Sample.usedKey Sample.usedKey
           "key-valid" 2000 1000 300).
  - reflexivity.
  - discriminate.
  - reflexivity.
  - vm_compute. reflexivity.
  - reflexivity.
  - left. reflexivity.
Defined.
